(** * Rolling batting statistics and their correlation with the next outcome

    A shallow embedding of [recent_stats_evaluation.py]: the outcome
    labeler [get_pa_outcomes], the windowed feature generator
    [compute_rolling_stats], the aggregator [process_all_players] and the
    reducer [compute_correlations].

    Conventions of the embedding.
    - A data frame is the list of its rows, in row order.
    - A missing cell (pandas' NaN) of the unified table is [None].
    - The integer-valued columns are [Z]; a mean of [n] such values is the
      rational [sum # n].  The float64 sums the program forms are sums of
      small integers over at most 250 cells, hence exact; the program
      rounds the final division, and the reducer works on the rounded
      quotient.
    - The reducer computes in binary64 ([PrimFloat]), NaN included.
    - [game_date] is a day number.  The column is never missing in the model
      (the event record always carries its timestamp). *)

From Stdlib Require Import String.
From Stdlib Require Import List ZArith QArith Lia Bool Arith.
From Stdlib Require Import Permutation Sorted.
From Stdlib Require Import Floats.
Import ListNotations.

Set Implicit Arguments.

(** ** Raw events and outcome signals *)

Local Open Scope string_scope.
Local Open Scope Z_scope.

(** One raw record: the columns the pipeline keeps
    ([game_date], [batter], [events]).  [events] is absent on pitches that
    ended no plate appearance. *)
Record Event := mkEvent {
  game_date : Z;
  batter : Z;
  events : option string
}.

(** A record after [get_pa_outcomes]: the three signal columns are added. *)
Record Labeled := mkLabeled {
  ev : Event;
  is_hit : Z;
  is_on_base : Z;
  total_bases : Z
}.

(** [Series.isin(values)]: membership of the cell in a list of strings; a
    missing cell is in no list. *)
Definition isin (values : list string) (cell : option string) : bool :=
  match cell with
  | Some s => existsb (String.eqb s) values
  | None => false
  end.

(** [.astype(int)] on a boolean column. *)
Definition astype_int (b : bool) : Z := if b then 1 else 0.

(** [Series.map(dict)]: the value stored under the cell, missing when the
    cell is missing or is no key of the dict. *)
Fixpoint map_dict (d : list (string * Z)) (cell : option string) : option Z :=
  match cell, d with
  | Some s, (k, v) :: d' => if String.eqb s k then Some v else map_dict d' cell
  | _, _ => None
  end.

(** [.fillna(v)]. *)
Definition fillna (v : Z) (cell : option Z) : Z :=
  match cell with Some x => x | None => v end.

Definition hit_events : list string :=
  ["single"; "double"; "triple"; "home_run"].

Definition on_base_events : list string :=
  ["single"; "double"; "triple"; "home_run"; "walk"; "hit_by_pitch"].

Definition bases_dict : list (string * Z) :=
  [("single", 1); ("double", 2); ("triple", 3); ("home_run", 4)].

(** The three column assignments of [get_pa_outcomes], for one row. *)
Definition label (e : Event) : Labeled :=
  {| ev := e;
     is_hit := astype_int (isin hit_events (events e));
     is_on_base := astype_int (isin on_base_events (events e));
     total_bases := fillna 0 (map_dict bases_dict (events e)) |}.

Definition get_pa_outcomes (df : list Event) : list Labeled := map label df.

(** The categories that count as a hit, and those that reach base. *)
Definition hit_category (c : option string) : Prop :=
  c = Some "single" \/ c = Some "double" \/ c = Some "triple"
  \/ c = Some "home_run".

Definition on_base_category (c : option string) : Prop :=
  hit_category c \/ c = Some "walk" \/ c = Some "hit_by_pitch".

(** The row [r] is the event [e] with the three signals of the documented
    table. *)
Definition follows_table (e : Event) (r : Labeled) : Prop :=
  ev r = e
  /\ (is_hit r = 1 <-> hit_category (events e))
  /\ (is_hit r = 0 <-> ~ hit_category (events e))
  /\ (is_on_base r = 1 <-> on_base_category (events e))
  /\ (is_on_base r = 0 <-> ~ on_base_category (events e))
  /\ (events e = Some "single" -> total_bases r = 1)
  /\ (events e = Some "double" -> total_bases r = 2)
  /\ (events e = Some "triple" -> total_bases r = 3)
  /\ (events e = Some "home_run" -> total_bases r = 4)
  /\ (~ hit_category (events e) -> total_bases r = 0).

(** ** Sorting a frame by date

    [df.sort_values(by='game_date')] is called with pandas' default
    [kind='quicksort']: the [game_date] column goes to numpy's [argsort] of
    that kind and the frame is taken in the order of the indices it
    returns.  The generator and the aggregator need of the sort only that
    its result is ascending and a permutation of the frame, and their
    properties are stated over the interface [SortValues] with these two
    laws.  What becomes of rows with equal dates is decided by the
    algorithm, numpy's [npy_aquicksort], embedded below on the rows
    themselves (it compares keys only, so sorting the rows is sorting the
    indices and taking the rows). *)

Definition date_le (a b : Labeled) : Prop := game_date (ev a) <= game_date (ev b).

Class SortValues := {
  sort_values : list Labeled -> list Labeled;
  sort_values_perm : forall df, Permutation (sort_values df) df;
  sort_values_sorted : forall df, Sorted date_le (sort_values df)
}.

(** Insertion by date before the first row whose date is not earlier: the
    building block of a stable sort. *)
Fixpoint insert_by_date (x : Labeled) (l : list Labeled) : list Labeled :=
  match l with
  | [] => [x]
  | y :: l' =>
      if game_date (ev x) <=? game_date (ev y) then x :: l
      else y :: insert_by_date x l'
  end.

Definition isort_by_date (l : list Labeled) : list Labeled :=
  fold_right insert_by_date [] l.

(** *** numpy's quicksort

    [npy_aquicksort]: partitions around the median of three while a
    segment has more than 17 rows ([SMALL_QUICKSORT = 16]), sorts shorter
    segments by insertion, and hands a segment it pops from its stack to
    [npy_aheapsort] once the depth limit [2 * floor(log2 n)] is used up.
    Both are the generic versions, which numpy uses for a column of
    strings. *)

(** The date of row [i] of a frame. *)
Definition date_at (a : list Labeled) (i : nat) : Z :=
  match nth_error a i with
  | Some r => game_date (ev r)
  | None => 0
  end.

Fixpoint upd (i : nat) (x : Labeled) (a : list Labeled) : list Labeled :=
  match a, i with
  | [], _ => []
  | _ :: a', O => x :: a'
  | y :: a', S i' => y :: upd i' x a'
  end.

(** [INTP_SWAP(a[i], a[j])]. *)
Definition swap (i j : nat) (a : list Labeled) : list Labeled :=
  match nth_error a i, nth_error a j with
  | Some x, Some y => upd i y (upd j x a)
  | _, _ => a
  end.

(** [do ++pi; while (a[pi] < vp && pi < pj)], entered after the first
    increment. *)
Fixpoint scan_up (fuel : nat) (a : list Labeled) (vp : Z) (pi pj : nat)
    : nat :=
  match fuel with
  | O => pi
  | S f =>
      if (date_at a pi <? vp) && (pi <? pj)%nat
      then scan_up f a vp (S pi) pj
      else pi
  end.

(** [do --pj; while (vp < a[pj] && pi < pj)], entered after the first
    decrement. *)
Fixpoint scan_down (fuel : nat) (a : list Labeled) (vp : Z) (pi pj : nat)
    : nat :=
  match fuel with
  | O => pj
  | S f =>
      if (vp <? date_at a pj) && (pi <? pj)%nat
      then scan_down f a vp pi (pj - 1)%nat
      else pj
  end.

(** The [for (;;)] loop of the partition: scan up, scan down, stop when the
    scans have met, else exchange the two rows and go on. *)
Fixpoint exchange (fuel : nat) (a : list Labeled) (vp : Z) (pi pj : nat)
    : list Labeled * nat :=
  match fuel with
  | O => (a, pi)
  | S f =>
      let pi := scan_up (length a) a vp (S pi) pj in
      let pj := scan_down (length a) a vp pi (pj - 1)%nat in
      if (pj <=? pi)%nat then (a, pi) else exchange f (swap pi pj a) vp pi pj
  end.

(** One partition of a segment [a[0..pr]]: the first, middle and last row
    are put in order, the middle one is the pivot and is put aside in
    place [pr - 1]; after the exchanges it is put in the place [pi] where
    the scans met, which is returned. *)
Definition partition (a : list Labeled) : list Labeled * nat :=
  let pr := (length a - 1)%nat in
  let pm := (pr / 2)%nat in
  let a := if date_at a pm <? date_at a 0 then swap pm 0 a else a in
  let a := if date_at a pr <? date_at a pm then swap pr pm a else a in
  let a := if date_at a pm <? date_at a 0 then swap pm 0 a else a in
  let vp := date_at a pm in
  let a := swap pm (pr - 1)%nat a in
  let (a, pi) := exchange (length a) a vp 0 (pr - 1)%nat in
  (swap pi (pr - 1)%nat a, pi).

(** *** numpy's heapsort, the fallback of the quicksort *)

(** The inner loop of [npy_aheapsort], which sinks the row [tmp] from place
    [i] of the heap [a[1..n]]: [j] is the left child of [i]; the later of
    the two children moves up while it is later than [tmp].  Places are
    numbered from 1, as the C code does ([a = tosort - 1]). *)
Fixpoint sift_down (fuel : nat) (a : list Labeled) (tmp : Labeled)
    (i j n : nat) : list Labeled :=
  match fuel with
  | O => upd (i - 1)%nat tmp a
  | S f =>
      if (j <=? n)%nat then
        let j :=
          if (j <? n)%nat && (date_at a (j - 1)%nat <? date_at a j)
          then S j else j in
        match nth_error a (j - 1)%nat with
        | Some x =>
            if game_date (ev tmp) <? game_date (ev x)
            then sift_down f (upd (i - 1)%nat x a) tmp j (j + j)%nat n
            else upd (i - 1)%nat tmp a
        | None => upd (i - 1)%nat tmp a
        end
      else upd (i - 1)%nat tmp a
  end.

(** [for (l = n >> 1; l > 0; --l)]: the heap is built from the middle
    down. *)
Fixpoint build_heap (l : nat) (a : list Labeled) (n : nat) : list Labeled :=
  match l with
  | O => a
  | S l' =>
      match nth_error a l' with
      | Some tmp => build_heap l' (sift_down n a tmp l (l + l)%nat n) n
      | None => a
      end
  end.

(** [for (; n > 1;)]: the first row of the heap goes to place [n], the row
    that was there sinks from the top of the heap [a[1..n-1]]. *)
Fixpoint sort_heap (n : nat) (a : list Labeled) : list Labeled :=
  match n with
  | O => a
  | S n' =>
      if (1 <? n)%nat then
        match nth_error a n', nth_error a 0 with
        | Some tmp, Some top =>
            sort_heap n' (sift_down n' (upd n' top a) tmp 1 2 n')
        | _, _ => a
        end
      else a
  end.

(** [npy_aheapsort]. *)
Definition aheapsort (a : list Labeled) : list Labeled :=
  let n := length a in
  sort_heap n (build_heap (n / 2)%nat a n).

(** The heap order of [npy_aheapsort] at place [k] of [a[1..n]], and from
    place [l] on. *)
Definition heap_at (a : list Labeled) (n k : nat) : Prop :=
  ((2 * k <= n)%nat -> date_at a (2 * k - 1)%nat <= date_at a (k - 1)%nat)
  /\ ((2 * k + 1 <= n)%nat -> date_at a (2 * k)%nat <= date_at a (k - 1)%nat).

Definition heap (a : list Labeled) (l n : nat) : Prop :=
  forall k, (l <= k)%nat -> (1 <= k)%nat -> heap_at a n k.

(** The rows from place [n] on are in order and not earlier than the rows
    before. *)
Definition tail_sorted (a : list Labeled) (n : nat) : Prop :=
  (forall i j, (n <= i)%nat -> (i <= j)%nat -> (j < length a)%nat ->
               date_at a i <= date_at a j)
  /\ (forall i j, (i < n)%nat -> (n <= j)%nat -> (j < length a)%nat ->
                  date_at a i <= date_at a j).

(** *** The quicksort proper *)

(** The work on one segment.  [popped] tells a segment taken from the
    stack, where the depth limit is tested, from one the partition loop
    goes on with.  Of the two sides of a partition the longer one is
    pushed; both get the depth limit less one.  The insertion sort of a
    short segment moves a row left past the rows of a later date only,
    which is the order [isort_by_date] builds. *)
Fixpoint aquicksort_loop (fuel : nat) (popped : bool) (cdepth : Z)
    (a : list Labeled) : list Labeled :=
  match fuel with
  | O => a
  | S f =>
      if popped && (cdepth <? 0) then aheapsort a
      else if (16 <? length a - 1)%nat then
        let (a', pi) := partition a in
        let left := firstn pi a' in
        let pivot := firstn 1 (skipn pi a') in
        let right := skipn (S pi) a' in
        let cdepth := cdepth - 1 in
        if (pi <? (length a - 1) - pi)%nat
        then aquicksort_loop f false cdepth left
             ++ pivot ++ aquicksort_loop f true cdepth right
        else aquicksort_loop f true cdepth left
             ++ pivot ++ aquicksort_loop f false cdepth right
      else isort_by_date a
  end.

(** [npy_aquicksort]. *)
Definition aquicksort (a : list Labeled) : list Labeled :=
  aquicksort_loop (S (length a)) true (2 * Z.log2 (Z.of_nat (length a))) a.

(** ** Rolling means and shifted targets *)

Local Close Scope string_scope.
Local Open Scope nat_scope.

(** [values[a:b]]. *)
Definition slice (A : Type) (values : list A) (a b : nat) : list A :=
  firstn (b - a) (skipn a values).

Definition zsum (l : list Z) : Z := fold_right Z.add 0%Z l.

(** Bounds of the trailing window that ends at row [i] (pandas'
    [FixedWindowIndexer]): [end = i + 1], [start = end - window] clipped
    at 0. *)
Definition win_start (window i : nat) : nat := i + 1 - window.
Definition win_end (i : nat) : nat := i + 1.

(** State of the sliding mean: the running sum and the number of
    observations in the window. *)
Definition add_mean (st : Z * nat) (v : Z) : Z * nat :=
  ((fst st + v)%Z, S (snd st)).

Definition remove_mean (st : Z * nat) (v : Z) : Z * nat :=
  ((fst st - v)%Z, pred (snd st)).

(** The value written for one row: the mean when the window holds at least
    [minp] observations, missing otherwise. *)
Definition calc_mean (minp : nat) (st : Z * nat) : option Q :=
  if (minp <=? snd st) && (0 <? snd st)
  then Some (fst st # Pos.of_nat (snd st))
  else None.

(** One pass of the sliding mean over rows [i, i + n).  On the first row,
    and when the window shares no row with the previous one, the sum is set
    up afresh; otherwise the rows that left the window are removed from the
    running sum and the rows that entered it are added. *)
Fixpoint roll_mean_loop (values : list Z) (window minp n i : nat)
    (st : Z * nat) : list (option Q) :=
  match n with
  | O => []
  | S n' =>
      let st' :=
        if (i =? 0) || (win_end (i - 1) <=? win_start window i)
        then fold_left add_mean
               (slice values (win_start window i) (win_end i)) (0%Z, 0)
        else fold_left add_mean (slice values (win_end (i - 1)) (win_end i))
               (fold_left remove_mean
                  (slice values (win_start window (i - 1)) (win_start window i)) st)
      in calc_mean minp st' :: roll_mean_loop values window minp n' (S i) st'
  end.

(** [series.rolling(window).mean()]; [min_periods] defaults to [window]. *)
Definition rolling_mean (window : nat) (values : list Z) : list (option Q) :=
  roll_mean_loop values window window (length values) 0 (0%Z, 0).

(** [series.shift(-1)]: every cell takes the value of the next row, the
    last cell is missing. *)
Definition shift_m1 (values : list Z) : list (option Z) :=
  match values with
  | [] => []
  | _ :: rest => map Some rest ++ [None]
  end.

(** The sum and the size of the window that ends at row [i]. *)
Definition window_state (values : list Z) (window i : nat) : Z * nat :=
  (zsum (slice values (win_start window i) (win_end i)),
   win_end i - win_start window i).

(** The simple mean of the spec: the sum of the cells at positions
    [i - W + 1 .. i], divided by [W]. *)
Definition trailing_mean (values : list Z) (W i : nat) : Q :=
  zsum (map (fun j => nth j values 0%Z) (seq (i + 1 - W) W)) # Pos.of_nat W.

(** One row of the generator's output. *)
Record Row := mkRow {
  player_id : Z;
  row_game_date : Z;
  rolling_window : nat;
  rolling_avg : option Q;
  rolling_obp : option Q;
  rolling_slg : option Q;
  next_is_hit : option Z;
  next_is_on_base : option Z;
  next_total_bases : option Z
}.

(** Errors the pipeline can raise. *)
Inductive error : Type :=
| ValueError (msg : string).

Definition result (A : Type) : Type := (error + A)%type.

Definition bind (A B : Type) (m : result A) (f : A -> result B) : result B :=
  match m with
  | inl e => inl e
  | inr a => f a
  end.

Notation "x <- m ;; k" := (bind m (fun x => k))
  (at level 61, m at next level, right associativity).

(** [pd.concat(frames)]: raises on an empty list of frames. *)
Definition pd_concat (A : Type) (frames : list (list A)) : result (list A) :=
  match frames with
  | [] => inl (ValueError "No objects to concatenate"%string)
  | _ => inr (concat frames)
  end.

(** The frame [temp] built for one window size: the columns are combined
    row by row. *)
Definition window_frame (df : list Labeled) (window : nat) : list Row :=
  let avg := rolling_mean window (map is_hit df) in
  let obp := rolling_mean window (map is_on_base df) in
  let slg := rolling_mean window (map total_bases df) in
  let nh := shift_m1 (map is_hit df) in
  let nob := shift_m1 (map is_on_base df) in
  let ntb := shift_m1 (map total_bases df) in
  map (fun c =>
         match c with
         | (r, (a, (o, (s, (h, (b, t)))))) =>
             mkRow (batter (ev r)) (game_date (ev r)) window a o s h b t
         end)
      (combine df (combine avg (combine obp (combine slg
         (combine nh (combine nob ntb)))))).

(** The player timeline the generator works on. *)
Definition timeline {SV : SortValues} (df : list Labeled) : list Labeled :=
  sort_values df.

Definition compute_rolling_stats {SV : SortValues} (df : list Labeled)
    (max_window : nat) : result (list Row) :=
  let df := timeline df in
  let results := map (window_frame df) (seq 1 max_window) in
  pd_concat results.

(** ** The aggregator *)

(** Insertion of a key into an ascending list without repetitions. *)
Fixpoint insert_key (k : Z) (ks : list Z) : list Z :=
  match ks with
  | [] => [k]
  | x :: ks' =>
      if (k <? x)%Z then k :: ks
      else if (k =? x)%Z then ks
      else x :: insert_key k ks'
  end.

(** The distinct keys of a column, ascending. *)
Definition group_keys (ks : list Z) : list Z := fold_right insert_key [] ks.

(** [df.groupby(key)], iterated: one pair [(k, group)] per distinct key, keys
    ascending, every group holding the rows of that key in frame order. *)
Definition groupby (A : Type) (key : A -> Z) (df : list A) : list (Z * list A) :=
  map (fun k => (k, filter (fun r => (key r =? k)%Z) df))
      (group_keys (map key df)).

Definition is_some (A : Type) (o : option A) : bool :=
  match o with Some _ => true | None => false end.

(** [final_df.dropna()]: a row stays when none of its cells is missing. *)
Definition complete_row (r : Row) : bool :=
  is_some (rolling_avg r) && is_some (rolling_obp r) && is_some (rolling_slg r)
  && is_some (next_is_hit r) && is_some (next_is_on_base r)
  && is_some (next_total_bases r).

Definition dropna (df : list Row) : list Row := filter complete_row df.

(** The default of [compute_rolling_stats]' [max_window]. *)
Definition default_max_window : nat := 250.

(** The loop over the players: a group of fewer than 260 rows is skipped,
    the others contribute their generator output to [all_rolling]. *)
Fixpoint players_loop {SV : SortValues} (grouped : list (Z * list Labeled))
    : result (list (list Row)) :=
  match grouped with
  | [] => inr []
  | (_, group) :: rest =>
      if length group <? 260 then players_loop rest
      else
        stats <- compute_rolling_stats group default_max_window ;;
        all_rolling <- players_loop rest ;;
        inr (stats :: all_rolling)
  end.

(** [process_all_players].  The column selection and the date conversion
    are the identity on [Event]; writing the csv file is not modelled. *)
Definition process_all_players {SV : SortValues} (data : list Event)
    : result (list Row) :=
  let data := get_pa_outcomes data in
  let grouped := groupby (fun r => batter (ev r)) data in
  all_rolling <- players_loop grouped ;;
  final_df <- pd_concat all_rolling ;;
  inr (dropna final_df).

(** Names for the parts of [process_all_players] the properties speak of. *)

(** A group the loop does not skip. *)
Definition qualifies (g : Z * list Labeled) : bool :=
  negb (length (snd g) <? 260).

(** The rows the generator returns for one group, with the default
    [max_window]. *)
Definition player_rows {SV : SortValues} (group : list Labeled) : list Row :=
  concat (map (window_frame (timeline group)) (seq 1 default_max_window)).

(** The events of player [p] in the raw data. *)
Definition player_events (p : Z) (data : list Event) : list Event :=
  filter (fun e => (batter e =? p)%Z) data.

(** The data without the events of the players that have fewer than 260. *)
Definition without_short_players (data : list Event) : list Event :=
  filter (fun e => 260 <=? length (player_events (batter e) data)) data.

(** The rows of a result; none when the call raised. *)
Definition table_rows (res : result (list Row)) : list Row :=
  match res with
  | inr table => table
  | inl _ => []
  end.

(** The rows of player [p] for window size [W]. *)
Definition rows_of (p : Z) (W : nat) (table : list Row) : list Row :=
  filter (fun r => (player_id r =? p)%Z && (rolling_window r =? W)) table.

(** The rows of the pass for window size [W], and the number of cells of
    a column that hold a value. *)
Definition pass_rows (W : nat) (rows : list Row) : list Row :=
  filter (fun r => rolling_window r =? W) rows.

Definition count_defined (A : Type) (col : list (option A)) : nat :=
  length (filter (@is_some A) col).

(** The row the spec describes for position [i] of the pass for window
    size [W] over the timeline [tl], [r] being the event at [i]. *)
Definition expected_row (tl : list Labeled) (W i : nat) (r : Labeled) : Row :=
  let L := length tl in
  let mean signal :=
    if W - 1 <=? i then Some (trailing_mean (map signal tl) W i) else None in
  let next signal :=
    if i + 1 <? L then Some (nth (i + 1) (map signal tl) 0%Z) else None in
  mkRow (batter (ev r)) (game_date (ev r)) W
        (mean is_hit) (mean is_on_base) (mean total_bases)
        (next is_hit) (next is_on_base) (next total_bases).

(** A row whose three rolling statistics are present and within range. *)
Definition bounded_row (r : Row) : Prop :=
  exists a o s : Q,
    rolling_avg r = Some a /\ rolling_obp r = Some o /\ rolling_slg r = Some s
    /\ (a <= o /\ 0 <= a <= 1 /\ 0 <= o <= 1 /\ 0 <= s <= 4)%Q.

(** The rows of date [d], in the order of the frame. *)
Definition same_date (d : Z) (df : list Labeled) : list Labeled :=
  filter (fun r => (game_date (ev r) =? d)%Z) df.

(** Two frames of 260 events of one player on one day: a single, then 259
    walks; and a walk, a single, then 258 walks. *)
Definition one_day_group : list Labeled :=
  get_pa_outcomes
    (mkEvent 0 7 (Some "single"%string)
     :: repeat (mkEvent 0 7 (Some "walk"%string)) 259).

Definition tied_day_group : list Labeled :=
  get_pa_outcomes
    (mkEvent 0 7 (Some "walk"%string)
     :: mkEvent 0 7 (Some "single"%string)
     :: repeat (mkEvent 0 7 (Some "walk"%string)) 258).

(** The places of the hits in a frame. *)
Definition hit_places (df : list Labeled) : list nat :=
  map fst (filter (fun p => (is_hit (snd p) =? 1)%Z)
                  (combine (seq 0 (length df)) df)).

(** Sample data: the timeline of outcomes 1 0 1 1 0 0 1 of the spec, one
    event a day; a season of [n] singles of player 12, one a day; and a table
    of two rows of one window size with the same [rolling_avg]. *)
Definition sample_events : list Event :=
  map (fun c => mkEvent (fst c) 7 (Some (snd c)))
      [(1, "single"); (2, "field_out"); (3, "double"); (4, "home_run");
       (5, "strikeout"); (6, "walk"); (7, "triple")]%Z%string.

Definition sample_timeline : list Labeled := get_pa_outcomes sample_events.

Definition season (n : nat) : list Event :=
  map (fun i => mkEvent (Z.of_nat i) 12 (Some "single"%string)) (seq 0 n).


(** ** The reducer

    Correlations are binary64 floats, as in the program.  [Series.corr]
    turns both columns into float64 arrays with NaN for a missing cell,
    keeps the rows on which neither is NaN and hands them to
    [np.corrcoef], whose steps on the two columns are those of [cov] and
    [corrcoef] below.  Every operation is the IEEE 754 one of [PrimFloat];
    a sum is accumulated from 0 in row order.  numpy adds the same terms;
    on long columns its reductions may associate the additions in another
    order (in blocks for the mean, as the BLAS kernel does for the
    products), which the model does not follow. *)

Local Open Scope float_scope.

(** An integer as a float64 (exact up to 2^53 in absolute value). *)
Definition float_of_int (z : Z) : float :=
  match z with
  | Z0 => 0
  | Zpos _ => of_uint63 (Uint63.of_Z z)
  | Zneg p => - of_uint63 (Uint63.of_Z (Zpos p))
  end.

Definition fsum (l : list float) : float := fold_left add l 0.

(** [X.mean(axis=1)] of [np.average]. *)
Definition fmean (l : list float) : float :=
  fsum l / float_of_int (Z.of_nat (length l)).

(** [X -= avg]. *)
Definition demean (l : list float) : list float :=
  map (fun x => x - fmean l) l.

Definition dot (a b : list float) : float :=
  fsum (map (fun p => fst p * snd p) (combine a b)).

(** [fact = X.shape[1] - ddof] with [ddof = 1], replaced by [0.0] when it
    is not positive. *)
Definition fact (n : nat) : float :=
  if (n <=? 1)%nat then 0 else float_of_int (Z.of_nat (n - 1)).

(** An entry of [np.cov]: the product of the centred rows, scaled by
    [np.true_divide(1, fact)], which is [inf] for [fact = 0.0]. *)
Definition cov (a b : list float) : float :=
  dot (demean a) (demean b) * (1 / fact (length a)).

(** [np.clip], which leaves NaN as it is. *)
Definition clip (lo hi x : float) : float :=
  if is_nan x then x else if x <? lo then lo else if hi <? x then hi else x.

(** Entry [0, 1] of [np.corrcoef(a, b)]: [c /= stddev[:, None]],
    [c /= stddev[None, :]], then the clip to [[-1, 1]]. *)
Definition corrcoef (a b : list float) : float :=
  let c := cov a b in
  let stddev_a := sqrt (cov a a) in
  let stddev_b := sqrt (cov b b) in
  clip (-1) 1 (c / stddev_a / stddev_b).

Definition notna (x : float) : bool := negb (is_nan x).

(** The rows on which both columns have a value. *)
Fixpoint valid_pairs (a b : list float) : list (float * float) :=
  match a, b with
  | x :: a', y :: b' =>
      if notna x && notna y then (x, y) :: valid_pairs a' b'
      else valid_pairs a' b'
  | _, _ => []
  end.

(** [Series.corr(other)] with its defaults (Pearson, [min_periods = 1]). *)
Definition series_corr (a b : list float) : float :=
  if (length a =? 0)%nat then nan
  else
    let v := valid_pairs a b in
    if (length v <? 1)%nat then nan
    else corrcoef (map fst v) (map snd v).

Record CorrelationRow := mkCorrelationRow {
  window : Z;
  avg_corr : float;
  obp_corr : float;
  slg_corr : float
}.

(** The float64 cells of the table.  A rolling mean is the quotient
    [sum_x / nobs] that pandas forms, rounded once; a missing cell is
    NaN. *)
Definition float_of_Q (c : option Q) : float :=
  match c with
  | Some q => float_of_int (Qnum q) / float_of_int (Zpos (Qden q))
  | None => nan
  end.

Definition float_of_Z (c : option Z) : float :=
  match c with
  | Some z => float_of_int z
  | None => nan
  end.

(** The body of the loop over the window groups. *)
Definition correlation_row (g : Z * list Row) : CorrelationRow :=
  let group := snd g in
  let corr_avg := series_corr (map (fun r => float_of_Q (rolling_avg r)) group)
                              (map (fun r => float_of_Z (next_is_hit r)) group) in
  let corr_obp := series_corr (map (fun r => float_of_Q (rolling_obp r)) group)
                              (map (fun r => float_of_Z (next_is_on_base r)) group) in
  let corr_slg := series_corr (map (fun r => float_of_Q (rolling_slg r)) group)
                              (map (fun r => float_of_Z (next_total_bases r)) group) in
  mkCorrelationRow (fst g) corr_avg corr_obp corr_slg.

Definition compute_correlations (df : list Row) : list CorrelationRow :=
  map correlation_row (groupby (fun r => Z.of_nat (rolling_window r)) df).








(** Two tables hold the rows of every window size in the same order. *)
Definition same_group_order (df1 df2 : list Row) : Prop :=
  forall w : Z,
    filter (fun r => (Z.of_nat (rolling_window r) =? w)%Z) df1 =
    filter (fun r => (Z.of_nat (rolling_window r) =? w)%Z) df2.

(** Five rows of window size 2: four after two outs and before an out,
    one after a hit in two and before a hit.  Three rows of window size 10
    whose [rolling_avg] is the same on every row. *)
Definition streak_rows : list Row :=
  [ mkRow 7 1 2 (Some (0 # 2)) (Some (0 # 2)) (Some (0 # 2))
      (Some 0%Z) (Some 0%Z) (Some 0%Z);
    mkRow 7 2 2 (Some (0 # 2)) (Some (0 # 2)) (Some (0 # 2))
      (Some 0%Z) (Some 0%Z) (Some 0%Z);
    mkRow 7 3 2 (Some (0 # 2)) (Some (0 # 2)) (Some (0 # 2))
      (Some 0%Z) (Some 0%Z) (Some 0%Z);
    mkRow 7 4 2 (Some (0 # 2)) (Some (0 # 2)) (Some (0 # 2))
      (Some 0%Z) (Some 0%Z) (Some 0%Z);
    mkRow 7 5 2 (Some (1 # 2)) (Some (1 # 2)) (Some (1 # 2))
      (Some 1%Z) (Some 1%Z) (Some 1%Z) ].

Definition constant_rows : list Row :=
  [ mkRow 7 10 10 (Some (1 # 10)) (Some (2 # 10)) (Some (1 # 10))
      (Some 0%Z) (Some 0%Z) (Some 0%Z);
    mkRow 7 11 10 (Some (1 # 10)) (Some (2 # 10)) (Some (1 # 10))
      (Some 1%Z) (Some 1%Z) (Some 1%Z);
    mkRow 7 12 10 (Some (1 # 10)) (Some (3 # 10)) (Some (2 # 10))
      (Some 0%Z) (Some 0%Z) (Some 0%Z) ].

Local Close Scope float_scope.


(** * The rest of the program *)

(** A row whose window size is one the generator uses and whose targets
    are the signals of one event. *)
Definition well_formed_row (r : Row) : Prop :=
  1 <= rolling_window r <= default_max_window
  /\ complete_row r = true
  /\ exists e : Event,
       next_is_hit r = Some (is_hit (label e))
       /\ next_is_on_base r = Some (is_on_base (label e))
       /\ next_total_bases r = Some (total_bases (label e)).


(** ** Presentation *)

(** What [make_plot] draws and where it saves it: the rows whose three
    series are plotted against [window], the limits of the x axis, the
    title and the file. *)
Record Plot := mkPlot {
  plot_rows : list CorrelationRow;
  xlim : Z * Z;
  title : string;
  filename : string
}.

Definition make_plot (df_slice : list CorrelationRow) (xlim : Z * Z)
    (title filename : string) : Plot :=
  mkPlot df_slice xlim title filename.

(** What ends [plot_correlation_graphs] early: the [KeyError] of a column
    that the frame does not have. *)
Inductive plot_error : Type :=
| KeyError (key : string).

(** [plot_correlation_graphs]: the full table and its two sub-ranges.  A
    table with no row is [pd.DataFrame([])], a frame without columns, and
    the first [df_slice['window']] of [make_plot] raises [KeyError] before
    anything is saved.  A table with rows has its four columns, and so has
    either of its slices, also when the slice has no row. *)
Definition plot_correlation_graphs (df : list CorrelationRow)
    : plot_error + list Plot :=
  match df with
  | [] => inl (KeyError "window")
  | _ :: _ =>
      inr [ make_plot df (1, 250)%Z
              "Correlation vs Rolling Window (1–250)" "correlation_1_250.png";
            make_plot (filter (fun r => (window r <=? 10)%Z) df) (1, 10)%Z
              "Correlation vs Rolling Window (1–10)" "correlation_1_10.png";
            make_plot (filter (fun r => (window r >=? 11)%Z) df) (11, 250)%Z
              "Correlation vs Rolling Window (11–250)"
              "correlation_11_250.png" ]
  end.

(** The rows of a plot lie within the limits of its x axis. *)
Definition within_xlim (p : Plot) : Prop :=
  Forall (fun r => (fst (xlim p) <= window r <= snd (xlim p))%Z) (plot_rows p).


(** ** Acquisition

    [fetch_statcast_data] talks to two things outside the program: the
    Statcast service and the output file.  The service is a parameter
    [statcast start_dt end_dt n]: its answer to the [n]-th request for the
    range, which either raises or returns a frame or [None].  (The function
    requests every range in one run of attempts, so [n] is the attempt
    number.)  The file is [None] while it does not exist and otherwise the
    rows it holds; a frame is the list of its rows, reduced to the columns
    the pipeline reads.  Every call of the service, every [time.sleep] and
    every [to_csv] is recorded in a trace.  Printing is not modelled, and
    [to_csv] is taken not to raise. *)

Definition date : Type := (Z * Z * Z)%type.

Inductive response : Type :=
| Raises
| Returns (df : option (list Event)).

Inductive action : Type :=
| Statcast (start_dt end_dt : date)
| Sleep (seconds : nat)
| ToCsv (append header : bool) (rows : list Event).

Inductive fetch_error : Type :=
| RuntimeError (msg : string)
| FileNotFoundError.

Record fetch_state := mkFetchState {
  header_written : bool;
  output_file : option (list Event);
  trace : list action
}.

Definition log (a : action) (st : fetch_state) : fetch_state :=
  mkFetchState (header_written st) (output_file st) (trace st ++ [a]).

(** [df.to_csv(output_file, mode, header, index=False)]: mode ['w'] replaces
    the file, mode ['a'] adds the rows to it. *)
Definition to_csv (df : list Event) (append header : bool)
    (st : fetch_state) : fetch_state :=
  let old := match output_file st with Some rows => rows | None => [] end in
  mkFetchState (header_written st)
               (Some (if append then old ++ df else df))
               (trace st ++ [ToCsv append header df]).

Definition set_header_written (st : fetch_state) : fetch_state :=
  mkFetchState true (output_file st) (trace st).

(** [range(a, b)] over the integers. *)
Definition zrange (a b : Z) : list Z :=
  map (fun i => (a + Z.of_nat i)%Z) (seq 0 (Z.to_nat (b - a))).

(** [pd.read_csv(output_file)]. *)
Definition read_csv (file : option (list Event)) : fetch_error + list Event :=
  match file with
  | Some rows => inr rows
  | None => inl FileNotFoundError
  end.

Section Fetch.

Variable statcast : date -> date -> nat -> response.
Variable max_retries : nat.

(** The loop [for attempt in range(1, max_retries + 1)], from [attempt] on,
    with [n] attempts left.  A call that returns ends the loop ([break]),
    after its frame is written when it has rows; a call that raises is
    followed by a sleep unless it was the last attempt. *)
Fixpoint attempt_loop (start_dt end_dt : date) (n attempt : nat)
    (st : fetch_state) : fetch_state :=
  match n with
  | O => st
  | S n' =>
      let st := log (Statcast start_dt end_dt) st in
      match statcast start_dt end_dt attempt with
      | Returns df =>
          match df with
          | Some ((_ :: _) as rows) =>
              set_header_written
                (to_csv rows (header_written st) (negb (header_written st)) st)
          | _ => st
          end
      | Raises =>
          let st := if attempt <? max_retries then log (Sleep 5) st else st in
          attempt_loop start_dt end_dt n' (S attempt) st
      end
  end.

(** The body of the loop over the months, and the two outer loops. *)
Definition fetch_month (year : Z) (st : fetch_state) (month : Z)
    : fetch_state :=
  attempt_loop (year, month, 1%Z) (year, month, 28%Z) max_retries 1 st.

Definition fetch_year (st : fetch_state) (year : Z) : fetch_state :=
  fold_left (fetch_month year) (zrange 3 11) st.

Definition fetch_statcast_data (start_year end_year : Z)
    (file : option (list Event)) : (fetch_error + list Event) * fetch_state :=
  let st := mkFetchState false file [] in
  match file with
  | Some _ => (read_csv file, st)
  | None =>
      let st := fold_left fetch_year (zrange start_year (end_year + 1)) st in
      if negb (header_written st)
      then (inl (RuntimeError "No data was fetched. Exiting."), st)
      else (read_csv (output_file st), st)
  end.

(** *** What the loops amount to *)

(** The ranges requested, in the order of the loops. *)
Definition chunks (start_year end_year : Z) : list (date * date) :=
  flat_map (fun year =>
              map (fun month => ((year, month, 1%Z), (year, month, 28%Z)))
                  (zrange 3 11))
           (zrange start_year (end_year + 1)).

Definition returns (r : response) : bool :=
  match r with Returns _ => true | Raises => false end.

(** The first attempt for a range, among [attempt .. attempt + n - 1], that
    does not raise. *)
Definition settled (c : date * date) (n attempt : nat) : option nat :=
  find (fun i => returns (statcast (fst c) (snd c) i)) (seq attempt n).

(** The rows a range contributes: those of its first attempt that does not
    raise, if there is one within [max_retries] attempts. *)
Definition chunk_frame (c : date * date) : list Event :=
  match settled c max_retries 1 with
  | Some i =>
      match statcast (fst c) (snd c) i with
      | Returns (Some rows) => rows
      | _ => []
      end
  | None => []
  end.

(** The number of requests made for a range. *)
Definition chunk_calls (c : date * date) : nat :=
  match settled c max_retries 1 with
  | Some i => i
  | None => max_retries
  end.

(** The frame and the number of calls of the attempts
    [attempt .. attempt + n - 1] for a range. *)
Definition frame_from (c : date * date) (n attempt : nat) : list Event :=
  match settled c n attempt with
  | Some i =>
      match statcast (fst c) (snd c) i with
      | Returns (Some rows) => rows
      | _ => []
      end
  | None => []
  end.

Definition calls_from (c : date * date) (n attempt : nat) : nat :=
  match settled c n attempt with
  | Some i => i + 1 - attempt
  | None => n
  end.

(** The state after all the loops, started on a missing file. *)
Definition fetched (start_year end_year : Z) : fetch_state :=
  fold_left fetch_year
            (zrange start_year (end_year + 1))
            (mkFetchState false None []).

End Fetch.

Definition is_call (a : action) : bool :=
  match a with Statcast _ _ => true | _ => false end.

Definition is_sleep (a : action) : bool :=
  match a with Sleep _ => true | _ => false end.

Definition is_write (a : action) : bool :=
  match a with ToCsv _ _ _ => true | _ => false end.

Definition nonempty (A : Type) (l : list A) : bool :=
  match l with [] => false | _ => true end.

Definition is_call_or_sleep (a : action) : bool := is_call a || is_sleep a.

(** The requests and sleeps of [k] attempts for one range: the requests,
    with one sleep of 5 seconds between each two of them. *)
Definition attempts_pattern (c : date * date) (k : nat) : list action :=
  match k with
  | O => []
  | S k' =>
      Statcast (fst c) (snd c)
      :: concat (repeat [Sleep 5; Statcast (fst c) (snd c)] k')
  end.

(** The [to_csv] calls that write the frames [fs] one after the other: the
    first creates the file with its header, the others append. *)
Definition write_actions (fs : list (list Event)) : list action :=
  match fs with
  | [] => []
  | f :: fs' => ToCsv false true f :: map (ToCsv true false) fs'
  end.

(** The frame of a range, listed when it has rows. *)
Definition keep (f : list Event) : list (list Event) :=
  if nonempty f then [f] else [].

(** The state after the frames [fs], all with rows, were written. *)
Definition written (st : fetch_state) (fs : list (list Event)) : Prop :=
  header_written st = nonempty fs
  /\ output_file st = (if nonempty fs then Some (concat fs) else None)
  /\ filter is_write (trace st) = write_actions fs.

(** ** The pipeline *)

Inductive exception : Type :=
| FetchFailed (e : fetch_error)
| ProcessFailed (e : error)
| PlotFailed (e : plot_error).

(** [main], with the defaults of [fetch_statcast_data].  The result is the
    list of plots saved, or the exception that ended the run. *)
Definition main {SV : SortValues} (statcast : date -> date -> nat -> response)
    (file : option (list Event)) : (exception + list Plot) * fetch_state :=
  let (res, st) := fetch_statcast_data statcast 3 2013 2023 file in
  match res with
  | inl e => (inl (FetchFailed e), st)
  | inr data =>
      match process_all_players data with
      | inl e => (inl (ProcessFailed e), st)
      | inr rolling_df =>
          let corr_df := compute_correlations rolling_df in
          match plot_correlation_graphs corr_df with
          | inl e => (inl (PlotFailed e), st)
          | inr plots => (inr plots, st)
          end
      end
  end.

(** A service for the samples: March 2013 raises twice and then returns the
    sample events, April returns an empty frame, May always raises, every
    other month returns [None]. *)
Definition sample_service (start_dt end_dt : date) (n : nat) : response :=
  match start_dt with
  | (year, month, _) =>
      if (month =? 3)%Z then
        if n <? 3 then Raises else Returns (Some sample_events)
      else if (month =? 4)%Z then Returns (Some [])
      else if (month =? 5)%Z then Raises
      else Returns None
  end.


(** * Properties *)

(** ** The outcome labeler *)

Section LabelerFacts.

Local Open Scope string_scope.
Local Open Scope Z_scope.

Lemma isin_spec (values : list string) (c : option string) :
  isin values c = true <-> exists s, c = Some s /\ In s values.
Proof.
  destruct c as [s|]; simpl.
  - rewrite existsb_exists. split.
    + intros (x & Hin & Heq). apply String.eqb_eq in Heq. subst x.
      exists s. auto.
    + intros (x & Heq & Hin). injection Heq as <-.
      exists s. split; [assumption | apply String.eqb_refl].
  - split; [discriminate | intros (s & Heq & _); discriminate].
Qed.

Lemma isin_hit_events (c : option string) :
  isin hit_events c = true <-> hit_category c.
Proof.
  rewrite isin_spec. unfold hit_category, hit_events. split.
  - intros (s & -> & Hin). simpl in Hin.
    repeat (destruct Hin as [<- | Hin]; [tauto |]). contradiction.
  - intros H. repeat (destruct H as [-> | H]); try subst c;
      (eexists; split; [reflexivity | simpl; tauto]).
Qed.

Lemma isin_on_base_events (c : option string) :
  isin on_base_events c = true <-> on_base_category c.
Proof.
  rewrite isin_spec. unfold on_base_category, hit_category, on_base_events.
  split.
  - intros (s & -> & Hin). simpl in Hin.
    repeat (destruct Hin as [<- | Hin]; [tauto |]). contradiction.
  - intros H.
    assert (exists s, c = Some s /\
              (s = "single" \/ s = "double" \/ s = "triple" \/ s = "home_run"
               \/ s = "walk" \/ s = "hit_by_pitch")) as (s & -> & Hs).
    { destruct H as [[H | [H | [H | H]]] | [H | H]]; subst c;
        eexists; (split; [reflexivity | tauto]). }
    exists s. split; [reflexivity |]. simpl.
    repeat (destruct Hs as [-> | Hs]; [tauto |]). subst s. tauto.
Qed.

Lemma astype_int_one (b : bool) : astype_int b = 1 <-> b = true.
Proof. destruct b; simpl; split; congruence. Qed.

Lemma astype_int_zero (b : bool) : astype_int b = 0 <-> b <> true.
Proof. destruct b; simpl; split; congruence. Qed.

(** What the base-count dictionary stores, key by key. *)
Lemma total_bases_cases (e : Event) :
  (events e = Some "single" /\ total_bases (label e) = 1)
  \/ (events e = Some "double" /\ total_bases (label e) = 2)
  \/ (events e = Some "triple" /\ total_bases (label e) = 3)
  \/ (events e = Some "home_run" /\ total_bases (label e) = 4)
  \/ (~ hit_category (events e) /\ total_bases (label e) = 0).
Proof.
  unfold hit_category. destruct e as [d b [s|]]; simpl.
  - destruct (String.eqb_spec s "single") as [-> | H1]; [tauto |].
    destruct (String.eqb_spec s "double") as [-> | H2]; [tauto |].
    destruct (String.eqb_spec s "triple") as [-> | H3]; [tauto |].
    destruct (String.eqb_spec s "home_run") as [-> | H4]; [tauto |].
    right; right; right; right. split; [| reflexivity].
    intros [H | [H | [H | H]]]; congruence.
  - right; right; right; right. split; [| reflexivity].
    intros [H | [H | [H | H]]]; discriminate.
Qed.

Lemma is_hit_label (e : Event) :
  (is_hit (label e) = 1 <-> hit_category (events e))
  /\ (is_hit (label e) = 0 <-> ~ hit_category (events e)).
Proof.
  unfold label; simpl. rewrite astype_int_one, astype_int_zero.
  rewrite isin_hit_events. tauto.
Qed.

Lemma is_on_base_label (e : Event) :
  (is_on_base (label e) = 1 <-> on_base_category (events e))
  /\ (is_on_base (label e) = 0 <-> ~ on_base_category (events e)).
Proof.
  unfold label; simpl. rewrite astype_int_one, astype_int_zero.
  rewrite isin_on_base_events. tauto.
Qed.

Lemma label_follows_table (e : Event) : follows_table e (label e).
Proof.
  destruct (is_hit_label e) as [Hh1 Hh0].
  destruct (is_on_base_label e) as [Ho1 Ho0].
  unfold follows_table.
  split; [reflexivity |].
  repeat (split; [assumption |]).
  repeat split; try (intros H; unfold label; simpl; rewrite H; reflexivity).
  intros Hn. destruct (total_bases_cases e) as [H | [H | [H | [H | H]]]];
    destruct H as [Hc Ht]; try exact Ht;
    exfalso; apply Hn; unfold hit_category; tauto.
Qed.

(** C2. The labeler is total and follows the documented table: whatever
    the frame, [get_pa_outcomes] returns one row per event, in the order of
    the events, and the row of an event is that event with [is_hit] 1
    exactly on single, double, triple and home_run and 0 otherwise,
    [is_on_base] 1 exactly on those and on walk and hit_by_pitch and 0
    otherwise, and [total_bases] 1, 2, 3, 4 on single, double, triple,
    home_run and 0 on every other or absent category. *)
Theorem C2_labeling_total (df : list Event) :
  length (get_pa_outcomes df) = length df
  /\ forall i e,
       nth_error df i = Some e ->
       exists r,
         nth_error (get_pa_outcomes df) i = Some r /\ follows_table e r.
Proof.
  unfold get_pa_outcomes. split; [apply length_map |].
  intros i e He. exists (label e). split.
  - rewrite nth_error_map, He. reflexivity.
  - apply label_follows_table.
Qed.

(** The labeler on a frame of a home run, a walk and a pitch without
    event: the row of the walk. *)
Lemma C2_labeling_total_witness :
  exists r,
    nth_error (get_pa_outcomes [mkEvent 0 7 (Some "home_run");
                                mkEvent 0 7 (Some "walk");
                                mkEvent 0 7 None]) 1 = Some r
    /\ follows_table (mkEvent 0 7 (Some "walk")) r.
Proof.
  apply (proj2 (C2_labeling_total [mkEvent 0 7 (Some "home_run");
                                   mkEvent 0 7 (Some "walk");
                                   mkEvent 0 7 None]) 1%nat).
  reflexivity.
Defined.

Example get_pa_outcomes_sample :
  get_pa_outcomes [mkEvent 0 7 (Some "home_run"); mkEvent 0 7 (Some "walk");
                   mkEvent 0 7 None] =
  [mkLabeled (mkEvent 0 7 (Some "home_run")) 1 1 4;
   mkLabeled (mkEvent 0 7 (Some "walk")) 0 1 0;
   mkLabeled (mkEvent 0 7 None) 0 0 0].
Proof. reflexivity. Qed.

(** C3. On every labeled event a hit reaches base, and a positive base
    count is a hit. *)
Theorem C3_signal_invariant (e : Event) :
  (is_hit (label e) = 1 -> is_on_base (label e) = 1)
  /\ (0 < total_bases (label e) -> is_hit (label e) = 1).
Proof.
  destruct (is_hit_label e) as [Hh _].
  destruct (is_on_base_label e) as [Ho _].
  split.
  - intros H. apply Ho. left. apply Hh. exact H.
  - intros H. apply Hh.
    destruct (total_bases_cases e) as [C | [C | [C | [C | C]]]];
      destruct C as [Hc Ht]; unfold hit_category; try tauto.
    lia.
Qed.

Lemma C3_signal_invariant_witness :
  is_on_base (label (mkEvent 3 11 (Some "triple"))) = 1
  /\ is_hit (label (mkEvent 3 11 (Some "triple"))) = 1.
Proof.
  split.
  - apply (proj1 (C3_signal_invariant (mkEvent 3 11 (Some "triple")))).
    reflexivity.
  - apply (proj2 (C3_signal_invariant (mkEvent 3 11 (Some "triple")))).
    reflexivity.
Defined.

End LabelerFacts.

(** ** The sliding mean computes the trailing mean *)

Section RollingFacts.

Local Open Scope nat_scope.

Lemma slice_length (A : Type) (values : list A) (a b : nat) :
  b <= length values -> length (slice values a b) = b - a.
Proof.
  intros Hb. unfold slice. rewrite length_firstn, length_skipn. lia.
Qed.

Lemma slice_split (A : Type) (values : list A) (a b c : nat) :
  a <= b -> b <= c ->
  slice values a c = slice values a b ++ slice values b c.
Proof.
  intros Hab Hbc. unfold slice.
  replace (c - a) with ((b - a) + (c - b)) by lia.
  replace (skipn b values) with (skipn (b - a) (skipn a values)).
  - generalize (skipn a values) as l. generalize (b - a) as m.
    induction m as [| m IH]; intros l; simpl.
    + reflexivity.
    + destruct l as [| x l]; simpl.
      * rewrite !firstn_nil. reflexivity.
      * rewrite IH. reflexivity.
  - rewrite skipn_skipn. f_equal. lia.
Qed.

Lemma slice_empty (A : Type) (values : list A) (a : nat) :
  slice values a a = [].
Proof. unfold slice. rewrite Nat.sub_diag. reflexivity. Qed.

Lemma slice_nth (values : list Z) (a n : nat) :
  a + n <= length values ->
  slice values a (a + n) = map (fun j => nth j values 0%Z) (seq a n).
Proof.
  intros H. apply nth_error_ext. intros k. unfold slice.
  rewrite nth_error_firstn, nth_error_skipn, nth_error_map, nth_error_seq.
  replace (a + n - a) with n by lia.
  destruct (k <? n) eqn:Hk; [| reflexivity].
  apply Nat.ltb_lt in Hk. simpl.
  apply nth_error_nth'. lia.
Qed.

Lemma zsum_app (l1 l2 : list Z) : zsum (l1 ++ l2) = (zsum l1 + zsum l2)%Z.
Proof.
  induction l1 as [| x l1 IH]; simpl; [reflexivity |].
  rewrite IH. lia.
Qed.

Lemma fold_add_mean (l : list Z) (st : Z * nat) :
  fold_left add_mean l st = ((fst st + zsum l)%Z, snd st + length l).
Proof.
  revert st. induction l as [| x l IH]; intros [s n]; simpl.
  - f_equal; lia.
  - rewrite IH. simpl. f_equal; lia.
Qed.

Lemma fold_remove_mean (l : list Z) (st : Z * nat) :
  fold_left remove_mean l st = ((fst st - zsum l)%Z, snd st - length l).
Proof.
  revert st. induction l as [| x l IH]; intros [s n]; simpl.
  - f_equal; lia.
  - rewrite IH. simpl. f_equal; lia.
Qed.

Lemma roll_mean_loop_spec (values : list Z) (window minp n : nat) :
  forall i st,
    i + n <= length values ->
    i = 0 \/ st = window_state values window (i - 1) ->
    roll_mean_loop values window minp n i st =
    map (fun j => calc_mean minp (window_state values window j)) (seq i n).
Proof.
  induction n as [| n IH]; intros i st Hlen Hst; simpl; [reflexivity |].
  set (st' := if (i =? 0) || (win_end (i - 1) <=? win_start window i)
              then _ else _).
  assert (Hst' : st' = window_state values window i).
  { unfold st', window_state.
    destruct ((i =? 0) || (win_end (i - 1) <=? win_start window i)) eqn:Hc.
    - rewrite fold_add_mean; simpl. f_equal.
      rewrite slice_length by (unfold win_end; lia). reflexivity.
    - apply orb_false_elim in Hc. destruct Hc as [Hi Hw].
      apply Nat.eqb_neq in Hi. apply Nat.leb_gt in Hw.
      destruct Hst as [Hst | Hst]; [contradiction |]. subst st.
      unfold window_state, win_start, win_end in *.
      rewrite fold_add_mean, fold_remove_mean; simpl.
      rewrite !slice_length by lia.
      rewrite (slice_split values (a := i - 1 + 1 - window)
                 (b := i + 1 - window) (c := i - 1 + 1)) by lia.
      rewrite (slice_split values (a := i + 1 - window)
                 (b := i - 1 + 1) (c := i + 1)) by lia.
      rewrite !zsum_app. f_equal; lia. }
  rewrite Hst'. f_equal.
  apply IH; [lia |]. right. f_equal. lia.
Qed.

Lemma rolling_mean_spec (window : nat) (values : list Z) :
  rolling_mean window values =
  map (fun j => calc_mean window (window_state values window j))
      (seq 0 (length values)).
Proof.
  unfold rolling_mean. apply roll_mean_loop_spec; [lia | left; reflexivity].
Qed.

Lemma rolling_mean_length (window : nat) (values : list Z) :
  length (rolling_mean window values) = length values.
Proof. rewrite rolling_mean_spec, length_map, length_seq. reflexivity. Qed.

(** The cell of row [i]: the trailing mean once [window] rows are
    available, missing before. *)
Lemma rolling_mean_nth (window : nat) (values : list Z) (i : nat) :
  1 <= window -> i < length values ->
  nth_error (rolling_mean window values) i =
  Some (if window - 1 <=? i then Some (trailing_mean values window i) else None).
Proof.
  intros HW Hi. rewrite rolling_mean_spec, nth_error_map, nth_error_seq.
  apply Nat.ltb_lt in Hi as Hi'. rewrite Hi'. simpl. f_equal.
  unfold calc_mean, window_state, win_start, win_end; simpl.
  destruct (window - 1 <=? i) eqn:Hw.
  - apply Nat.leb_le in Hw.
    replace (i + 1 - (i + 1 - window)) with window by lia.
    rewrite Nat.leb_refl. replace (0 <? window) with true
      by (symmetry; apply Nat.ltb_lt; lia).
    simpl. unfold trailing_mean.
    replace (i + 1) with ((i + 1 - window) + window) at 2 by lia.
    rewrite slice_nth by lia. reflexivity.
  - apply Nat.leb_gt in Hw.
    replace (window <=? i + 1 - (i + 1 - window)) with false
      by (symmetry; apply Nat.leb_gt; lia).
    reflexivity.
Qed.

Lemma shift_m1_length (values : list Z) :
  length (shift_m1 values) = length values.
Proof.
  destruct values as [| x l]; simpl; [reflexivity |].
  rewrite length_app, length_map. simpl. lia.
Qed.

Lemma shift_m1_nth (values : list Z) (i : nat) :
  i < length values ->
  nth_error (shift_m1 values) i =
  Some (if i + 1 <? length values then Some (nth (i + 1) values 0%Z) else None).
Proof.
  destruct values as [| x l]; simpl; [lia |]. intros Hi.
  destruct (i + 1 <? S (length l)) eqn:Hc.
  - apply Nat.ltb_lt in Hc.
    rewrite nth_error_app1 by (rewrite length_map; lia).
    rewrite nth_error_map.
    replace (i + 1) with (S i) by lia. simpl.
    rewrite (nth_error_nth' l 0%Z) by lia. reflexivity.
  - apply Nat.ltb_ge in Hc.
    rewrite nth_error_app2 by (rewrite length_map; lia).
    rewrite length_map. replace (i - length l) with 0 by lia. reflexivity.
Qed.

End RollingFacts.

(** ** A stable sort meets the interface *)

Section SortFacts.

Local Open Scope Z_scope.

Lemma insert_by_date_perm (x : Labeled) (l : list Labeled) :
  Permutation (insert_by_date x l) (x :: l).
Proof.
  induction l as [| y l IH]; simpl; [reflexivity |].
  destruct (game_date (ev x) <=? game_date (ev y)); [reflexivity |].
  rewrite IH. apply perm_swap.
Qed.

Lemma isort_by_date_perm (l : list Labeled) :
  Permutation (isort_by_date l) l.
Proof.
  induction l as [| x l IH]; simpl; [reflexivity |].
  rewrite insert_by_date_perm. constructor. exact IH.
Qed.

Lemma insert_by_date_sorted (x : Labeled) (l : list Labeled) :
  Sorted date_le l -> Sorted date_le (insert_by_date x l).
Proof.
  induction 1 as [| y l Hs IH Hhd]; simpl.
  - repeat constructor.
  - destruct (game_date (ev x) <=? game_date (ev y)) eqn:Hc.
    + apply Z.leb_le in Hc. constructor; [constructor; assumption |].
      constructor. exact Hc.
    + apply Z.leb_gt in Hc. constructor; [exact IH |].
      destruct l as [| z l]; simpl.
      * constructor. unfold date_le. lia.
      * destruct (game_date (ev x) <=? game_date (ev z)).
        -- constructor. unfold date_le. lia.
        -- inversion Hhd; subst. constructor. assumption.
Qed.

Lemma isort_by_date_sorted (l : list Labeled) :
  Sorted date_le (isort_by_date l).
Proof.
  induction l as [| x l IH]; simpl; [constructor |].
  apply insert_by_date_sorted. exact IH.
Qed.

(** Insertion sort keeps the rows of one date in frame order. *)
Lemma insert_by_date_same_date (x : Labeled) (l : list Labeled) (d : Z) :
  filter (fun r => game_date (ev r) =? d) (insert_by_date x l) =
  filter (fun r => game_date (ev r) =? d) (x :: l).
Proof.
  induction l as [| y l IH]; [reflexivity |].
  cbn [insert_by_date].
  destruct (game_date (ev x) <=? game_date (ev y)) eqn:Hc; [reflexivity |].
  apply Z.leb_gt in Hc.
  cbn [filter] in *. rewrite IH.
  destruct (game_date (ev x) =? d) eqn:Hx;
    destruct (game_date (ev y) =? d) eqn:Hy; try reflexivity.
  apply Z.eqb_eq in Hx, Hy. lia.
Qed.

Lemma isort_by_date_stable (l : list Labeled) (d : Z) :
  filter (fun r => game_date (ev r) =? d) (isort_by_date l) =
  filter (fun r => game_date (ev r) =? d) l.
Proof.
  induction l as [| x l IH]; [reflexivity |].
  cbn [isort_by_date fold_right]. fold (isort_by_date l).
  rewrite insert_by_date_same_date. cbn [filter]. rewrite IH. reflexivity.
Qed.

Lemma date_le_trans : Relations_1.Transitive date_le.
Proof. intros a b c. unfold date_le. lia. Qed.

(** With pairwise distinct dates there is one ascending arrangement. *)
Lemma sorted_perm_unique (l1 l2 : list Labeled) :
  Sorted date_le l1 -> Sorted date_le l2 -> Permutation l1 l2 ->
  NoDup (map (fun r => game_date (ev r)) l1) -> l1 = l2.
Proof.
  revert l2. induction l1 as [| a l1 IH]; intros l2 H1 H2 HP Hnd.
  - apply Permutation_nil in HP. congruence.
  - destruct l2 as [| b l2];
      [apply Permutation_sym, Permutation_nil in HP; discriminate |].
    apply Sorted_StronglySorted in H1; [| exact date_le_trans].
    apply Sorted_StronglySorted in H2; [| exact date_le_trans].
    inversion H1 as [| ? ? Hs1 Ha]; subst.
    inversion H2 as [| ? ? Hs2 Hb]; subst.
    inversion Hnd as [| ? ? Hna Hnd']; subst.
    rewrite Forall_forall in Ha, Hb.
    assert (Hab : a = b).
    { assert (Ha2 : In a (b :: l2))
        by (apply (Permutation_in _ HP); left; reflexivity).
      assert (Hb1 : In b (a :: l1))
        by (apply (Permutation_in _ (Permutation_sym HP)); left; reflexivity).
      destruct Ha2 as [E | Ha2]; [congruence |].
      destruct Hb1 as [E | Hb1]; [congruence |].
      exfalso. apply Hna.
      specialize (Ha _ Hb1). specialize (Hb _ Ha2). unfold date_le in Ha, Hb.
      replace (game_date (ev a)) with (game_date (ev b)) by lia.
      apply in_map_iff. exists b. auto. }
    subst b. f_equal. apply IH.
    + apply StronglySorted_Sorted. exact Hs1.
    + apply StronglySorted_Sorted. exact Hs2.
    + eapply Permutation_cons_inv. exact HP.
    + exact Hnd'.
Qed.

Lemma timeline_unique (SV1 SV2 : SortValues) (df : list Labeled) :
  NoDup (map (fun r => game_date (ev r)) df) ->
  @timeline SV1 df = @timeline SV2 df.
Proof.
  intros Hnd. unfold timeline. apply sorted_perm_unique.
  - apply sort_values_sorted.
  - apply sort_values_sorted.
  - rewrite (@sort_values_perm SV1 df), (@sort_values_perm SV2 df).
    reflexivity.
  - eapply Permutation_NoDup; [| exact Hnd].
    apply Permutation_map, Permutation_sym, sort_values_perm.
Qed.

End SortFacts.

(** The stable sort, as [kind='stable'] would give it. *)
Definition stable_sort : SortValues :=
  {| sort_values := isort_by_date;
     sort_values_perm := isort_by_date_perm;
     sort_values_sorted := isort_by_date_sorted |}.

(** ** numpy's quicksort sorts *)

Section QuicksortFacts.

Local Open Scope nat_scope.

(** *** Rows of a frame by position *)

Lemma length_upd (i : nat) (x : Labeled) (a : list Labeled) :
  length (upd i x a) = length a.
Proof.
  revert i. induction a as [| y a IH]; intros [| i]; simpl; try reflexivity.
  rewrite IH. reflexivity.
Qed.

Lemma nth_error_upd_eq (i : nat) (x : Labeled) (a : list Labeled) :
  i < length a -> nth_error (upd i x a) i = Some x.
Proof.
  revert i. induction a as [| y a IH]; intros [| i] Hi; simpl in *;
    try lia; try reflexivity.
  apply IH. lia.
Qed.

Lemma nth_error_upd_neq (i k : nat) (x : Labeled) (a : list Labeled) :
  i <> k -> nth_error (upd i x a) k = nth_error a k.
Proof.
  revert i k. induction a as [| y a IH]; intros [| i] [| k] Hik; simpl;
    try reflexivity; try lia.
  apply IH. lia.
Qed.

Lemma upd_perm (i : nat) (x y : Labeled) (a : list Labeled) :
  nth_error a i = Some x -> Permutation (x :: upd i y a) (y :: a).
Proof.
  revert i. induction a as [| z a IH]; intros [| i] Hi; simpl in *;
    try discriminate.
  - injection Hi as ->. apply perm_swap.
  - rewrite perm_swap. rewrite (IH i Hi). apply perm_swap.
Qed.

Lemma length_swap (i j : nat) (a : list Labeled) :
  length (swap i j a) = length a.
Proof.
  unfold swap. destruct (nth_error a i); [| reflexivity].
  destruct (nth_error a j); [| reflexivity].
  rewrite !length_upd. reflexivity.
Qed.

Lemma swap_perm (i j : nat) (a : list Labeled) : Permutation (swap i j a) a.
Proof.
  unfold swap. destruct (nth_error a i) as [x |] eqn:Hi; [| reflexivity].
  destruct (nth_error a j) as [y |] eqn:Hj; [| reflexivity].
  apply Permutation_cons_inv with (a := x).
  assert (Hb : nth_error (upd j x a) i = Some x).
  { destruct (Nat.eq_dec j i) as [-> | Hne].
    - apply nth_error_upd_eq. apply nth_error_Some. congruence.
    - rewrite nth_error_upd_neq by exact Hne. exact Hi. }
  rewrite (@upd_perm i x y _ Hb). apply (@upd_perm j y x _ Hj).
Qed.

Lemma nth_error_swap (i j k : nat) (a : list Labeled) :
  i < length a -> j < length a ->
  nth_error (swap i j a) k =
  if k =? i then nth_error a j
  else if k =? j then nth_error a i else nth_error a k.
Proof.
  intros Hi Hj. unfold swap.
  destruct (nth_error a i) as [x |] eqn:Ei;
    [| apply nth_error_None in Ei; lia].
  destruct (nth_error a j) as [y |] eqn:Ej;
    [| apply nth_error_None in Ej; lia].
  destruct (Nat.eqb_spec k i) as [-> | Hki].
  - apply nth_error_upd_eq. rewrite length_upd. exact Hi.
  - rewrite nth_error_upd_neq by congruence.
    destruct (Nat.eqb_spec k j) as [-> | Hkj].
    + apply nth_error_upd_eq. exact Hj.
    + apply nth_error_upd_neq. congruence.
Qed.

Lemma date_at_swap (i j k : nat) (a : list Labeled) :
  i < length a -> j < length a ->
  date_at (swap i j a) k =
  if k =? i then date_at a j
  else if k =? j then date_at a i else date_at a k.
Proof.
  intros Hi Hj. unfold date_at. rewrite (@nth_error_swap i j k a Hi Hj).
  destruct (k =? i); [reflexivity |]. destruct (k =? j); reflexivity.
Qed.

(** *** The two scans *)

Lemma scan_up_spec (fuel : nat) (a : list Labeled) (vp : Z) (pi pj : nat) :
  let r := scan_up fuel a vp pi pj in
  pi <= r
  /\ (pi <= pj -> r <= pj)
  /\ (forall i, pi <= i < r -> (date_at a i < vp)%Z)
  /\ (pj - pi < fuel -> (vp <= date_at a r)%Z \/ pj <= r).
Proof.
  revert pi. induction fuel as [| f IH]; intros pi; cbn [scan_up].
  - repeat split; try lia.
  - destruct (Z.ltb_spec (date_at a pi) vp) as [Hd | Hd];
      destruct (Nat.ltb_spec pi pj) as [Hp | Hp]; cbn [andb];
      try (repeat split; intros; lia).
    destruct (IH (S pi)) as (H1 & H2 & H3 & H4).
    split; [lia |]. split; [intros _; apply H2; lia |]. split.
    + intros i Hi. destruct (Nat.eq_dec i pi) as [-> | Hne]; [exact Hd |].
      apply H3. lia.
    + intros Hf. apply H4. lia.
Qed.

Lemma scan_down_spec (fuel : nat) (a : list Labeled) (vp : Z) (pi pj : nat) :
  let r := scan_down fuel a vp pi pj in
  r <= pj
  /\ (pi <= pj -> pi <= r)
  /\ (forall j, r < j <= pj -> (vp < date_at a j)%Z)
  /\ (pj - pi < fuel -> (date_at a r <= vp)%Z \/ r <= pi).
Proof.
  revert pj. induction fuel as [| f IH]; intros pj; cbn [scan_down].
  - repeat split; try lia.
  - destruct (Z.ltb_spec vp (date_at a pj)) as [Hd | Hd];
      destruct (Nat.ltb_spec pi pj) as [Hp | Hp]; cbn [andb];
      try (repeat split; intros; lia).
    destruct (IH (pj - 1)) as (H1 & H2 & H3 & H4).
    split; [lia |]. split; [intros _; apply H2; lia |]. split.
    + intros j Hj. destruct (Nat.eq_dec j pj) as [-> | Hne]; [exact Hd |].
      apply H3. lia.
    + intros Hf. destruct H4 as [H4 | H4]; [lia | left; exact H4 | right; lia].
Qed.

(** *** The exchange loop *)

Definition exchange_inv (n : nat) (vp : Z) (a : list Labeled) (pi pj : nat)
    : Prop :=
  length a = n /\ pi < pj /\ pj <= n - 2 /\ 2 <= n
  /\ (forall i, i <= pi -> (date_at a i <= vp)%Z)
  /\ (forall j, pj <= j < n -> (vp <= date_at a j)%Z)
  /\ date_at a (n - 2) = vp.

Lemma exchange_spec (fuel n : nat) (vp : Z) (a : list Labeled) (pi pj : nat) :
  exchange_inv n vp a pi pj -> pj - pi <= fuel ->
  let a' := fst (exchange fuel a vp pi pj) in
  let p := snd (exchange fuel a vp pi pj) in
  Permutation a' a /\ length a' = n /\ pi < p <= pj
  /\ (forall i, i < p -> (date_at a' i <= vp)%Z)
  /\ (forall j, p <= j < n -> (vp <= date_at a' j)%Z)
  /\ date_at a' (n - 2) = vp.
Proof.
  revert a pi pj.
  induction fuel as [| f IH]; intros a pi pj Hinv Hf;
    destruct Hinv as (Hlen & Hlt & Hpj & Hn & Hlo & Hhi & Hpiv);
    [lia |].
  cbn [exchange].
  pose proof (scan_up_spec (length a) a vp (S pi) pj) as Hu.
  cbv zeta in Hu.
  set (pi' := scan_up (length a) a vp (S pi) pj) in *.
  destruct Hu as (Hu1 & Hu2 & Hu3 & Hu4).
  specialize (Hu2 ltac:(lia)).
  assert (HA : (vp <= date_at a pi')%Z).
  { destruct Hu4 as [H | H]; [lia | exact H |].
    apply Hhi. lia. }
  pose proof (scan_down_spec (length a) a vp pi' (pj - 1)) as Hd.
  cbv zeta in Hd.
  set (pj' := scan_down (length a) a vp pi' (pj - 1)) in *.
  destruct Hd as (Hd1 & Hd2 & Hd3 & Hd4).
  assert (Hlow : forall i, i < pi' -> (date_at a i <= vp)%Z).
  { intros i Hi. destruct (Nat.le_gt_cases i pi) as [H | H];
      [apply Hlo; exact H |].
    specialize (Hu3 i ltac:(lia)). lia. }
  assert (Hhigh : forall j, pj' < j < n -> (vp <= date_at a j)%Z).
  { intros j Hj. destruct (Nat.le_gt_cases pj j) as [H | H];
      [apply Hhi; lia |].
    specialize (Hd3 j ltac:(lia)). lia. }
  destruct (Nat.leb_spec pj' pi') as [Hbr | Hgo]; cbn [fst snd].
  - split; [reflexivity |]. split; [exact Hlen |]. split; [lia |].
    split; [exact Hlow |]. split; [| exact Hpiv].
    intros j Hj. destruct (Nat.eq_dec j pi') as [-> | Hne]; [exact HA |].
    apply Hhigh. lia.
  - assert (HB : (date_at a pj' <= vp)%Z).
    { destruct Hd4 as [H | H]; [lia | exact H | lia]. }
    assert (Hi' : pi' < length a) by lia.
    assert (Hj' : pj' < length a) by lia.
    assert (Hinv' : exchange_inv n vp (swap pi' pj' a) pi' pj').
    { unfold exchange_inv. rewrite length_swap.
      split; [exact Hlen |]. split; [exact Hgo |]. split; [lia |].
      split; [exact Hn |]. split; [| split].
      - intros i Hi. rewrite (@date_at_swap pi' pj' i a Hi' Hj').
        destruct (Nat.eqb_spec i pi') as [-> | Hne]; [exact HB |].
        destruct (Nat.eqb_spec i pj') as [-> | Hne']; [lia |].
        apply Hlow. lia.
      - intros j Hj. rewrite (@date_at_swap pi' pj' j a Hi' Hj').
        destruct (Nat.eqb_spec j pi') as [-> | Hne]; [lia |].
        destruct (Nat.eqb_spec j pj') as [-> | Hne']; [exact HA |].
        apply Hhigh. lia.
      - rewrite (@date_at_swap pi' pj' (n - 2) a Hi' Hj').
        destruct (Nat.eqb_spec (n - 2) pi') as [E | Hne]; [lia |].
        destruct (Nat.eqb_spec (n - 2) pj') as [E | Hne']; [lia |].
        exact Hpiv. }
    specialize (IH (swap pi' pj' a) pi' pj' Hinv' ltac:(lia)).
    cbv zeta in IH.
    destruct IH as (HP & HL & Hp & H1 & H2 & H3).
    split; [rewrite HP; apply swap_perm |]. split; [exact HL |].
    split; [lia |]. split; [exact H1 |]. split; [exact H2 | exact H3].
Qed.

(** *** One partition *)

(** A conditional swap of the median selection. *)
Lemma order_pair (i j : nat) (a : list Labeled) :
  i < length a -> j < length a -> i <> j ->
  let a' := if (date_at a i <? date_at a j)%Z then swap i j a else a in
  length a' = length a /\ Permutation a' a
  /\ date_at a' i = Z.max (date_at a i) (date_at a j)
  /\ date_at a' j = Z.min (date_at a i) (date_at a j)
  /\ (forall k, k <> i -> k <> j -> date_at a' k = date_at a k).
Proof.
  intros Hi Hj Hij. cbv zeta.
  destruct (Z.ltb_spec (date_at a i) (date_at a j)) as [Hc | Hc].
  - split; [apply length_swap |]. split; [apply swap_perm |].
    rewrite (@date_at_swap i j i a Hi Hj), (@date_at_swap i j j a Hi Hj).
    rewrite !Nat.eqb_refl.
    destruct (Nat.eqb_spec j i) as [E | _]; [congruence |].
    split; [lia |]. split; [lia |].
    intros k Hki Hkj. rewrite (@date_at_swap i j k a Hi Hj).
    destruct (Nat.eqb_spec k i) as [E | _]; [congruence |].
    destruct (Nat.eqb_spec k j) as [E | _]; [congruence |]. reflexivity.
  - split; [reflexivity |]. split; [reflexivity |].
    split; [lia |]. split; [lia |]. reflexivity.
Qed.

Lemma partition_spec (a : list Labeled) :
  3 <= length a ->
  let a' := fst (partition a) in
  let p := snd (partition a) in
  Permutation a' a /\ p < length a
  /\ (forall i, i < p -> (date_at a' i <= date_at a' p)%Z)
  /\ (forall j, p < j < length a -> (date_at a' p <= date_at a' j)%Z).
Proof.
  intros Hn. unfold partition.
  set (n := length a) in *.
  set (pr := n - 1). set (pm := pr / 2).
  assert (Hpm : 0 < pm < pr).
  { unfold pm, pr. split; [apply Nat.div_str_pos; lia | apply Nat.div_lt; lia]. }
  assert (Hpr : pr < n) by (unfold pr; lia).
  destruct (@order_pair pm 0 a) as (L1 & P1 & M1 & Z1 & K1); try lia.
  set (a1 := if (date_at a pm <? date_at a 0)%Z then swap pm 0 a else a) in *.
  fold n in L1.
  destruct (@order_pair pr pm a1) as (L2 & P2 & M2 & Z2 & K2); try lia.
  set (a2 := if (date_at a1 pr <? date_at a1 pm)%Z then swap pr pm a1 else a1)
    in *.
  destruct (@order_pair pm 0 a2) as (L3 & P3 & M3 & Z3 & K3); try lia.
  set (a3 := if (date_at a2 pm <? date_at a2 0)%Z then swap pm 0 a2 else a2)
    in *.
  assert (Hlen3 : length a3 = n) by lia.
  set (vp := date_at a3 pm).
  assert (Hi4 : pm < length a3) by lia.
  assert (Hj4 : pr - 1 < length a3) by lia.
  set (a4 := swap pm (pr - 1) a3).
  assert (Hlen4 : length a4 = n) by (unfold a4; rewrite length_swap; lia).
  assert (Hinv : exchange_inv n vp a4 0 (pr - 1)).
  { unfold exchange_inv. split; [exact Hlen4 |].
    split; [unfold pr; lia |]. split; [unfold pr; lia |].
    split; [lia |]. split; [| split].
    - intros i Hi. assert (i = 0) by lia. subst i.
      unfold a4. rewrite (@date_at_swap pm (pr - 1) 0 a3 Hi4 Hj4).
      destruct (Nat.eqb_spec 0 pm) as [E | _]; [lia |].
      destruct (Nat.eqb_spec 0 (pr - 1)) as [E | _]; [unfold pr in E; lia |].
      unfold vp. rewrite Z3, M3. lia.
    - intros j Hj. unfold a4.
      rewrite (@date_at_swap pm (pr - 1) j a3 Hi4 Hj4).
      destruct (Nat.eqb_spec j pm) as [E | Hne].
      + assert (pm = pr - 1) by (unfold pr in *; lia).
        replace (pr - 1) with pm by assumption. unfold vp. lia.
      + destruct (Nat.eqb_spec j (pr - 1)) as [E | Hne']; [unfold vp; lia |].
        assert (j = pr) by (unfold pr in *; lia). subst j.
        unfold vp. rewrite (K3 pr) by lia. rewrite M3, M2.
        rewrite Z2. rewrite (K2 0) by lia. lia.
    - unfold a4. replace (n - 2) with (pr - 1) by (unfold pr; lia).
      rewrite (@date_at_swap pm (pr - 1) (pr - 1) a3 Hi4 Hj4).
      destruct (Nat.eqb_spec (pr - 1) pm) as [E | _].
      + rewrite E. reflexivity.
      + rewrite Nat.eqb_refl. reflexivity. }
  pose proof (@exchange_spec (length a4) n vp a4 0 (pr - 1) Hinv
                ltac:(rewrite Hlen4; unfold pr; lia)) as Hx.
  cbv zeta in Hx.
  destruct (exchange (length a4) a4 vp 0 (pr - 1)) as [a5 p].
  cbn [fst snd] in *.
  destruct Hx as (P5 & L5 & Hp & Hlo & Hhi & Hpiv).
  assert (Hi6 : p < length a5) by (rewrite L5; unfold pr in *; lia).
  assert (Hj6 : pr - 1 < length a5) by (rewrite L5; unfold pr; lia).
  assert (Hpd : date_at (swap p (pr - 1) a5) p = vp).
  { rewrite (@date_at_swap p (pr - 1) p a5 Hi6 Hj6), Nat.eqb_refl.
    replace (pr - 1) with (n - 2) by (unfold pr; lia). exact Hpiv. }
  split; [| split; [unfold pr in *; lia | split]].
  - rewrite swap_perm, P5. unfold a4. rewrite swap_perm.
    rewrite P3, P2, P1. reflexivity.
  - intros i Hi. rewrite Hpd.
    rewrite (@date_at_swap p (pr - 1) i a5 Hi6 Hj6).
    destruct (Nat.eqb_spec i p) as [E | _]; [lia |].
    destruct (Nat.eqb_spec i (pr - 1)) as [E | _]; [lia |].
    apply Hlo. exact Hi.
  - intros j Hj. rewrite Hpd.
    rewrite (@date_at_swap p (pr - 1) j a5 Hi6 Hj6).
    destruct (Nat.eqb_spec j p) as [E | _]; [lia |].
    destruct (Nat.eqb_spec j (pr - 1)) as [E | _].
    + apply Hhi. lia.
    + apply Hhi. lia.
Qed.

(** *** The sort *)

Lemma split_at (p : nat) (a : list Labeled) :
  a = firstn p a ++ firstn 1 (skipn p a) ++ skipn (S p) a.
Proof.
  rewrite <- (firstn_skipn p a) at 1. f_equal.
  rewrite <- (firstn_skipn 1 (skipn p a)) at 1. f_equal.
  rewrite skipn_skipn. reflexivity.
Qed.

Lemma date_at_in_firstn (p : nat) (a : list Labeled) (x : Labeled) :
  In x (firstn p a) ->
  exists i, i < p /\ game_date (ev x) = date_at a i.
Proof.
  intros Hx. apply In_nth_error in Hx. destruct Hx as (i & Hi).
  rewrite nth_error_firstn in Hi.
  destruct (Nat.ltb_spec i p) as [Hlt | Hge]; [| discriminate].
  exists i. split; [exact Hlt |]. unfold date_at. rewrite Hi. reflexivity.
Qed.

Lemma date_at_in_skipn (p : nat) (a : list Labeled) (x : Labeled) :
  In x (skipn p a) ->
  exists j, p <= j < length a /\ game_date (ev x) = date_at a j.
Proof.
  intros Hx. apply In_nth_error in Hx. destruct Hx as (i & Hi).
  rewrite nth_error_skipn in Hi.
  exists (p + i). split.
  - split; [lia |]. apply nth_error_Some. congruence.
  - unfold date_at. rewrite Hi. reflexivity.
Qed.

Lemma date_at_pivot (p : nat) (a : list Labeled) (x : Labeled) :
  In x (firstn 1 (skipn p a)) -> game_date (ev x) = date_at a p.
Proof.
  intros Hx. unfold date_at.
  rewrite <- (Nat.add_0_r p), <- nth_error_skipn.
  destruct (skipn p a) as [| y l]; simpl in *; [contradiction |].
  destruct Hx as [-> | []]. reflexivity.
Qed.

Lemma date_sorted_app (l r : list Labeled) :
  StronglySorted date_le l -> StronglySorted date_le r ->
  (forall x y, In x l -> In y r -> date_le x y) ->
  StronglySorted date_le (l ++ r).
Proof.
  intros Hl Hr Hlr. induction Hl as [| x l Hl IH Hx]; simpl; [exact Hr |].
  constructor.
  - apply IH. intros u v Hu Hv. apply Hlr; [right; exact Hu | exact Hv].
  - apply Forall_app. split; [exact Hx |].
    apply Forall_forall. intros y Hy. apply Hlr; [left; reflexivity | exact Hy].
Qed.

Lemma date_sorted_same_date (d : Z) (l : list Labeled) :
  (forall x, In x l -> game_date (ev x) = d) -> StronglySorted date_le l.
Proof.
  induction l as [| x l IH]; intros H; constructor.
  - apply IH. intros y Hy. apply H. right. exact Hy.
  - apply Forall_forall. intros y Hy. unfold date_le.
    rewrite (H x (or_introl eq_refl)), (H y (or_intror Hy)). lia.
Qed.

(** *** The heapsort *)

Lemma date_at_upd (i k : nat) (x : Labeled) (a : list Labeled) :
  i < length a ->
  date_at (upd i x a) k = if k =? i then game_date (ev x) else date_at a k.
Proof.
  intros Hi. unfold date_at.
  destruct (Nat.eqb_spec k i) as [-> | Hne].
  - rewrite nth_error_upd_eq by exact Hi. reflexivity.
  - rewrite nth_error_upd_neq by congruence. reflexivity.
Qed.

Lemma upd_same (i : nat) (x : Labeled) (a : list Labeled) :
  nth_error a i = Some x -> upd i x a = a.
Proof.
  revert i. induction a as [| y a IH]; intros [| i] H; simpl in *;
    try discriminate.
  - injection H as ->. reflexivity.
  - rewrite (IH i H). reflexivity.
Qed.

(** Storing at two places is an exchange. *)
Lemma upd_upd_perm (i j : nat) (x y : Labeled) (a : list Labeled) :
  i <> j -> i < length a -> nth_error a j = Some x ->
  Permutation (upd j y (upd i x a)) (upd i y a).
Proof.
  intros Hij Hi Hj.
  assert (Hjl : j < length a) by (apply nth_error_Some; congruence).
  replace (upd j y (upd i x a)) with (swap i j (upd i y a));
    [apply swap_perm |].
  apply nth_error_ext. intros k.
  rewrite (@nth_error_swap i j k (upd i y a))
    by (rewrite length_upd; assumption).
  destruct (Nat.eqb_spec k i) as [-> | Hki].
  - rewrite nth_error_upd_neq by congruence.
    rewrite nth_error_upd_neq by congruence.
    rewrite nth_error_upd_eq by exact Hi. exact Hj.
  - destruct (Nat.eqb_spec k j) as [-> | Hkj].
    + rewrite nth_error_upd_eq by exact Hi.
      rewrite nth_error_upd_eq by (rewrite length_upd; exact Hjl).
      reflexivity.
    + rewrite !nth_error_upd_neq by congruence. reflexivity.
Qed.

(** Storing a row at place [i] of a heap that is in order everywhere but
    at [i]. *)
Lemma heap_upd (a : list Labeled) (x : Labeled) (i l n : nat) :
  1 <= l <= i -> i <= n -> n <= length a ->
  (forall k, l <= k -> 1 <= k -> k <> i -> heap_at a n k) ->
  (forall k, l <= k -> 1 <= k -> k <> i -> heap_at a n k ->
             (i = 2 * k \/ i = 2 * k + 1) ->
             (game_date (ev x) <= date_at a (k - 1))%Z) ->
  (2 * i <= n -> (date_at a (2 * i - 1) <= game_date (ev x))%Z) ->
  (2 * i + 1 <= n -> (date_at a (2 * i) <= game_date (ev x))%Z) ->
  heap (upd (i - 1) x a) l n.
Proof.
  intros Hl Hi Hn Hrest Hpar Hc1 Hc2 k Hk Hk1.
  assert (Hil : i - 1 < length a) by lia.
  unfold heap_at. rewrite !(@date_at_upd (i - 1) _ x a Hil).
  destruct (Nat.eq_dec k i) as [-> | Hne].
  - rewrite Nat.eqb_refl.
    destruct (Nat.eqb_spec (2 * i - 1) (i - 1)) as [E | _]; [lia |].
    destruct (Nat.eqb_spec (2 * i) (i - 1)) as [E | _]; [lia |].
    split; assumption.
  - pose proof (Hrest k Hk Hk1 Hne) as Hh.
    pose proof (Hpar k Hk Hk1 Hne Hh) as Hp.
    destruct Hh as [H1 H2].
    destruct (Nat.eqb_spec (k - 1) (i - 1)) as [E | _]; [lia |].
    destruct (Nat.eqb_spec (2 * k - 1) (i - 1)) as [E1 | N1];
      destruct (Nat.eqb_spec (2 * k) (i - 1)) as [E2 | N2].
    + lia.
    + split; [intros _; apply Hp; lia | exact H2].
    + split; [exact H1 | intros _; apply Hp; lia].
    + split; assumption.
Qed.

Lemma sift_down_spec (fuel : nat) (a : list Labeled) (tmp : Labeled)
    (l i n : nat) :
  1 <= l <= i -> i <= n -> n <= length a -> n - i < fuel ->
  (i = l /\ heap a (S l) n
   \/ l < i /\ heap a l n
      /\ (game_date (ev tmp) < date_at a (i - 1))%Z) ->
  let b := sift_down fuel a tmp i (i + i) n in
  length b = length a
  /\ Permutation b (upd (i - 1) tmp a)
  /\ heap b l n
  /\ (forall k, n <= k -> nth_error b k = nth_error a k)
  /\ (forall M, (forall k, k < n -> (date_at a k <= M)%Z) ->
                (game_date (ev tmp) <= M)%Z ->
                forall k, k < n -> (date_at b k <= M)%Z).
Proof.
  revert a i.
  induction fuel as [| f IH]; intros a i Hl Hi Hn Hf HJ; [lia |].
  assert (Hil : i - 1 < length a) by lia.
  assert (Hrest : forall k, l <= k -> 1 <= k -> k <> i -> heap_at a n k).
  { intros k Hk Hk1 Hne. destruct HJ as [[-> Hh] | (_ & Hh & _)].
    - apply Hh; lia.
    - apply Hh; assumption. }
  (* the result when [tmp] is stored at [i] *)
  assert (Hplace :
            (2 * i <= n -> (date_at a (2 * i - 1) <= game_date (ev tmp))%Z) ->
            (2 * i + 1 <= n -> (date_at a (2 * i) <= game_date (ev tmp))%Z) ->
            let b := upd (i - 1) tmp a in
            length b = length a
            /\ Permutation b (upd (i - 1) tmp a)
            /\ heap b l n
            /\ (forall k, n <= k -> nth_error b k = nth_error a k)
            /\ (forall M, (forall k, k < n -> (date_at a k <= M)%Z) ->
                          (game_date (ev tmp) <= M)%Z ->
                          forall k, k < n -> (date_at b k <= M)%Z)).
  { intros Hc1 Hc2. cbv zeta.
    split; [apply length_upd |]. split; [reflexivity |]. split; [| split].
    - apply heap_upd; try assumption.
      intros k Hk Hk1 Hne [H1 H2] Hch.
      destruct HJ as [[-> Hh] | (Hli & Hh & Hlt)]; [lia |].
      destruct Hch as [-> | ->].
      + specialize (H1 ltac:(lia)). lia.
      + specialize (H2 ltac:(lia)).
        replace (2 * k + 1 - 1) with (2 * k) in Hlt by lia. lia.
    - intros k Hk. apply nth_error_upd_neq. lia.
    - intros M HM Ht k Hk. rewrite (@date_at_upd (i - 1) k tmp a Hil).
      destruct (k =? i - 1); [exact Ht | apply HM; exact Hk]. }
  cbn [sift_down].
  destruct (Nat.leb_spec (i + i) n) as [Hj | Hj];
    [| apply Hplace; intros; lia].
  set (j := if (i + i <? n) && (date_at a (i + i - 1) <? date_at a (i + i))%Z
            then S (i + i) else i + i).
  assert (Hjn : j <= n /\ (j = i + i \/ j = S (i + i))
                /\ (date_at a (2 * i - 1) <= date_at a (j - 1))%Z
                /\ (2 * i + 1 <= n -> (date_at a (2 * i) <= date_at a (j - 1))%Z)).
  { unfold j. replace (2 * i) with (i + i) by lia.
    destruct (Nat.ltb_spec (i + i) n) as [H1 | H1];
      destruct (Z.ltb_spec (date_at a (i + i - 1)) (date_at a (i + i)))
        as [H2 | H2]; cbn [andb].
    - replace (S (i + i) - 1) with (i + i) by lia. repeat split; lia.
    - repeat split; lia.
    - repeat split; lia.
    - repeat split; lia. }
  destruct Hjn as (Hjn & Hjv & Hm1 & Hm2).
  destruct (nth_error a (j - 1)) as [x |] eqn:Ex;
    [| apply nth_error_None in Ex; lia].
  assert (Hdx : date_at a (j - 1) = game_date (ev x))
    by (unfold date_at; rewrite Ex; reflexivity).
  destruct (Z.ltb_spec (game_date (ev tmp)) (game_date (ev x))) as [Hlt | Hge].
  2:{ apply Hplace; intros; lia. }
  (* the later child moves up *)
  assert (Hheap' : heap (upd (i - 1) x a) l n).
  { apply heap_upd; try assumption; try lia.
    intros k Hk Hk1 Hne [H1 H2] Hch.
    destruct HJ as [[-> Hh] | (Hli & Hh & _)]; [lia |].
    destruct (Hh i ltac:(lia) ltac:(lia)) as [Hi1 Hi2].
    assert (Hxi : (game_date (ev x) <= date_at a (i - 1))%Z).
    { rewrite <- Hdx. destruct Hjv as [-> | ->].
      - replace (i + i - 1) with (2 * i - 1) by lia. apply Hi1. lia.
      - replace (S (i + i) - 1) with (2 * i) by lia. apply Hi2. lia. }
    destruct Hch as [-> | ->].
    + specialize (H1 ltac:(lia)). lia.
    + specialize (H2 ltac:(lia)).
      replace (2 * k + 1 - 1) with (2 * k) in Hxi by lia. lia. }
  assert (Hlen' : length (upd (i - 1) x a) = length a) by apply length_upd.
  specialize (IH (upd (i - 1) x a) j ltac:(lia) Hjn ltac:(lia) ltac:(lia)).
  assert (HJ' : j = l /\ heap (upd (i - 1) x a) (S l) n
                \/ l < j /\ heap (upd (i - 1) x a) l n
                   /\ (game_date (ev tmp) < date_at (upd (i - 1) x a) (j - 1))%Z).
  { right. split; [lia |]. split; [exact Hheap' |].
    rewrite (@date_at_upd (i - 1) (j - 1) x a Hil).
    destruct (Nat.eqb_spec (j - 1) (i - 1)) as [E | _]; [lia |]. lia. }
  specialize (IH HJ'). cbv zeta in IH.
  destruct IH as (L & P & Hh & Hfr & Hb).
  split; [lia |]. split; [| split; [exact Hh | split]].
  - rewrite P. apply upd_upd_perm; [lia | exact Hil | exact Ex].
  - intros k Hk. rewrite (Hfr k Hk). apply nth_error_upd_neq. lia.
  - intros M HM Ht. apply Hb; [| exact Ht].
    intros k Hk. rewrite (@date_at_upd (i - 1) k x a Hil).
    destruct (k =? i - 1); [| apply HM; exact Hk].
    rewrite <- Hdx. apply HM. lia.
Qed.

Lemma build_heap_spec (l : nat) (a : list Labeled) (n : nat) :
  l <= n -> n <= length a -> heap a (S l) n ->
  let b := build_heap l a n in
  length b = length a /\ Permutation b a /\ heap b 1 n.
Proof.
  revert a. induction l as [| l IH]; intros a Hl Hn Hh; cbn [build_heap].
  - split; [reflexivity |]. split; [reflexivity | exact Hh].
  - destruct (nth_error a l) as [tmp |] eqn:Et;
      [| apply nth_error_None in Et; lia].
    destruct (@sift_down_spec n a tmp (S l) (S l) n) as (L & P & H & _);
      try lia.
    { left. split; [reflexivity | exact Hh]. }
    replace (S l - 1) with l in P by lia.
    rewrite (@upd_same l tmp a Et) in P.
    destruct (IH (sift_down n a tmp (S l) (S l + S l) n)) as (L' & P' & H');
      try lia; [exact H |].
    cbv zeta. split; [lia |]. split; [| exact H'].
    rewrite P'. exact P.
Qed.

(** The first row of a heap is its latest. *)
Lemma heap_top (a : list Labeled) (n k : nat) :
  heap a 1 n -> 1 <= k <= n -> (date_at a (k - 1) <= date_at a 0)%Z.
Proof.
  intros Hh. induction k as [k IH] using lt_wf_ind. intros Hk.
  destruct (Nat.eq_dec k 1) as [-> | Hne]; [simpl; lia |].
  assert (Hp : 1 <= k / 2 /\ k / 2 < k).
  { split; [apply Nat.div_le_lower_bound; lia | apply Nat.div_lt; lia]. }
  specialize (IH (k / 2) ltac:(lia) ltac:(lia)).
  destruct (Hh (k / 2) ltac:(lia) ltac:(lia)) as [H1 H2].
  pose proof (Nat.div_mod_eq k 2) as Hdm.
  pose proof (Nat.mod_upper_bound k 2 ltac:(lia)) as Hm.
  destruct (Nat.eq_dec (k mod 2) 0) as [E | E].
  - replace (k - 1) with (2 * (k / 2) - 1) by lia.
    specialize (H1 ltac:(lia)). lia.
  - replace (k - 1) with (2 * (k / 2)) by lia.
    specialize (H2 ltac:(lia)). lia.
Qed.

Lemma sort_heap_spec (n : nat) (a : list Labeled) :
  n <= length a -> heap a 1 n -> tail_sorted a n ->
  let b := sort_heap n a in
  Permutation b a
  /\ (forall i j, i <= j -> j < length b -> (date_at b i <= date_at b j)%Z).
Proof.
  revert a. induction n as [| n IH]; intros a Hn Hh [Hs1 Hs2];
    cbn [sort_heap].
  - split; [reflexivity |]. intros i j Hij Hj. apply Hs1; lia.
  - destruct (Nat.ltb_spec 1 (S n)) as [Hgt | Hle].
    2:{ split; [reflexivity |]. intros i j Hij Hj.
        destruct (Nat.eq_dec i 0) as [-> | Hi]; [| apply Hs1; lia].
        destruct (Nat.eq_dec j 0) as [-> | Hj0]; [lia | apply Hs2; lia]. }
    destruct (nth_error a n) as [tmp |] eqn:Et;
      [| apply nth_error_None in Et; lia].
    destruct (nth_error a 0) as [top |] eqn:Etop;
      [| apply nth_error_None in Etop; lia].
    assert (Hdt : date_at a n = game_date (ev tmp))
      by (unfold date_at; rewrite Et; reflexivity).
    assert (Hdtop : date_at a 0 = game_date (ev top))
      by (unfold date_at; rewrite Etop; reflexivity).
    assert (Hnl : n < length a) by lia.
    set (a1 := upd n top a).
    assert (Hd1 : forall k, date_at a1 k =
                            if k =? n then game_date (ev top) else date_at a k).
    { intros k. unfold a1. apply date_at_upd. exact Hnl. }
    assert (Hl1 : length a1 = length a) by apply length_upd.
    assert (Hh1 : heap a1 2 n).
    { intros k Hk Hk1. destruct (Hh k ltac:(lia) Hk1) as [H1 H2].
      unfold heap_at. rewrite !Hd1.
      split; intros Hc.
      - destruct (Nat.eqb_spec (2 * k - 1) n) as [E | _]; [lia |].
        destruct (Nat.eqb_spec (k - 1) n) as [E | _]; [lia |].
        apply H1. lia.
      - destruct (Nat.eqb_spec (2 * k) n) as [E | _]; [lia |].
        destruct (Nat.eqb_spec (k - 1) n) as [E | _]; [lia |].
        apply H2. lia. }
    destruct (@sift_down_spec n a1 tmp 1 1 n) as (L & P & H & Hfr & Hb);
      try lia.
    { left. split; [reflexivity | exact Hh1]. }
    change (1 + 1) with 2 in *. change (1 - 1) with 0 in P.
    set (a2 := sift_down n a1 tmp 1 2 n) in *.
    assert (Htop : forall k, k < S n -> (date_at a k <= date_at a 0)%Z).
    { intros k Hk. replace k with (S k - 1) by lia.
      apply (@heap_top a (S n) (S k) Hh). lia. }
    assert (Hd2 : forall k, n <= k -> date_at a2 k = date_at a1 k).
    { intros k Hk. unfold date_at. rewrite (Hfr k Hk). reflexivity. }
    destruct (IH a2) as (P2 & S2); try lia; [exact H | |].
    { split.
      - intros i j Hi Hij Hj. rewrite !Hd2 by lia. rewrite !Hd1.
        rewrite L, Hl1 in Hj.
        destruct (Nat.eqb_spec i n) as [-> | Hin];
          destruct (Nat.eqb_spec j n) as [-> | Hjn]; try lia.
        + rewrite <- Hdtop. apply Hs2; lia.
        + apply Hs1; lia.
      - intros i j Hi Hj Hjl. rewrite L, Hl1 in Hjl.
        apply Z.le_trans with (m := game_date (ev top)).
        + apply Hb; [| rewrite <- Hdt, <- Hdtop; apply Htop; lia | exact Hi].
          intros k Hk. rewrite Hd1.
          destruct (k =? n); [lia |]. rewrite <- Hdtop. apply Htop. lia.
        + rewrite Hd2 by lia. rewrite Hd1.
          destruct (Nat.eqb_spec j n) as [-> | Hjn]; [lia |].
          rewrite <- Hdtop. apply Hs2; lia. }
    cbv zeta. split; [| exact S2].
    rewrite P2, P. unfold a1.
    destruct (Nat.eq_dec n 0) as [-> | Hn0]; [lia |].
    replace (upd 0 tmp (upd n top a)) with (swap 0 n a); [apply swap_perm |].
    unfold swap. rewrite Et, Etop. reflexivity.
Qed.

(** A frame in order by place is sorted. *)
Lemma sorted_by_place (a : list Labeled) :
  (forall i j, i <= j -> j < length a -> (date_at a i <= date_at a j)%Z) ->
  StronglySorted date_le a.
Proof.
  induction a as [| x a IH]; intros H; constructor.
  - apply IH. intros i j Hij Hj.
    apply (H (S i) (S j)); simpl; lia.
  - apply Forall_forall. intros y Hy.
    apply In_nth_error in Hy. destruct Hy as (j & Hj).
    assert (Hjl : j < length a) by (apply nth_error_Some; congruence).
    specialize (H 0 (S j) ltac:(lia) ltac:(simpl; lia)).
    unfold date_at in H. simpl in H. rewrite Hj in H. exact H.
Qed.

Lemma aheapsort_perm (a : list Labeled) :
  Permutation (aheapsort a) a.
Proof.
  unfold aheapsort.
  destruct (@build_heap_spec (length a / 2) a (length a)) as (L & P & H).
  - apply Nat.Div0.div_le_upper_bound. lia.
  - lia.
  - intros k Hk Hk1. pose proof (Nat.mul_succ_div_gt (length a) 2).
    split; intros Hc; lia.
  - destruct (@sort_heap_spec (length a) (build_heap (length a / 2) a (length a)))
      as (P' & _); [lia | exact H | | ].
    + split; intros i j; lia.
    + cbv zeta. rewrite P'. exact P.
Qed.

Lemma aheapsort_sorted (a : list Labeled) :
  Sorted date_le (aheapsort a).
Proof.
  apply StronglySorted_Sorted. apply sorted_by_place.
  unfold aheapsort.
  destruct (@build_heap_spec (length a / 2) a (length a)) as (L & P & H).
  - apply Nat.Div0.div_le_upper_bound. lia.
  - lia.
  - intros k Hk Hk1. pose proof (Nat.mul_succ_div_gt (length a) 2).
    split; intros Hc; lia.
  - destruct (@sort_heap_spec (length a) (build_heap (length a / 2) a (length a)))
      as (_ & S'); [lia | exact H | | ].
    + split; intros i j; lia.
    + exact S'.
Qed.

(** *** The quicksort *)

Lemma aquicksort_loop_perm (fuel : nat) (popped : bool) (cdepth : Z)
    (a : list Labeled) :
  Permutation (aquicksort_loop fuel popped cdepth a) a.
Proof.
  revert popped cdepth a.
  induction fuel as [| f IH]; intros popped cdepth a; cbn [aquicksort_loop];
    [reflexivity |].
  destruct (popped && (cdepth <? 0)%Z); [apply aheapsort_perm |].
  destruct (16 <? length a - 1) eqn:Hn; [| apply isort_by_date_perm].
  apply Nat.ltb_lt in Hn.
  destruct (@partition_spec a ltac:(lia)) as (HP & _).
  destruct (partition a) as [a' p]. cbn [fst snd] in HP.
  apply Permutation_trans with (l' := a'); [| exact HP].
  destruct (p <? length a - 1 - p); rewrite !IH, <- split_at; reflexivity.
Qed.

Lemma aquicksort_loop_sorted (fuel : nat) (popped : bool) (cdepth : Z)
    (a : list Labeled) :
  length a < fuel ->
  StronglySorted date_le (aquicksort_loop fuel popped cdepth a).
Proof.
  revert popped cdepth a.
  induction fuel as [| f IH]; intros popped cdepth a Hf; [lia |].
  cbn [aquicksort_loop].
  destruct (popped && (cdepth <? 0)%Z).
  { apply Sorted_StronglySorted; [exact date_le_trans | apply aheapsort_sorted]. }
  destruct (16 <? length a - 1) eqn:Hn.
  2:{ apply Sorted_StronglySorted;
        [exact date_le_trans | apply isort_by_date_sorted]. }
  apply Nat.ltb_lt in Hn.
  destruct (@partition_spec a ltac:(lia)) as (HP & Hp & Hlo & Hhi).
  destruct (partition a) as [a' p]. cbn [fst snd] in *.
  assert (Hlen : length a' = length a) by (apply Permutation_length; exact HP).
  assert (Hleft : length (firstn p a') < f)
    by (rewrite length_firstn; lia).
  assert (Hright : length (skipn (S p) a') < f)
    by (rewrite length_skipn; lia).
  assert (Hsorted : forall b1 b2 c1 c2,
             StronglySorted date_le
               (aquicksort_loop f b1 c1 (firstn p a')
                ++ firstn 1 (skipn p a')
                ++ aquicksort_loop f b2 c2 (skipn (S p) a'))).
  { intros b1 b2 c1 c2.
    apply date_sorted_app; [apply IH; exact Hleft | |].
    - apply date_sorted_app; [| apply IH; exact Hright |].
      + apply (@date_sorted_same_date (date_at a' p)).
        intros x Hx. apply date_at_pivot. exact Hx.
      + intros x y Hx Hy. unfold date_le.
        rewrite (date_at_pivot p a' x Hx).
        apply (Permutation_in _ (aquicksort_loop_perm f b2 c2 _)) in Hy.
        apply date_at_in_skipn in Hy. destruct Hy as (j & Hj & ->).
        apply Hhi. lia.
    - intros x y Hx Hy. unfold date_le.
      apply (Permutation_in _ (aquicksort_loop_perm f b1 c1 _)) in Hx.
      apply date_at_in_firstn in Hx. destruct Hx as (i & Hi & ->).
      apply in_app_or in Hy. destruct Hy as [Hy | Hy].
      + rewrite (date_at_pivot p a' y Hy). apply Hlo. exact Hi.
      + apply (Permutation_in _ (aquicksort_loop_perm f b2 c2 _)) in Hy.
        apply date_at_in_skipn in Hy. destruct Hy as (j & Hj & ->).
        specialize (Hlo i Hi). specialize (Hhi j ltac:(lia)). lia. }
  destruct (p <? length a - 1 - p); apply Hsorted.
Qed.

Lemma aquicksort_perm (a : list Labeled) :
  Permutation (aquicksort a) a.
Proof. apply aquicksort_loop_perm. Qed.

Lemma aquicksort_sorted (a : list Labeled) :
  Sorted date_le (aquicksort a).
Proof.
  apply StronglySorted_Sorted. apply aquicksort_loop_sorted. lia.
Qed.

End QuicksortFacts.

(** The default sort. *)
Definition quicksort : SortValues :=
  {| sort_values := aquicksort;
     sort_values_perm := aquicksort_perm;
     sort_values_sorted := aquicksort_sorted |}.

(** ** The generator *)

Section GeneratorFacts.

Local Open Scope nat_scope.

Lemma nth_error_combine (A B : Type) (a : list A) (b : list B) (i : nat)
    (x : A) (y : B) :
  nth_error a i = Some x -> nth_error b i = Some y ->
  nth_error (combine a b) i = Some (x, y).
Proof.
  revert b i. induction a as [| a0 a IH]; intros [| b0 b] [| i]; simpl;
    try discriminate.
  - intros [= ->] [= ->]. reflexivity.
  - apply IH.
Qed.

Lemma window_frame_length (tl : list Labeled) (W : nat) :
  length (window_frame tl W) = length tl.
Proof.
  unfold window_frame.
  rewrite length_map, !length_combine, !rolling_mean_length,
    !shift_m1_length, !length_map.
  lia.
Qed.

Lemma window_frame_nth (tl : list Labeled) (W i : nat) (r : Labeled) :
  1 <= W -> nth_error tl i = Some r ->
  nth_error (window_frame tl W) i = Some (expected_row tl W i r).
Proof.
  intros HW Hr.
  assert (Hi : i < length tl) by (apply nth_error_Some; congruence).
  unfold window_frame, expected_row.
  set (mean signal :=
         if W - 1 <=? i then Some (trailing_mean (map signal tl) W i) else None).
  set (next signal :=
         if i + 1 <? length tl then Some (nth (i + 1) (map signal tl) 0%Z)
         else None).
  rewrite (map_nth_error _ _ _
             (d := (r, (mean is_hit, (mean is_on_base, (mean total_bases,
                    (next is_hit, (next is_on_base, next total_bases)))))))).
  - reflexivity.
  - repeat (apply nth_error_combine; [|]); try exact Hr;
      first [ rewrite rolling_mean_nth by (rewrite ?length_map; lia)
            | rewrite shift_m1_nth by (rewrite ?length_map; lia) ];
      rewrite ?length_map; reflexivity.
Qed.

Lemma nth_error_concat_uniform (A : Type) (L : nat) (ls : list (list A)) :
  Forall (fun l => length l = L) ls ->
  forall k i, i < L ->
    nth_error (concat ls) (k * L + i) =
    match nth_error ls k with
    | Some l => nth_error l i
    | None => None
    end.
Proof.
  induction 1 as [| l ls Hl Hls IH]; intros k i Hi.
  - destruct k; simpl; apply nth_error_nil.
  - destruct k as [| k]; simpl.
    + rewrite nth_error_app1 by lia. reflexivity.
    + rewrite nth_error_app2 by lia.
      replace (L + k * L + i - length l) with (k * L + i) by lia.
      apply IH. exact Hi.
Qed.

Lemma pd_concat_cons (A : Type) (f : list A) (fs : list (list A)) :
  pd_concat (f :: fs) = inr (concat (f :: fs)).
Proof. reflexivity. Qed.

Lemma compute_rolling_stats_ok {SV : SortValues} (df : list Labeled)
    (max_window : nat) :
  1 <= max_window ->
  compute_rolling_stats df max_window =
  inr (concat (map (window_frame (timeline df)) (seq 1 max_window))).
Proof.
  intros H. unfold compute_rolling_stats.
  destruct max_window as [| m]; [lia |]. reflexivity.
Qed.

(** C1. For a timeline of length [L] and every window size [W] in
    [1 .. max_window], the generator's row for position [i] of pass [W]
    carries the simple means of [is_hit], [is_on_base] and [total_bases]
    over positions [i - W + 1 .. i], present exactly when [i >= W - 1],
    and the three signals of position [i + 1], present exactly when
    [i + 1 < L]. *)
Theorem C1_windowed_features {SV : SortValues} (df : list Labeled)
    (max_window W i : nat) :
  1 <= W <= max_window -> i < length (timeline df) ->
  exists rows r,
    compute_rolling_stats df max_window = inr rows
    /\ nth_error (timeline df) i = Some r
    /\ nth_error rows ((W - 1) * length (timeline df) + i) =
       Some (expected_row (timeline df) W i r).
Proof.
  intros HW Hi.
  destruct (nth_error (timeline df) i) as [r |] eqn:Hr;
    [| apply nth_error_None in Hr; lia].
  eexists; exists r. split; [apply compute_rolling_stats_ok; lia |].
  split; [reflexivity |].
  rewrite (@nth_error_concat_uniform _ (length (timeline df))).
  - rewrite nth_error_map, nth_error_seq.
    replace (W - 1 <? max_window) with true
      by (symmetry; apply Nat.ltb_lt; lia).
    simpl. replace (S (W - 1)) with W by lia.
    apply window_frame_nth; [lia | exact Hr].
  - apply Forall_forall. intros l Hl. apply in_map_iff in Hl.
    destruct Hl as (w & <- & _). apply window_frame_length.
  - exact Hi.
Qed.

End GeneratorFacts.

(** ** Grouping *)

Section GroupbyFacts.

Local Open Scope Z_scope.

Lemma insert_key_In (k x : Z) (ks : list Z) :
  In x (insert_key k ks) <-> x = k \/ In x ks.
Proof.
  induction ks as [| y ks IH]; simpl.
  - intuition.
  - destruct (k <? y) eqn:Hlt; simpl; [intuition |].
    destruct (k =? y) eqn:Heq; simpl.
    + apply Z.eqb_eq in Heq. subst y. intuition.
    + rewrite IH. intuition.
Qed.

Lemma group_keys_In (x : Z) (ks : list Z) :
  In x (group_keys ks) <-> In x ks.
Proof.
  induction ks as [| k ks IH]; simpl; [reflexivity |].
  rewrite insert_key_In, IH. intuition.
Qed.

Lemma insert_key_sorted (k : Z) (ks : list Z) :
  StronglySorted Z.lt ks -> StronglySorted Z.lt (insert_key k ks).
Proof.
  induction 1 as [| y ks Hs IH Hall]; simpl.
  - repeat constructor.
  - destruct (k <? y) eqn:Hlt.
    + apply Z.ltb_lt in Hlt. constructor; [constructor; assumption |].
      constructor; [exact Hlt |].
      eapply Forall_impl; [| exact Hall]. intros z Hz. simpl in Hz. lia.
    + destruct (k =? y) eqn:Heq; [constructor; assumption |].
      apply Z.ltb_ge in Hlt. apply Z.eqb_neq in Heq.
      constructor; [exact IH |].
      apply Forall_forall. intros z Hz. apply insert_key_In in Hz.
      destruct Hz as [-> | Hz]; [lia |].
      rewrite Forall_forall in Hall. apply Hall. exact Hz.
Qed.

Lemma group_keys_sorted (ks : list Z) : StronglySorted Z.lt (group_keys ks).
Proof.
  induction ks as [| k ks IH]; simpl; [constructor |].
  apply insert_key_sorted. exact IH.
Qed.

(** An ascending list without repetitions is determined by its elements. *)
Lemma strictly_sorted_ext (l1 l2 : list Z) :
  StronglySorted Z.lt l1 -> StronglySorted Z.lt l2 ->
  (forall x, In x l1 <-> In x l2) -> l1 = l2.
Proof.
  intros H1. revert l2.
  induction H1 as [| a l1 Hs1 IH Ha]; intros l2 H2 Hin.
  - destruct l2 as [| b l2]; [reflexivity |].
    exfalso. apply (proj2 (Hin b)). left. reflexivity.
  - destruct H2 as [| b l2 Hs2 Hb].
    + exfalso. apply (proj1 (Hin a)). left. reflexivity.
    + rewrite Forall_forall in Ha, Hb.
      assert (Hab : a = b).
      { destruct (proj1 (Hin a) (or_introl eq_refl)) as [E | Ea]; [auto |].
        destruct (proj2 (Hin b) (or_introl eq_refl)) as [E | Eb]; [auto |].
        specialize (Ha _ Eb). specialize (Hb _ Ea). lia. }
      subst b. f_equal. apply IH; [exact Hs2 |].
      intros x. split; intros Hx.
      * destruct (proj1 (Hin x) (or_intror Hx)) as [E | E]; [| exact E].
        subst x. specialize (Ha _ Hx). lia.
      * destruct (proj2 (Hin x) (or_intror Hx)) as [E | E]; [| exact E].
        subst x. specialize (Hb _ Hx). lia.
Qed.

Lemma group_keys_perm (ks ks' : list Z) :
  Permutation ks ks' -> group_keys ks = group_keys ks'.
Proof.
  intros HP. apply strictly_sorted_ext; try apply group_keys_sorted.
  intros x. rewrite !group_keys_In. split; apply Permutation_in;
    [exact HP | symmetry; exact HP].
Qed.

Lemma groupby_In (A : Type) (key : A -> Z) (df : list A) (k : Z)
    (g : list A) :
  In (k, g) (groupby key df) <->
  In k (map key df) /\ g = filter (fun r => key r =? k) df.
Proof.
  unfold groupby. rewrite in_map_iff. split.
  - intros (k' & [= <- <-] & Hk).
    apply (proj1 (group_keys_In _ _)) in Hk. auto.
  - intros (Hk & ->). exists k. split; [reflexivity |].
    apply group_keys_In. exact Hk.
Qed.

Lemma groupby_keys (A : Type) (key : A -> Z) (df : list A) :
  map fst (groupby key df) = group_keys (map key df).
Proof.
  unfold groupby. rewrite map_map. simpl. apply map_id.
Qed.

Lemma groupby_group_key (A : Type) (key : A -> Z) (df : list A) (k : Z)
    (g : list A) (r : A) :
  In (k, g) (groupby key df) -> In r g -> key r = k /\ In r df.
Proof.
  intros Hg Hr. apply groupby_In in Hg. destruct Hg as [_ ->].
  apply filter_In in Hr. destruct Hr as [Hr Hk].
  apply Z.eqb_eq in Hk. auto.
Qed.

End GroupbyFacts.

(** ** The aggregator *)

Section AggregatorFacts.

Context {SV : SortValues}.

Local Open Scope nat_scope.

Lemma compute_rolling_stats_default (group : list Labeled) :
  compute_rolling_stats group default_max_window = inr (player_rows group).
Proof. apply compute_rolling_stats_ok. unfold default_max_window. lia. Qed.

(** The loop never raises: it returns the generator output of the groups
    that qualify, in group order. *)
Lemma players_loop_spec (grouped : list (Z * list Labeled)) :
  players_loop grouped =
  inr (map (fun g => player_rows (snd g)) (filter qualifies grouped)).
Proof.
  induction grouped as [| [k group] rest IH]; [reflexivity |].
  cbn [players_loop filter]. unfold qualifies at 1. cbn [snd].
  destruct (length group <? 260); cbn [negb]; [exact IH |].
  rewrite compute_rolling_stats_default, IH. reflexivity.
Qed.

Lemma process_all_players_spec (data : list Event) :
  process_all_players data =
  match filter qualifies
          (groupby (fun r => batter (ev r)) (get_pa_outcomes data)) with
  | [] => inl (ValueError "No objects to concatenate")
  | gs => inr (dropna (concat (map (fun g => player_rows (snd g)) gs)))
  end.
Proof.
  unfold process_all_players. rewrite players_loop_spec. cbn [bind].
  destruct (filter qualifies _) as [| g gs]; reflexivity.
Qed.

(** The group of player [p] is the labeled list of the player's events. *)
Lemma group_of_player (data : list Event) (p : Z) :
  filter (fun r => (batter (ev r) =? p)%Z) (get_pa_outcomes data) =
  get_pa_outcomes (player_events p data).
Proof.
  unfold get_pa_outcomes, player_events.
  induction data as [| e data IH]; simpl; [reflexivity |].
  destruct (batter e =? p)%Z; simpl; rewrite IH; reflexivity.
Qed.

Lemma groupby_player (data : list Event) (p : Z) (g : list Labeled) :
  In (p, g) (groupby (fun r => batter (ev r)) (get_pa_outcomes data)) <->
  player_events p data <> [] /\ g = get_pa_outcomes (player_events p data).
Proof.
  rewrite groupby_In, group_of_player.
  assert (H : In p (map (fun r => batter (ev r)) (get_pa_outcomes data)) <->
              player_events p data <> []).
  { unfold get_pa_outcomes, player_events. rewrite map_map. simpl.
    rewrite in_map_iff. split.
    - intros (e & He & Hin) Hnil.
      assert (Hf : In e (filter (fun e => (batter e =? p)%Z) data)).
      { apply filter_In. split; [exact Hin | apply Z.eqb_eq; exact He]. }
      rewrite Hnil in Hf. contradiction.
    - intros Hne.
      destruct (filter (fun e => (batter e =? p)%Z) data) as [| e l] eqn:Hf;
        [contradiction |].
      assert (He : In e (filter (fun e => (batter e =? p)%Z) data))
        by (rewrite Hf; left; reflexivity).
      apply filter_In in He. destruct He as [Hin Hb].
      apply Z.eqb_eq in Hb. exists e. auto. }
  rewrite H. reflexivity.
Qed.

Lemma filter_map_swap (A B : Type) (f : B -> bool) (g : A -> B) (l : list A) :
  filter f (map g l) = map g (filter (fun x => f (g x)) l).
Proof.
  induction l as [| x l IH]; simpl; [reflexivity |].
  destruct (f (g x)); simpl; rewrite IH; reflexivity.
Qed.

Lemma filter_none (A : Type) (f : A -> bool) (l : list A) :
  (forall x, In x l -> f x = false) -> filter f l = [].
Proof.
  induction l as [| x l IH]; intros H; simpl; [reflexivity |].
  rewrite (H x (or_introl eq_refl)). apply IH.
  intros y Hy. apply H. right. exact Hy.
Qed.

Lemma filter_all (A : Type) (f : A -> bool) (l : list A) :
  (forall x, In x l -> f x = true) -> filter f l = l.
Proof.
  induction l as [| x l IH]; intros H; simpl; [reflexivity |].
  rewrite (H x (or_introl eq_refl)). f_equal. apply IH.
  intros y Hy. apply H. right. exact Hy.
Qed.

Lemma filter_sorted (f : Z -> bool) (l : list Z) :
  StronglySorted Z.lt l -> StronglySorted Z.lt (filter f l).
Proof.
  induction 1 as [| x l Hs IH Hall]; simpl; [constructor |].
  destruct (f x); [| exact IH].
  constructor; [exact IH |].
  apply Forall_forall. intros y Hy. apply filter_In in Hy.
  rewrite Forall_forall in Hall. apply Hall. tauto.
Qed.

Lemma qualifies_group (data : list Event) (k : Z) (g : list Labeled) :
  In (k, g) (groupby (fun r => batter (ev r)) (get_pa_outcomes data)) ->
  qualifies (k, g) = (260 <=? length (player_events k data)).
Proof.
  intros Hg. apply groupby_player in Hg. destruct Hg as [_ ->].
  unfold qualifies, get_pa_outcomes. cbn [snd]. rewrite length_map.
  rewrite Nat.ltb_antisym, negb_involutive. reflexivity.
Qed.

Lemma filter_twice (A : Type) (f g : A -> bool) (l : list A) :
  filter f (filter g l) = filter (fun x => f x && g x) l.
Proof.
  induction l as [| x l IH]; simpl; [reflexivity |].
  destruct (g x); simpl; rewrite ?andb_true_r, ?andb_false_r.
  - destruct (f x); rewrite IH; reflexivity.
  - exact IH.
Qed.

Lemma player_events_without_short (data : list Event) (k : Z) :
  player_events k (without_short_players data) =
  if 260 <=? length (player_events k data) then player_events k data else [].
Proof.
  unfold without_short_players, player_events at 1.
  rewrite filter_twice.
  destruct (260 <=? length (player_events k data)) eqn:Hq.
  - unfold player_events. apply filter_ext_in. intros e He.
    destruct (batter e =? k)%Z eqn:Hb; [| reflexivity].
    apply Z.eqb_eq in Hb. rewrite Hb. fold (player_events k data).
    rewrite Hq. reflexivity.
  - apply filter_none. intros e He.
    destruct (batter e =? k)%Z eqn:Hb; [| reflexivity].
    apply Z.eqb_eq in Hb. rewrite Hb. rewrite Hq. reflexivity.
Qed.

(** Skipping a short player is the same as not having the player in the
    data: the groups that qualify are those of the data without the short
    players. *)
Lemma qualifying_groups_without_short (data : list Event) :
  filter qualifies (groupby (fun r => batter (ev r)) (get_pa_outcomes data)) =
  filter qualifies
    (groupby (fun r => batter (ev r))
       (get_pa_outcomes (without_short_players data))).
Proof.
  set (key := fun r : Labeled => batter (ev r)).
  assert (Hq : forall d k,
             In k (group_keys (map key (get_pa_outcomes d))) ->
             qualifies (k, filter (fun r => (key r =? k)%Z) (get_pa_outcomes d))
             = (260 <=? length (player_events k d))).
  { intros d k Hk. apply qualifies_group. apply groupby_In.
    split; [| reflexivity].
    apply (proj1 (group_keys_In _ _)) in Hk. exact Hk. }
  unfold groupby. rewrite !filter_map_swap.
  set (ks := group_keys (map key (get_pa_outcomes data))).
  set (ks' := group_keys (map key (get_pa_outcomes (without_short_players data)))).
  assert (Hks : filter (fun k => 260 <=? length (player_events k data)) ks = ks').
  { apply strictly_sorted_ext.
    - apply filter_sorted. apply group_keys_sorted.
    - apply group_keys_sorted.
    - intros k. rewrite filter_In. unfold ks, ks'.
      rewrite !group_keys_In. unfold key, get_pa_outcomes.
      rewrite !map_map. simpl. rewrite !in_map_iff. split.
      + intros ((e & He & Hin) & Hk). exists e. split; [exact He |].
        unfold without_short_players. apply filter_In. split; [exact Hin |].
        rewrite He. exact Hk.
      + intros (e & He & Hin). unfold without_short_players in Hin.
        apply filter_In in Hin. destruct Hin as [Hin Hk].
        rewrite He in Hk. split; [exists e; auto | exact Hk]. }
  rewrite (filter_ext_in _ (fun k => 260 <=? length (player_events k data)) ks)
    by (intros k Hk; apply Hq; exact Hk).
  rewrite (filter_all _ ks').
  - rewrite Hks. apply map_ext_in. intros k Hk. f_equal.
    fold key. unfold key at 1 2. rewrite !group_of_player.
    rewrite player_events_without_short.
    rewrite <- Hks in Hk. apply filter_In in Hk. destruct Hk as [_ Hk].
    rewrite Hk. reflexivity.
  - intros k Hk. rewrite Hq by exact Hk.
    rewrite player_events_without_short.
    rewrite <- Hks in Hk. apply filter_In in Hk. destruct Hk as [_ Hk].
    rewrite Hk. exact Hk.
Qed.

(** C9. When every player has fewer than 260 events the aggregator does not
    return a table: the call raises the error of concatenating nothing.
    When some player has at least 260 it returns a table, and that table is
    the one it returns on the data without the short players: a short
    player is skipped and nothing else. *)
Theorem C9_empty_result (data : list Event) :
  ((forall p, length (player_events p data) < 260) ->
   process_all_players data = inl (ValueError "No objects to concatenate"))
  /\ ((exists p, 260 <= length (player_events p data)) ->
      exists table,
        process_all_players data = inr table
        /\ process_all_players (without_short_players data) = inr table).
Proof.
  split.
  - intros Hshort. rewrite process_all_players_spec.
    rewrite filter_none; [reflexivity |].
    intros [k g] Hg. rewrite (qualifies_group data k g Hg).
    apply Nat.leb_gt. apply Hshort.
  - intros (p & Hp).
    rewrite !process_all_players_spec.
    rewrite <- qualifying_groups_without_short.
    destruct (filter qualifies _) as [| g gs] eqn:Hf.
    + exfalso.
      assert (Hin : In (p, get_pa_outcomes (player_events p data))
                      (filter qualifies
                         (groupby (fun r => batter (ev r))
                            (get_pa_outcomes data)))).
      { assert (Hg : In (p, get_pa_outcomes (player_events p data))
                        (groupby (fun r => batter (ev r))
                           (get_pa_outcomes data))).
        { apply groupby_player. split; [| reflexivity].
          intros Hnil. rewrite Hnil in Hp. simpl in Hp. lia. }
        apply filter_In. split; [exact Hg |].
        rewrite (qualifies_group data _ _ Hg). apply Nat.leb_le. exact Hp. }
      rewrite Hf in Hin. contradiction.
    + eexists. split; reflexivity.
Qed.

End AggregatorFacts.

(** ** Counting the rows of a pass *)

Section PassFacts.

Local Open Scope nat_scope.

(** The pass for window size [W], row by row. *)
Lemma window_frame_indexed (tl : list Labeled) (W : nat) :
  1 <= W ->
  window_frame tl W =
  map (fun c => expected_row tl W (fst c) (snd c))
      (combine (seq 0 (length tl)) tl).
Proof.
  intros HW. apply nth_error_ext. intros i.
  destruct (nth_error tl i) as [r |] eqn:Hr.
  - rewrite (@window_frame_nth tl W i r HW Hr).
    assert (Hi : i < length tl) by (apply nth_error_Some; congruence).
    symmetry.
    rewrite (map_nth_error _ _ _ (d := (i, r))); [reflexivity |].
    apply nth_error_combine; [| exact Hr].
    rewrite nth_error_seq. apply Nat.ltb_lt in Hi. rewrite Hi. reflexivity.
  - apply nth_error_None in Hr.
    transitivity (@None Row); [| symmetry]; apply nth_error_None.
    + rewrite window_frame_length. exact Hr.
    + rewrite length_map, length_combine, length_seq. lia.
Qed.

Lemma window_frame_In (tl : list Labeled) (W : nat) (r : Row) :
  1 <= W -> In r (window_frame tl W) ->
  exists i e, nth_error tl i = Some e /\ r = expected_row tl W i e.
Proof.
  intros HW Hin. apply In_nth_error in Hin. destruct Hin as [i Hi].
  assert (Hlt : i < length tl).
  { rewrite <- (window_frame_length tl W). apply nth_error_Some. congruence. }
  destruct (nth_error tl i) as [e |] eqn:He;
    [| apply nth_error_None in He; lia].
  exists i, e. split; [exact He |].
  rewrite (@window_frame_nth tl W i e HW He) in Hi. congruence.
Qed.

Lemma count_interval (a b n : nat) :
  length (filter (fun i => (a <=? i) && (i <? b)) (seq 0 n)) = Nat.min n b - a.
Proof.
  induction n as [| n IH]; [reflexivity |].
  rewrite seq_S, filter_app, length_app, IH. cbn [Nat.add filter].
  destruct (Nat.leb_spec a n); destruct (Nat.ltb_spec n b);
    cbn [andb length]; lia.
Qed.

Lemma map_fst_indexed (A : Type) (l : list A) (s : nat) :
  map fst (combine (seq s (length l)) l) = seq s (length l).
Proof.
  revert s. induction l as [| x l IH]; intros s; simpl; [reflexivity |].
  rewrite IH. reflexivity.
Qed.

Lemma map_snd_indexed (A : Type) (l : list A) (s : nat) :
  map snd (combine (seq s (length l)) l) = l.
Proof.
  revert s. induction l as [| x l IH]; intros s; simpl; [reflexivity |].
  rewrite IH. reflexivity.
Qed.

(** Counting the rows of the pass whose position satisfies [P]. *)
Lemma count_rows (tl : list Labeled) (W : nat) (f : Row -> bool)
    (P : nat -> bool) :
  1 <= W ->
  (forall i e, nth_error tl i = Some e -> f (expected_row tl W i e) = P i) ->
  length (filter f (window_frame tl W)) =
  length (filter P (seq 0 (length tl))).
Proof.
  intros HW Hf. rewrite (@window_frame_indexed tl W HW).
  rewrite filter_map_swap, length_map.
  rewrite (filter_ext_in _ (fun c => P (fst c))).
  - rewrite <- (length_map fst), <- filter_map_swap.
    rewrite map_fst_indexed. reflexivity.
  - intros [i e] Hin. simpl. apply Hf.
    apply In_nth_error in Hin. destruct Hin as [k Hk].
    assert (Hk' := Hk).
    apply (f_equal (option_map fst)) in Hk.
    apply (f_equal (option_map snd)) in Hk'.
    rewrite <- !nth_error_map in Hk, Hk'.
    rewrite map_fst_indexed in Hk. rewrite map_snd_indexed in Hk'.
    simpl in Hk, Hk'. rewrite nth_error_seq in Hk.
    destruct (k <? length tl); [| discriminate].
    simpl in Hk. injection Hk as <-. exact Hk'.
Qed.

Lemma window_frame_window (tl : list Labeled) (w : nat) (r : Row) :
  In r (window_frame tl w) -> rolling_window r = w.
Proof.
  unfold window_frame. intros Hin. apply in_map_iff in Hin.
  destruct Hin as ([e [a [o [s [h [b t]]]]]] & <- & _). reflexivity.
Qed.

Lemma window_frame_player (tl : list Labeled) (w : nat) (r : Row) :
  In r (window_frame tl w) ->
  exists e, In e tl /\ player_id r = batter (ev e).
Proof.
  unfold window_frame. intros Hin. apply in_map_iff in Hin.
  destruct Hin as ([e [a [o [s [h [b t]]]]]] & <- & Hc).
  apply in_combine_l in Hc. exists e. auto.
Qed.

(** Selecting one window size from the concatenated passes gives back the
    pass. *)
Lemma pass_rows_concat (tl : list Labeled) (W : nat) (ws : list nat) :
  NoDup ws -> In W ws ->
  pass_rows W (concat (map (window_frame tl) ws)) = window_frame tl W.
Proof.
  unfold pass_rows.
  assert (Hother : forall ws', ~ In W ws' ->
            filter (fun r => rolling_window r =? W)
                   (concat (map (window_frame tl) ws')) = []).
  { intros ws' Hn. apply filter_none. intros r Hr.
    apply in_concat in Hr. destruct Hr as (l & Hl & Hr).
    apply in_map_iff in Hl. destruct Hl as (w & <- & Hw).
    apply window_frame_window in Hr. apply Nat.eqb_neq.
    intros HE. apply Hn. rewrite <- HE, Hr. exact Hw. }
  induction 1 as [| w ws' Hw Hnd IH]; intros Hin; [contradiction |].
  simpl. rewrite filter_app.
  destruct (Nat.eq_dec w W) as [-> | Hne].
  - rewrite (Hother ws' Hw), app_nil_r. apply filter_all.
    intros r Hr. apply window_frame_window in Hr. apply Nat.eqb_eq. exact Hr.
  - destruct Hin as [-> | Hin]; [contradiction |].
    rewrite (IH Hin).
    rewrite filter_none; [reflexivity |].
    intros r Hr. apply window_frame_window in Hr. apply Nat.eqb_neq.
    congruence.
Qed.

Lemma count_from (a n : nat) :
  length (filter (fun i => a <=? i) (seq 0 n)) = n - a.
Proof.
  rewrite (filter_ext_in _ (fun i => (a <=? i) && (i <? n))).
  - rewrite count_interval. lia.
  - intros i Hi. apply in_seq in Hi.
    replace (i <? n) with true by (symmetry; apply Nat.ltb_lt; lia).
    rewrite andb_true_r. reflexivity.
Qed.

Lemma count_before_last (n : nat) :
  length (filter (fun i => i + 1 <? n) (seq 0 n)) = n - 1.
Proof.
  rewrite (filter_ext _ (fun i => (0 <=? i) && (i <? n - 1))).
  - rewrite count_interval. lia.
  - intros i. simpl.
    destruct (Nat.ltb_spec (i + 1) n); destruct (Nat.ltb_spec i (n - 1));
      try reflexivity; lia.
Qed.

(** The defined cells of a column of a pass, counted by position. *)
Lemma count_defined_column (A : Type) (tl : list Labeled) (W : nat)
    (col : Row -> option A) (P : nat -> bool) :
  1 <= W ->
  (forall i e, nth_error tl i = Some e ->
               is_some (col (expected_row tl W i e)) = P i) ->
  count_defined (map col (window_frame tl W)) =
  length (filter P (seq 0 (length tl))).
Proof.
  intros HW Hcol. unfold count_defined.
  rewrite filter_map_swap, length_map.
  apply count_rows; assumption.
Qed.

Lemma is_some_if (A : Type) (b : bool) (x : A) :
  is_some (if b then Some x else None) = b.
Proof. destruct b; reflexivity. Qed.

(** C5. In the pass for window size [W] over a timeline of length [L], each
    rolling statistic is defined at [max(0, L - W + 1)] positions and each
    next-outcome target at [max(0, L - 1)] positions. *)
Theorem C5_window_support {SV : SortValues} (df : list Labeled)
    (max_window W : nat) :
  1 <= W <= max_window ->
  exists rows,
    compute_rolling_stats df max_window = inr rows
    /\ (let pass := pass_rows W rows in
        let L := Z.of_nat (length (timeline df)) in
        let rolling := Z.max 0 (L - Z.of_nat W + 1) in
        let target := Z.max 0 (L - 1) in
        Z.of_nat (count_defined (map rolling_avg pass)) = rolling
        /\ Z.of_nat (count_defined (map rolling_obp pass)) = rolling
        /\ Z.of_nat (count_defined (map rolling_slg pass)) = rolling
        /\ Z.of_nat (count_defined (map next_is_hit pass)) = target
        /\ Z.of_nat (count_defined (map next_is_on_base pass)) = target
        /\ Z.of_nat (count_defined (map next_total_bases pass)) = target)%Z.
Proof.
  intros HW. eexists. split; [apply compute_rolling_stats_ok; lia |].
  cbv zeta.
  rewrite pass_rows_concat by (first [apply seq_NoDup | apply in_seq; lia]).
  assert (H1 : 1 <= W) by lia.
  rewrite !(@count_defined_column _ (timeline df) W _
              (fun i => W - 1 <=? i) H1)
    by (intros i e _; apply is_some_if).
  rewrite !(@count_defined_column _ (timeline df) W _
              (fun i => i + 1 <? length (timeline df)) H1)
    by (intros i e _; apply is_some_if).
  rewrite count_from, count_before_last.
  repeat split; lia.
Qed.

End PassFacts.

(** ** The rows of the unified table *)

Section TableFacts.

Context {SV : SortValues}.

Local Open Scope nat_scope.

Lemma sorted_NoDup (l : list Z) : StronglySorted Z.lt l -> NoDup l.
Proof.
  induction 1 as [| x l Hs IH Hall]; constructor; [| exact IH].
  intros Hin. rewrite Forall_forall in Hall. specialize (Hall x Hin). lia.
Qed.

Lemma NoDup_keys_filter (A : Type) (q : Z * A -> bool) (gs : list (Z * A)) :
  NoDup (map fst gs) -> NoDup (map fst (filter q gs)).
Proof.
  induction gs as [| g gs IH]; simpl; intros Hnd; [constructor |].
  inversion Hnd as [| x l Hn Hnd']; subst.
  destruct (q g); simpl; [| apply IH; exact Hnd'].
  constructor; [| apply IH; exact Hnd'].
  intros Hin. apply Hn. apply in_map_iff in Hin.
  destruct Hin as (g' & Hf & Hg'). apply filter_In in Hg'.
  apply in_map_iff. exists g'. tauto.
Qed.

Lemma concat_map_one (A B : Type) (H : Z * A -> list B) (gs : list (Z * A))
    (p : Z) (G : A) :
  NoDup (map fst gs) -> In (p, G) gs ->
  (forall k g, In (k, g) gs -> k <> p -> H (k, g) = []) ->
  concat (map H gs) = H (p, G).
Proof.
  induction gs as [| [k g] gs IH]; simpl; intros Hnd Hin Hoth;
    [contradiction |].
  inversion Hnd as [| x l Hn Hnd']; subst.
  destruct Hin as [[= -> ->] | Hin].
  - replace (concat (map H gs)) with (@nil B); [apply app_nil_r |].
    symmetry. apply concat_nil_Forall. apply Forall_forall.
    intros l Hl. apply in_map_iff in Hl. destruct Hl as ([k' g'] & <- & Hg').
    apply Hoth; [right; exact Hg' |].
    intros ->. apply Hn. apply in_map_iff. exists (p, g'). auto.
  - rewrite (Hoth k g (or_introl eq_refl)).
    + simpl. apply IH; [exact Hnd' | exact Hin |].
      intros k' g' Hg' Hk'. apply Hoth; [right; exact Hg' | exact Hk'].
    + intros ->. apply Hn. apply in_map_iff. exists (p, G). auto.
Qed.

(** Every row the generator returns for a group carries the group's
    player. *)
Lemma player_rows_player (data : list Event) (k : Z) (g : list Labeled)
    (r : Row) :
  In (k, g) (groupby (fun r => batter (ev r)) (get_pa_outcomes data)) ->
  In r (player_rows g) -> player_id r = k.
Proof.
  intros Hg Hr. unfold player_rows in Hr.
  apply in_concat in Hr. destruct Hr as (l & Hl & Hr).
  apply in_map_iff in Hl. destruct Hl as (w & <- & _).
  apply window_frame_player in Hr. destruct Hr as (e & He & ->).
  unfold timeline in He.
  apply (Permutation_in _ (sort_values_perm g)) in He.
  destruct (@groupby_group_key _ _ _ _ _ _ Hg He) as [Hk _]. exact Hk.
Qed.

Lemma rows_of_dropna (p : Z) (W : nat) (X : list Row) :
  rows_of p W (dropna X) = dropna (rows_of p W X).
Proof.
  unfold rows_of, dropna. rewrite !filter_twice.
  apply filter_ext. intros r. apply andb_comm.
Qed.

(** The complete rows of a pass are those of the positions
    [W - 1 .. L - 2]. *)
Lemma dropna_pass_length (tl : list Labeled) (W : nat) :
  1 <= W -> length (dropna (window_frame tl W)) = length tl - W.
Proof.
  intros HW. unfold dropna.
  rewrite (@count_rows tl W complete_row
             (fun i => (W - 1 <=? i) && (i + 1 <? length tl)) HW).
  - rewrite (filter_ext _ (fun i => (W - 1 <=? i) && (i <? length tl - 1))).
    + rewrite count_interval. lia.
    + intros i. f_equal.
      destruct (Nat.ltb_spec (i + 1) (length tl));
        destruct (Nat.ltb_spec i (length tl - 1)); try reflexivity; lia.
  - intros i e _. unfold complete_row, expected_row; simpl.
    destruct (W - 1 <=? i); destruct (i + 1 <? length tl); reflexivity.
Qed.

(** The rows of a player with [L >= 260] events, for one window size: the
    complete rows of that pass over the player's timeline. *)
Lemma rows_of_qualifying (data : list Event) (p : Z) (W : nat) :
  260 <= length (player_events p data) -> 1 <= W <= default_max_window ->
  exists table,
    process_all_players data = inr table
    /\ rows_of p W table =
       dropna (window_frame
                 (timeline (get_pa_outcomes (player_events p data))) W).
Proof.
  intros Hp HW. rewrite process_all_players_spec.
  set (grouped := groupby (fun r => batter (ev r)) (get_pa_outcomes data)).
  set (G := get_pa_outcomes (player_events p data)).
  assert (Hg : In (p, G) grouped).
  { apply groupby_player. split; [| reflexivity].
    intros Hnil. rewrite Hnil in Hp. simpl in Hp. lia. }
  assert (Hq : In (p, G) (filter qualifies grouped)).
  { apply filter_In. split; [exact Hg |].
    rewrite (qualifies_group data _ _ Hg). apply Nat.leb_le. exact Hp. }
  assert (Hnd : NoDup (map fst (filter qualifies grouped))).
  { apply NoDup_keys_filter. unfold grouped. rewrite groupby_keys.
    apply sorted_NoDup, group_keys_sorted. }
  destruct (filter qualifies grouped) as [| g0 gs0] eqn:Hf;
    [contradiction |].
  eexists. split; [reflexivity |].
  rewrite <- Hf in *. clear Hf g0 gs0.
  rewrite rows_of_dropna. f_equal.
  unfold rows_of at 1. rewrite <- concat_filter_map, map_map.
  rewrite (@concat_map_one _ _ _ _ p G Hnd Hq).
  - cbn [snd].
    rewrite (filter_ext_in _ (fun r => rolling_window r =? W)).
    + apply pass_rows_concat; [apply seq_NoDup | apply in_seq; lia].
    + intros r Hr. rewrite (@player_rows_player data _ _ r Hg Hr).
      rewrite Z.eqb_refl. reflexivity.
  - intros k g Hkg Hk. cbn [snd]. apply filter_none. intros r Hr.
    apply filter_In in Hkg. destruct Hkg as [Hkg _].
    rewrite (@player_rows_player data _ _ r Hkg Hr).
    apply Z.eqb_neq in Hk. rewrite Hk. reflexivity.
Qed.

(** The rows of the table all come from players with at least 260 events
    and are complete. *)
Lemma table_row_origin (data : list Event) (r : Row) :
  In r (table_rows (process_all_players data)) ->
  complete_row r = true
  /\ exists g, 260 <= length (player_events (player_id r) data)
       /\ g = get_pa_outcomes (player_events (player_id r) data)
       /\ In r (player_rows g).
Proof.
  rewrite process_all_players_spec.
  set (grouped := groupby (fun r => batter (ev r)) (get_pa_outcomes data)).
  intros Hr.
  assert (Hin : In r (dropna (concat (map (fun g => player_rows (snd g))
                                        (filter qualifies grouped))))).
  { destruct (filter qualifies grouped); [contradiction | exact Hr]. }
  clear Hr. unfold dropna in Hin. apply filter_In in Hin.
  destruct Hin as [Hin Hc]. split; [exact Hc |].
  apply in_concat in Hin. destruct Hin as (l & Hl & Hin).
  apply in_map_iff in Hl. destruct Hl as ([k g] & <- & Hkg).
  apply filter_In in Hkg. destruct Hkg as [Hkg Hq]. cbn [snd] in Hin.
  rewrite (@player_rows_player data _ _ r Hkg Hin).
  rewrite (qualifies_group data _ _ Hkg) in Hq. apply Nat.leb_le in Hq.
  apply groupby_player in Hkg. destruct Hkg as [_ ->].
  eexists. split; [exact Hq |]. split; [reflexivity | exact Hin].
Qed.

(** C4. A player with exactly 259 events has no row in the unified table.
    A player with exactly 260 events has rows in it: of the 260 rows of the
    pass for window size 1, whose rolling statistics are all defined, the
    259 before the final position carry a target and are kept. *)
Theorem C4_exclusion_threshold (data : list Event) (p : Z) :
  (length (player_events p data) = 259 ->
   filter (fun r => (player_id r =? p)%Z)
          (table_rows (process_all_players data)) = [])
  /\ (length (player_events p data) = 260 ->
      exists table,
        process_all_players data = inr table
        /\ length (rows_of p 1 table) = 259
        /\ 1 <= length (filter (fun r => (player_id r =? p)%Z) table)).
Proof.
  split.
  - intros Hp. apply filter_none. intros r Hr.
    apply table_row_origin in Hr. destruct Hr as (_ & g & Hlen & _).
    apply Z.eqb_neq. intros E. rewrite E in Hlen. lia.
  - intros Hp.
    destruct (@rows_of_qualifying data p 1) as (table & Ht & Hrows);
      [lia | unfold default_max_window; lia |].
    exists table. split; [exact Ht |].
    assert (Hlen : length (rows_of p 1 table) = 259).
    { rewrite Hrows, dropna_pass_length by lia.
      unfold timeline. rewrite (Permutation_length (sort_values_perm _)).
      unfold get_pa_outcomes. rewrite length_map, Hp. reflexivity. }
    split; [exact Hlen |].
    unfold rows_of in Hlen. rewrite <- filter_twice in Hlen.
    pose proof (filter_length_le (fun r => rolling_window r =? 1)
                  (filter (fun r => (player_id r =? p)%Z) table)) as Hle.
    rewrite filter_twice in Hle.
    rewrite (filter_ext _ (fun r => (player_id r =? p)%Z
                                    && (rolling_window r =? 1)))
      in Hle by (intros r; apply andb_comm).
    rewrite filter_twice in Hlen.
    lia.
Qed.

(** *** Ranges of the rolling statistics *)

Lemma label_bounds (e : Event) :
  (0 <= is_hit (label e) <= 1
   /\ is_hit (label e) <= is_on_base (label e) <= 1
   /\ 0 <= total_bases (label e) <= 4)%Z.
Proof.
  destruct (total_bases_cases e) as [C | [C | [C | [C | C]]]];
    destruct C as [_ ->];
    unfold label; simpl;
    destruct (isin_on_base_events (events e)) as [Ho1 Ho2];
    destruct (isin_hit_events (events e)) as [Hh1 Hh2];
    destruct (isin hit_events (events e)) eqn:Hh;
    destruct (isin on_base_events (events e)) eqn:Ho; simpl;
    try lia;
    exfalso; specialize (Hh1 eq_refl);
    assert (Hf : false = true) by (apply Ho2; left; exact Hh1);
    discriminate.
Qed.

Lemma zsum_map_le (f g : nat -> Z) (l : list nat) :
  (forall j, (f j <= g j)%Z) -> (zsum (map f l) <= zsum (map g l))%Z.
Proof.
  intros H. induction l as [| j l IH]; simpl; [lia |].
  specialize (H j). lia.
Qed.

Lemma zsum_map_const (c : Z) (l : list nat) :
  zsum (map (fun _ => c) l) = (c * Z.of_nat (length l))%Z.
Proof.
  induction l as [| j l IH]; [simpl; lia |].
  cbn [map zsum fold_right length]. fold (zsum (map (fun _ => c) l)).
  rewrite IH. lia.
Qed.

Lemma Zpos_of_nat (W : nat) : 1 <= W -> Z.pos (Pos.of_nat W) = Z.of_nat W.
Proof.
  intros HW. rewrite <- positive_nat_Z, Nat2Pos.id by lia. reflexivity.
Qed.

(** A trailing mean lies between the bounds of the cells, and is monotone
    in the column. *)
Lemma trailing_mean_bounds (values : list Z) (lo hi : Z) (W i : nat) :
  1 <= W -> (lo <= 0 <= hi)%Z ->
  Forall (fun v => (lo <= v <= hi)%Z) values ->
  (inject_Z lo <= trailing_mean values W i <= inject_Z hi)%Q.
Proof.
  intros HW H0 Hall. unfold trailing_mean, Qle, inject_Z; simpl.
  rewrite (Zpos_of_nat HW).
  assert (Hnth : forall j, (lo <= nth j values 0 <= hi)%Z).
  { intros j. destruct (nth_in_or_default j values 0%Z) as [Hin | ->];
      [| exact H0]. rewrite Forall_forall in Hall. apply Hall. exact Hin. }
  pose proof (zsum_map_le (fun _ => lo) (fun j => nth j values 0%Z)
                (seq (i + 1 - W) W) (fun j => proj1 (Hnth j))) as Hlo.
  pose proof (zsum_map_le (fun j => nth j values 0%Z) (fun _ => hi)
                (seq (i + 1 - W) W) (fun j => proj2 (Hnth j))) as Hhi.
  rewrite zsum_map_const, length_seq in Hlo, Hhi. lia.
Qed.

Lemma trailing_mean_le (A : Type) (f g : A -> Z) (l : list A) (W i : nat) :
  Forall (fun x => (f x <= g x)%Z) l ->
  (trailing_mean (map f l) W i <= trailing_mean (map g l) W i)%Q.
Proof.
  intros Hall. unfold trailing_mean, Qle; simpl.
  apply Z.mul_le_mono_nonneg_r; [lia |].
  apply zsum_map_le. intros j.
  destruct (Nat.lt_ge_cases j (length l)) as [Hj | Hj].
  - destruct (nth_error l j) as [x |] eqn:Hx;
      [| apply nth_error_None in Hx; lia].
    rewrite (nth_error_nth (map f l) j 0%Z (x := f x))
      by (rewrite nth_error_map, Hx; reflexivity).
    rewrite (nth_error_nth (map g l) j 0%Z (x := g x))
      by (rewrite nth_error_map, Hx; reflexivity).
    rewrite Forall_forall in Hall. apply Hall.
    eapply nth_error_In. exact Hx.
  - rewrite !nth_overflow by (rewrite length_map; lia). lia.
Qed.

(** The events of a timeline of the aggregator are labeled events. *)
Lemma group_labeled (data : list Event) (g : list Labeled) :
  g = get_pa_outcomes data ->
  Forall (fun x => exists e, x = label e) (timeline g).
Proof.
  intros ->. apply Forall_forall. intros x Hx. unfold timeline in Hx.
  apply (Permutation_in _ (sort_values_perm _)) in Hx.
  unfold get_pa_outcomes in Hx. apply in_map_iff in Hx.
  destruct Hx as (e & <- & _). exists e. reflexivity.
Qed.

(** C10. Every row of the table the aggregator returns has its three
    rolling statistics, with [rolling_avg <= rolling_obp], [rolling_avg] and
    [rolling_obp] in [[0, 1]] and [rolling_slg] in [[0, 4]]. *)
Theorem C10_rolling_ranges (data : list Event) :
  Forall bounded_row (table_rows (process_all_players data)).
Proof.
  apply Forall_forall. intros r Hr.
  apply table_row_origin in Hr.
  destruct Hr as (Hc & g & _ & Hg & Hin).
  apply group_labeled in Hg.
  unfold player_rows in Hin. apply in_concat in Hin.
  destruct Hin as (l & Hl & Hin). apply in_map_iff in Hl.
  destruct Hl as (W & <- & HW). apply in_seq in HW.
  assert (H1 : 1 <= W) by lia.
  apply (@window_frame_In (timeline g) W r H1) in Hin.
  destruct Hin as (i & e & He & ->).
  unfold complete_row, expected_row in Hc; simpl in Hc.
  destruct (W - 1 <=? i) eqn:Hw; [| discriminate Hc]. clear Hc.
  unfold bounded_row, expected_row; simpl. rewrite Hw.
  do 3 eexists. do 3 (split; [reflexivity |]).
  assert (Hsig : Forall (fun x =>
              (0 <= is_hit x <= 1 /\ is_hit x <= is_on_base x <= 1
               /\ 0 <= total_bases x <= 4)%Z) (timeline g)).
  { eapply Forall_impl; [| exact Hg]. intros x (e0 & ->).
    apply label_bounds. }
  assert (Hcol : forall (f : Labeled -> Z) lo hi,
             (forall x, (0 <= is_hit x <= 1 /\ is_hit x <= is_on_base x <= 1
                         /\ 0 <= total_bases x <= 4)%Z ->
                        (lo <= f x <= hi)%Z) ->
             Forall (fun v => (lo <= v <= hi)%Z) (map f (timeline g))).
  { intros f lo hi Hf. apply Forall_map.
    eapply Forall_impl; [| exact Hsig]. intros x Hx. apply Hf. exact Hx. }
  split.
  - apply trailing_mean_le.
    eapply Forall_impl; [| exact Hsig]. intros x Hx. cbv beta in *. lia.
  - split; [| split].
    + apply (@trailing_mean_bounds _ 0 1 W i H1); [lia |].
      apply Hcol. intros x Hx. lia.
    + apply (@trailing_mean_bounds _ 0 1 W i H1); [lia |].
      apply Hcol. intros x Hx. lia.
    + apply (@trailing_mean_bounds _ 0 4 W i H1); [lia |].
      apply Hcol. intros x Hx. lia.
Qed.

End TableFacts.

(** ** The order of the timeline *)

Section TimelineFacts.

(** Quicksort on the two one-day frames: the single that comes first stays
    first, the single in second place ends up in place 163, behind walks
    that were recorded after it. *)
Example one_day_timelines :
  hit_places one_day_group = [0%nat]
  /\ hit_places (@timeline quicksort one_day_group) = [0%nat]
  /\ hit_places tied_day_group = [1%nat]
  /\ hit_places (@timeline quicksort tied_day_group) = [163%nat].
Proof. repeat split; vm_compute; reflexivity. Qed.

(** C6, as the spec has it, fails: 260 events of one player, all of one
    date, whose timeline under the default sort does not keep the events
    of that date in record order. *)
Lemma C6_stable_counterexample :
  (forall r, In r tied_day_group ->
             batter (ev r) = 7%Z /\ game_date (ev r) = 0%Z)
  /\ (260 <= length tied_day_group)%nat
  /\ same_date 0 (@timeline quicksort tied_day_group) <>
     same_date 0 tied_day_group.
Proof.
  split; [| split].
  - intros r Hr. unfold tied_day_group, get_pa_outcomes in Hr.
    apply in_map_iff in Hr. destruct Hr as (e & <- & He).
    destruct He as [<- | [<- | He]]; [split; reflexivity .. |].
    apply repeat_spec in He. subst e. split; reflexivity.
  - vm_compute. repeat constructor.
  - intros H. apply (f_equal hit_places) in H. vm_compute in H.
    discriminate H.
Qed.

(** C6, amended.  The timeline of every player the aggregator hands to the
    generator is ascending by date and holds exactly the labeled events of
    that player, each as often as the data has it.  When no two events of
    the player have the same date it is the timeline a stable sort gives;
    events of one date need not keep their record order. *)
Theorem C6_timeline_sorted (data : list Event) (p : Z)
    (group : list Labeled) :
  In (p, group) (groupby (fun r => batter (ev r)) (get_pa_outcomes data)) ->
  let tl := @timeline quicksort group in
  Sorted date_le tl
  /\ Permutation tl (get_pa_outcomes (player_events p data))
  /\ (NoDup (map (fun r => game_date (ev r)) group) ->
      tl = @timeline stable_sort group).
Proof.
  intros Hg. apply groupby_player in Hg. destruct Hg as [_ ->].
  cbv zeta. split; [| split].
  - unfold timeline. cbn [sort_values quicksort]. apply aquicksort_sorted.
  - unfold timeline. cbn [sort_values quicksort]. apply aquicksort_perm.
  - apply timeline_unique.
Qed.

End TimelineFacts.

(** ** The reducer *)

Section ReducerFacts.

Local Open Scope float_scope.

(** *** Special values of binary64 *)
















Lemma clip_nan (lo hi : float) : clip lo hi nan = nan.
Proof. reflexivity. Qed.














(** *** Order of the rows *)

Lemma filter_perm (A : Type) (f : A -> bool) (l1 l2 : list A) :
  Permutation l1 l2 -> Permutation (filter f l1) (filter f l2).
Proof.
  induction 1 as [| x l1 l2 HP IH | x y l | l1 l2 l3 H1 IH1 H2 IH2]; simpl.
  - constructor.
  - destruct (f x); [constructor |]; exact IH.
  - destruct (f x); destruct (f y); try reflexivity. apply perm_swap.
  - eapply Permutation_trans; eassumption.
Qed.

(** The reducer on the sample rows and on the same rows in reverse order:
    the sums run through the rows in another order, and [avg_corr] differs
    in the last bit (1 and 0.99999999999999989). *)
Example streak_rows_correlations :
  map avg_corr (compute_correlations streak_rows) = [1]
  /\ map avg_corr (compute_correlations (rev streak_rows)) =
     [0x1.fffffffffffffp-1].
Proof. split; vm_compute; reflexivity. Qed.

(** C7, as the spec has it, fails: a table and the same rows in reverse
    order, for which the reducer returns different [avg_corr] values for
    window size 2 (1 and 0.99999999999999989). *)
Lemma C7_order_counterexample :
  Permutation streak_rows (rev streak_rows)
  /\ compute_correlations streak_rows <>
     compute_correlations (rev streak_rows).
Proof.
  split.
  - apply Permutation_rev.
  - intros H.
    apply (f_equal (map (fun r => avg_corr r =? 1))) in H.
    vm_compute in H. discriminate H.
Qed.

(** C7, amended.  The reducer is a function of the table.  On two tables
    that hold the same rows in different orders it returns rows for the
    same window sizes, in the same order; and it returns the same
    correlation rows altogether when the rows of every window size come in
    the same relative order in both tables, however the window sizes are
    interleaved. *)
Theorem C7_same_order_same_rows (df1 df2 : list Row) :
  Permutation df1 df2 ->
  map window (compute_correlations df1) = map window (compute_correlations df2)
  /\ (same_group_order df1 df2 ->
      compute_correlations df1 = compute_correlations df2).
Proof.
  intros HP.
  pose proof (group_keys_perm
                (Permutation_map (fun r => Z.of_nat (rolling_window r)) HP))
    as Hk.
  unfold compute_correlations, groupby. rewrite !map_map. rewrite Hk. split.
  - apply map_ext. intros k. reflexivity.
  - intros Hs. apply map_ext. intros k. rewrite (Hs k). reflexivity.
Qed.

(** *** Degenerate groups *)







(** The reducer on three rows whose [rolling_avg] is 1/10 throughout: the
    float64 mean of the column (0.10000000000000002) is not the float64 of
    1/10 (0.10000000000000001), the centred values are not zero, and
    [avg_corr] is a number (-7.8504622934188758e-17). *)
Example constant_rows_correlations :
  map (fun r => float_of_Q (rolling_avg r)) constant_rows =
    [0x1.999999999999ap-4; 0x1.999999999999ap-4; 0x1.999999999999ap-4]
  /\ fmean (map (fun r => float_of_Q (rolling_avg r)) constant_rows) =
     0x1.999999999999bp-4
  /\ map avg_corr (compute_correlations constant_rows) =
     [-0x1.6a09e667f3bcdp-54].
Proof. repeat split; vm_compute; reflexivity. Qed.



End ReducerFacts.

(** ** The properties on sample data *)

Section Samples.

Local Open Scope nat_scope.

(** The numeric example of the spec: window size 3 over 1 0 1 1 0 0 1. *)
Example rolling_mean_sample :
  rolling_mean 3 (map is_hit sample_timeline) =
  [None; None; Some (2 # 3); Some (2 # 3); Some (2 # 3); Some (1 # 3);
   Some (1 # 3)]%Q.
Proof. reflexivity. Qed.

Example shift_sample :
  shift_m1 (map total_bases sample_timeline) =
  [Some 0; Some 2; Some 4; Some 0; Some 0; Some 3; None]%Z.
Proof. reflexivity. Qed.

Example short_player_sample :
  @process_all_players stable_sort sample_events =
  inl (ValueError "No objects to concatenate").
Proof. reflexivity. Qed.

Lemma C1_windowed_features_witness :
  exists rows r,
    @compute_rolling_stats stable_sort sample_timeline 3 = inr rows
    /\ nth_error (@timeline stable_sort sample_timeline) 2 = Some r
    /\ nth_error rows ((3 - 1) * length (@timeline stable_sort sample_timeline) + 2)
       = Some (expected_row (@timeline stable_sort sample_timeline) 3 2 r).
Proof.
  apply (@C1_windowed_features stable_sort sample_timeline 3 3 2).
  - lia.
  - vm_compute. lia.
Defined.

Lemma C4_exclusion_threshold_witness :
  filter (fun r => (player_id r =? 12)%Z)
         (table_rows (@process_all_players stable_sort (season 259))) = []
  /\ exists table,
       @process_all_players stable_sort (season 260) = inr table
       /\ length (rows_of 12 1 table) = 259
       /\ 1 <= length (filter (fun r => (player_id r =? 12)%Z) table).
Proof.
  split.
  - apply (proj1 (@C4_exclusion_threshold stable_sort (season 259) 12%Z)).
    vm_compute. reflexivity.
  - apply (proj2 (@C4_exclusion_threshold stable_sort (season 260) 12%Z)).
    vm_compute. reflexivity.
Defined.

Lemma C5_window_support_witness :
  exists rows,
    @compute_rolling_stats stable_sort sample_timeline 250 = inr rows
    /\ (let pass := pass_rows 3 rows in
        let L := Z.of_nat (length (@timeline stable_sort sample_timeline)) in
        let rolling := Z.max 0 (L - Z.of_nat 3 + 1) in
        let target := Z.max 0 (L - 1) in
        Z.of_nat (count_defined (map rolling_avg pass)) = rolling
        /\ Z.of_nat (count_defined (map rolling_obp pass)) = rolling
        /\ Z.of_nat (count_defined (map rolling_slg pass)) = rolling
        /\ Z.of_nat (count_defined (map next_is_hit pass)) = target
        /\ Z.of_nat (count_defined (map next_is_on_base pass)) = target
        /\ Z.of_nat (count_defined (map next_total_bases pass)) = target)%Z.
Proof.
  apply (@C5_window_support stable_sort sample_timeline 250 3). lia.
Defined.

Lemma C6_timeline_sorted_witness :
  Sorted date_le (@timeline quicksort sample_timeline)
  /\ Permutation (@timeline quicksort sample_timeline)
       (get_pa_outcomes (player_events 7 sample_events))
  /\ @timeline quicksort sample_timeline =
     @timeline stable_sort sample_timeline.
Proof.
  destruct (@C6_timeline_sorted sample_events 7%Z sample_timeline)
    as (Hs & Hp & Hu).
  - vm_compute. left. reflexivity.
  - split; [exact Hs |]. split; [exact Hp |]. apply Hu.
    repeat (constructor; [simpl; intuition discriminate |]). constructor.
Defined.

Lemma C7_same_order_same_rows_witness :
  map window (compute_correlations (constant_rows ++ streak_rows)) =
  map window (compute_correlations (streak_rows ++ constant_rows))
  /\ compute_correlations (constant_rows ++ streak_rows) =
     compute_correlations (streak_rows ++ constant_rows).
Proof.
  destruct (@C7_same_order_same_rows (constant_rows ++ streak_rows)
              (streak_rows ++ constant_rows)) as [Hw Hs].
  - apply Permutation_app_comm.
  - split; [exact Hw |]. apply Hs.
    intros w. rewrite !filter_app.
    destruct (Z.eq_dec w 2) as [-> | H2]; [reflexivity |].
    destruct (Z.eq_dec w 10) as [-> | H10]; [reflexivity |].
    unfold constant_rows, streak_rows. cbn [filter rolling_window app].
    replace (Z.of_nat 10 =? w)%Z with false
      by (symmetry; apply Z.eqb_neq; lia).
    replace (Z.of_nat 2 =? w)%Z with false
      by (symmetry; apply Z.eqb_neq; lia).
    reflexivity.
Defined.


Lemma C9_empty_result_witness :
  @process_all_players stable_sort sample_events =
    inl (ValueError "No objects to concatenate")
  /\ exists table,
       @process_all_players stable_sort (season 260 ++ sample_events)
       = inr table
       /\ @process_all_players stable_sort
            (without_short_players (season 260 ++ sample_events)) = inr table.
Proof.
  split.
  - apply (proj1 (@C9_empty_result stable_sort sample_events)).
    intros p. unfold player_events.
    eapply Nat.le_lt_trans; [apply filter_length_le |].
    vm_compute. lia.
  - apply (proj2 (@C9_empty_result stable_sort (season 260 ++ sample_events))).
    exists 12%Z. vm_compute. lia.
Defined.

(** The first row of the table of a season of 260 singles. *)
Example season_table_sample :
  hd_error (table_rows (@process_all_players stable_sort (season 260))) =
  Some (mkRow 12 0 1 (Some (1 # 1)) (Some (1 # 1)) (Some (1 # 1))
          (Some 1%Z) (Some 1%Z) (Some 1%Z))
  /\ Z.of_nat
       (length (table_rows (@process_all_players stable_sort (season 260))))
     = 33625%Z.
Proof. vm_compute. split; reflexivity. Qed.

End Samples.

Unset Implicit Arguments.

(** * Further properties of the code *)

(** ** The labeler and the generator *)

Section MoreGeneratorFacts.

Local Open Scope nat_scope.

(** X1. A plate appearance has a positive base count exactly when it is a
    hit, and it reaches base without a hit exactly on a walk or a
    hit_by_pitch; the three signals take no value outside 0/1, 0/1 and
    0..4. *)
Theorem X1_signals_consistent (e : Event) :
  ((0 < total_bases (label e))%Z <-> is_hit (label e) = 1%Z)
  /\ (is_on_base (label e) = 1%Z /\ is_hit (label e) = 0%Z <->
      events e = Some "walk"%string \/ events e = Some "hit_by_pitch"%string)
  /\ (is_hit (label e) = 0 \/ is_hit (label e) = 1)%Z
  /\ (is_on_base (label e) = 0 \/ is_on_base (label e) = 1)%Z
  /\ (0 <= total_bases (label e) <= 4)%Z.
Proof.
  destruct (is_hit_label e) as [Hh1 Hh0].
  destruct (is_on_base_label e) as [Ho1 Ho0].
  pose proof (label_bounds e) as (Hb1 & Hb2 & Hb3).
  assert (Hcases := total_bases_cases e).
  split; [| split; [| repeat split; try lia]].
  - split.
    + intros Hpos. apply Hh1.
      destruct Hcases as [C | [C | [C | [C | C]]]]; destruct C as [Hc Ht];
        unfold hit_category; try tauto. lia.
    + intros Hhit. apply Hh1 in Hhit.
      destruct Hcases as [C | [C | [C | [C | C]]]]; destruct C as [Hc Ht];
        try lia. contradiction.
  - split.
    + intros [Hob Hno]. apply Ho1 in Hob. apply Hh0 in Hno.
      destruct Hob as [Hob | Hob]; [contradiction | exact Hob].
    + intros Hw. split.
      * apply Ho1. right. exact Hw.
      * apply Hh0. unfold hit_category.
        destruct Hw as [Hw | Hw]; rewrite Hw;
          intros [H | [H | [H | H]]]; discriminate.
Qed.

(** X2. With window size 1 the rolling mean of a column is the column
    itself: every cell is present and holds the value of its row. *)
Theorem X2_window_one (values : list Z) :
  rolling_mean 1 values = map (fun v => Some (v # 1)) values.
Proof.
  apply nth_error_ext. intros i.
  destruct (Nat.lt_ge_cases i (length values)) as [Hi | Hi].
  - rewrite rolling_mean_nth by lia. rewrite nth_error_map.
    rewrite (nth_error_nth' values 0%Z Hi). simpl.
    unfold trailing_mean. replace (i + 1 - 1) with i by lia. simpl.
    rewrite Z.add_0_r. reflexivity.
  - transitivity (@None (option Q)); [| symmetry]; apply nth_error_None.
    + rewrite rolling_mean_length. exact Hi.
    + rewrite length_map. exact Hi.
Qed.

(** X3. A window longer than the column leaves every cell of the rolling
    mean missing. *)
Theorem X3_window_too_long (window : nat) (values : list Z) :
  length values < window ->
  rolling_mean window values = repeat None (length values).
Proof.
  intros HW. apply nth_error_ext. intros i.
  destruct (Nat.lt_ge_cases i (length values)) as [Hi | Hi].
  - rewrite rolling_mean_nth by lia.
    rewrite nth_error_repeat by exact Hi.
    replace (window - 1 <=? i) with false
      by (symmetry; apply Nat.leb_gt; lia).
    reflexivity.
  - transitivity (@None (option Q)); [| symmetry]; apply nth_error_None.
    + rewrite rolling_mean_length. exact Hi.
    + rewrite repeat_length. exact Hi.
Qed.

Lemma map_constant (A B : Type) (f : A -> B) (c : B) (l : list A) :
  (forall x, In x l -> f x = c) -> map f l = repeat c (length l).
Proof.
  induction l as [| x l IH]; intros H; simpl; [reflexivity |].
  rewrite (H x (or_introl eq_refl)). f_equal. apply IH.
  intros y Hy. apply H. right. exact Hy.
Qed.

Lemma window_frame_dates (tl : list Labeled) (W : nat) :
  1 <= W ->
  map row_game_date (window_frame tl W) = map (fun r => game_date (ev r)) tl
  /\ map player_id (window_frame tl W) = map (fun r => batter (ev r)) tl.
Proof.
  intros HW. rewrite (@window_frame_indexed tl W HW), !map_map.
  unfold expected_row; cbn [row_game_date player_id].
  split.
  - rewrite <- (map_map snd (fun r => game_date (ev r))).
    rewrite map_snd_indexed. reflexivity.
  - rewrite <- (map_map snd (fun r => batter (ev r))).
    rewrite map_snd_indexed. reflexivity.
Qed.

Lemma sorted_dates (tl : list Labeled) :
  Sorted date_le tl -> Sorted Z.le (map (fun r => game_date (ev r)) tl).
Proof.
  induction 1 as [| x l Hs IH Hhd]; simpl; constructor; [exact IH |].
  destruct Hhd as [| y l' Hxy]; simpl; constructor. exact Hxy.
Qed.

(** X4. The generator raises on [max_window = 0] (there is nothing to
    concatenate).  Otherwise it returns [max_window * L] rows, pass after
    pass in ascending window size, and every pass lists the events of the
    timeline in timeline order, hence in ascending date order, with their
    player. *)
Theorem X4_generator_shape {SV : SortValues} (df : list Labeled)
    (max_window : nat) :
  compute_rolling_stats df 0 =
    inl (ValueError "No objects to concatenate")
  /\ (1 <= max_window ->
      exists rows,
        compute_rolling_stats df max_window = inr rows
        /\ length rows = max_window * length df
        /\ map rolling_window rows =
           flat_map (fun W => repeat W (length df)) (seq 1 max_window)
        /\ forall W, 1 <= W <= max_window ->
             map row_game_date (pass_rows W rows) =
               map (fun r => game_date (ev r)) (timeline df)
             /\ map player_id (pass_rows W rows) =
               map (fun r => batter (ev r)) (timeline df)
             /\ Sorted Z.le (map row_game_date (pass_rows W rows))).
Proof.
  split; [reflexivity |]. intros Hm.
  eexists. split; [apply compute_rolling_stats_ok; exact Hm |].
  assert (HL : length (timeline df) = length df)
    by (apply Permutation_length, sort_values_perm).
  split; [| split].
  - rewrite <- HL. generalize (timeline df) as tl. intros tl.
    generalize 1 as s. clear Hm. induction max_window as [| m IH]; intros s;
      [reflexivity |].
    simpl. rewrite length_app, window_frame_length, IH. reflexivity.
  - rewrite <- HL. generalize (timeline df) as tl. intros tl.
    generalize 1 as s. clear Hm. induction max_window as [| m IH]; intros s;
      [reflexivity |].
    simpl. rewrite map_app, IH. f_equal.
    rewrite <- (window_frame_length tl s). apply map_constant.
    intros r Hr. eapply window_frame_window. exact Hr.
  - intros W HW.
    rewrite pass_rows_concat by (first [apply seq_NoDup | apply in_seq; lia]).
    destruct (@window_frame_dates (timeline df) W) as [Hd Hp]; [lia |].
    rewrite Hd, Hp. repeat split.
    apply sorted_dates. apply sort_values_sorted.
Qed.

End MoreGeneratorFacts.

(** ** The aggregator: sort kinds, size and shape of the table *)

Section MoreTableFacts.

Local Open Scope nat_scope.

Lemma player_events_dates (data : list Event) (k : Z) :
  NoDup (map (fun e => (batter e, game_date e)) data) ->
  NoDup (map game_date (player_events k data)).
Proof.
  unfold player_events.
  induction data as [| e data IH]; simpl; intros Hnd; [constructor |].
  inversion Hnd as [| ? ? Hn Hnd']; subst.
  destruct (batter e =? k)%Z eqn:Hb; [| apply IH; exact Hnd'].
  apply Z.eqb_eq in Hb. simpl. constructor; [| apply IH; exact Hnd'].
  intros Hin. apply Hn. apply in_map_iff in Hin.
  destruct Hin as (e' & Hd & He'). apply filter_In in He'.
  destruct He' as [He' Hb']. apply Z.eqb_eq in Hb'.
  apply in_map_iff. exists e'. split; [congruence | exact He'].
Qed.

(** X5. The sort kind matters only through ties: when no player has two
    events of the same date, the timeline of every group, the generator
    and the aggregator give the same result under every sort that meets
    the laws of [sort_values]. *)
Theorem X5_sort_kind_irrelevant (SV1 SV2 : SortValues) (data : list Event) :
  NoDup (map (fun e => (batter e, game_date e)) data) ->
  (forall p, @timeline SV1 (get_pa_outcomes (player_events p data)) =
             @timeline SV2 (get_pa_outcomes (player_events p data)))
  /\ @process_all_players SV1 data = @process_all_players SV2 data.
Proof.
  intros Hnd.
  assert (Htl : forall p,
             @timeline SV1 (get_pa_outcomes (player_events p data)) =
             @timeline SV2 (get_pa_outcomes (player_events p data))).
  { intros p. apply timeline_unique.
    unfold get_pa_outcomes. rewrite map_map. simpl.
    apply player_events_dates. exact Hnd. }
  split; [exact Htl |].
  rewrite !process_all_players_spec.
  set (gs := filter qualifies _).
  assert (Hrows : map (fun g => @player_rows SV1 (snd g)) gs =
                  map (fun g => @player_rows SV2 (snd g)) gs).
  { apply map_ext_in. intros [k g] Hg. cbn [snd].
    apply filter_In in Hg. destruct Hg as [Hg _].
    apply groupby_player in Hg. destruct Hg as [_ ->].
    unfold player_rows. rewrite Htl. reflexivity. }
  destruct gs as [| g0 gs0]; [reflexivity |].
  rewrite Hrows. reflexivity.
Qed.

(** The groups that pass the length test, by player. *)
Lemma qualifying_groups (data : list Event) :
  filter qualifies (groupby (fun r => batter (ev r)) (get_pa_outcomes data)) =
  map (fun k => (k, get_pa_outcomes (player_events k data)))
      (filter (fun k => 260 <=? length (player_events k data))
              (group_keys (map batter data))).
Proof.
  unfold groupby. rewrite filter_map_swap.
  assert (Hk : map (fun r => batter (ev r)) (get_pa_outcomes data)
               = map batter data).
  { unfold get_pa_outcomes. rewrite map_map. reflexivity. }
  rewrite Hk.
  rewrite (filter_ext (fun k => qualifies
                         (k, filter (fun r => (batter (ev r) =? k)%Z)
                               (get_pa_outcomes data)))
             (fun k => 260 <=? length (player_events k data))).
  - apply map_ext. intros k. rewrite group_of_player. reflexivity.
  - intros k. rewrite group_of_player. unfold qualifies, get_pa_outcomes.
    cbn [snd]. rewrite length_map, Nat.ltb_antisym, negb_involutive.
    reflexivity.
Qed.

Lemma length_filter_concat (A : Type) (f : A -> bool) (ls : list (list A)) :
  Z.of_nat (length (filter f (concat ls))) =
  zsum (map (fun l => Z.of_nat (length (filter f l))) ls).
Proof.
  induction ls as [| l ls IH]; [reflexivity |].
  cbn [concat map zsum fold_right]. fold (zsum (map (fun l => Z.of_nat (length (filter f l))) ls)).
  rewrite filter_app, length_app, Nat2Z.inj_add, IH. reflexivity.
Qed.

Lemma sum_of_passes (L n : nat) (s : nat) :
  s + n <= L + 1 ->
  (2 * zsum (map (fun W => Z.of_nat (L - W)) (seq s n)) =
   Z.of_nat n * (2 * Z.of_nat L - 2 * Z.of_nat s - Z.of_nat n + 1))%Z.
Proof.
  revert s. induction n as [| n IH]; intros s Hs; [simpl; lia |].
  cbn [seq map zsum fold_right].
  fold (zsum (map (fun W => Z.of_nat (L - W)) (seq (S s) n))).
  specialize (IH (S s)). nia.
Qed.

(** The complete rows of one player: [L - W] for every window size. *)
Lemma player_rows_complete {SV : SortValues} (g : list Labeled) :
  default_max_window <= length g ->
  Z.of_nat (length (dropna (player_rows g))) =
  (250 * Z.of_nat (length g) - 31375)%Z.
Proof.
  intros HL. unfold dropna, player_rows.
  rewrite length_filter_concat, map_map.
  rewrite (map_ext_in _ (fun W => Z.of_nat (length g - W))).
  - pose proof (@sum_of_passes (length g) default_max_window 1) as Hs.
    unfold default_max_window in *. lia.
  - intros W HW. apply in_seq in HW. f_equal.
    change (filter complete_row (window_frame (timeline g) W))
      with (dropna (window_frame (timeline g) W)).
    rewrite dropna_pass_length by lia.
    unfold timeline. rewrite (Permutation_length (sort_values_perm g)).
    reflexivity.
Qed.

(** X6. The size of the unified table: a player with [L >= 260] events
    contributes [250 * L - 31375] rows (one per window size [W] and position
    [W - 1 .. L - 2]), the other players none. *)
Theorem X6_table_size {SV : SortValues} (data : list Event) :
  Z.of_nat (length (table_rows (process_all_players data))) =
  zsum (map (fun p =>
               (250 * Z.of_nat (length (player_events p data)) - 31375)%Z)
            (filter (fun p => 260 <=? length (player_events p data))
                    (group_keys (map batter data)))).
Proof.
  rewrite process_all_players_spec, qualifying_groups.
  set (ps := filter _ (group_keys (map batter data))).
  assert (Hps : forall p, In p ps -> 260 <= length (player_events p data)).
  { intros p Hp. apply filter_In in Hp. apply Nat.leb_le. tauto. }
  assert (Hlen : Z.of_nat (length (dropna (concat
                   (map (fun g => player_rows (snd g))
                      (map (fun k => (k, get_pa_outcomes (player_events k data)))
                           ps))))) =
                 zsum (map (fun p =>
                    (250 * Z.of_nat (length (player_events p data)) - 31375)%Z)
                    ps)).
  { unfold dropna at 1. rewrite length_filter_concat, !map_map. cbn [snd].
    f_equal. apply map_ext_in. intros p Hp.
    change (filter complete_row (player_rows (get_pa_outcomes (player_events p data))))
      with (dropna (player_rows (get_pa_outcomes (player_events p data)))).
    rewrite player_rows_complete.
    - unfold get_pa_outcomes. rewrite length_map. reflexivity.
    - unfold get_pa_outcomes, default_max_window. rewrite length_map.
      specialize (Hps p Hp). lia. }
  destruct ps as [| p0 ps0]; [reflexivity |].
  exact Hlen.
Qed.

(** X7. Every row of the unified table has a window size in [1 .. 250], no
    missing cell, a player with at least 260 events, and as targets the
    three signals of one and the same event. *)
Theorem X7_table_rows_well_formed {SV : SortValues} (data : list Event) :
  Forall (fun r => well_formed_row r
                   /\ 260 <= length (player_events (player_id r) data))
         (table_rows (process_all_players data)).
Proof.
  apply Forall_forall. intros r Hr.
  apply table_row_origin in Hr.
  destruct Hr as (Hc & g & Hlen & Hg & Hin).
  split; [| exact Hlen].
  apply group_labeled in Hg.
  unfold player_rows in Hin. apply in_concat in Hin.
  destruct Hin as (l & Hl & Hin). apply in_map_iff in Hl.
  destruct Hl as (W & <- & HW). apply in_seq in HW.
  assert (H1 : 1 <= W) by lia.
  apply (@window_frame_In (timeline g) W r H1) in Hin.
  destruct Hin as (i & e & He & ->).
  unfold well_formed_row. split; [cbn [rolling_window expected_row]; lia |].
  split; [exact Hc |].
  unfold complete_row, expected_row in Hc; simpl in Hc.
  destruct (W - 1 <=? i); [| discriminate Hc].
  destruct (i + 1 <? length (timeline g)) eqn:Hi; [| discriminate Hc].
  apply Nat.ltb_lt in Hi.
  destruct (nth_error (timeline g) (i + 1)) as [x |] eqn:Hx;
    [| apply nth_error_None in Hx; lia].
  rewrite Forall_forall in Hg.
  destruct (Hg x (nth_error_In _ _ Hx)) as (e' & ->).
  exists e'. unfold expected_row; simpl.
  apply Nat.ltb_lt in Hi. rewrite Hi.
  repeat split; f_equal; apply nth_error_nth;
    rewrite nth_error_map, Hx; reflexivity.
Qed.

End MoreTableFacts.

(** ** More on the reducer and the presentation *)

Section MoreReducerFacts.

Lemma insert_key_length (k : Z) (ks : list Z) :
  (length (insert_key k ks) <= S (length ks))%nat.
Proof.
  induction ks as [| x ks IH]; simpl; [lia |].
  destruct (k <? x)%Z; [simpl; lia |].
  destruct (k =? x)%Z; simpl; lia.
Qed.

Lemma group_keys_length (ks : list Z) :
  (length (group_keys ks) <= length ks)%nat.
Proof.
  induction ks as [| k ks IH]; simpl; [lia |].
  pose proof (insert_key_length k (group_keys ks)). lia.
Qed.

Lemma correlation_windows (df : list Row) :
  map window (compute_correlations df) =
  group_keys (map (fun r => Z.of_nat (rolling_window r)) df).
Proof.
  unfold compute_correlations. rewrite map_map.
  rewrite <- groupby_keys. apply map_ext. intros [k g]. reflexivity.
Qed.

(** X8. The reducer returns one row per window size that occurs in the
    table, in strictly ascending order of window size, and nothing for the
    empty table. *)
Theorem X8_one_row_per_window (df : list Row) :
  StronglySorted Z.lt (map window (compute_correlations df))
  /\ (forall w, In w (map window (compute_correlations df)) <->
                exists r, In r df /\ Z.of_nat (rolling_window r) = w)
  /\ (length (compute_correlations df) <= length df)%nat
  /\ compute_correlations [] = [].
Proof.
  rewrite correlation_windows. split; [apply group_keys_sorted |].
  split; [| split; [| reflexivity]].
  - intros w. rewrite group_keys_In, in_map_iff. split.
    + intros (r & Hw & Hr). exists r. auto.
    + intros (r & Hr & Hw). exists r. auto.
  - rewrite <- (length_map window), correlation_windows.
    rewrite <- (length_map (fun r => Z.of_nat (rolling_window r)) df).
    apply group_keys_length.
Qed.

Lemma seq_strictly_sorted (s n : nat) :
  StronglySorted Z.lt (map Z.of_nat (seq s n)).
Proof.
  revert s. induction n as [| n IH]; intros s; simpl; constructor.
  - apply IH.
  - apply Forall_forall. intros z Hz. apply in_map_iff in Hz.
    destruct Hz as (k & <- & Hk). apply in_seq in Hk. lia.
Qed.

(** The window sizes of the unified table: all of [1 .. 250], as soon as
    one player qualifies. *)
Lemma table_windows {SV : SortValues} (data : list Event) :
  (exists p, (260 <= length (player_events p data))%nat) ->
  group_keys (map (fun r => Z.of_nat (rolling_window r))
                  (table_rows (process_all_players data))) =
  map Z.of_nat (seq 1 default_max_window).
Proof.
  intros (p & Hp). apply strictly_sorted_ext.
  - apply group_keys_sorted.
  - apply seq_strictly_sorted.
  - intros w. rewrite group_keys_In, !in_map_iff. split.
    + intros (r & Hw & Hr). exists (rolling_window r). split; [exact Hw |].
      apply table_row_origin in Hr. destruct Hr as (_ & g & _ & _ & Hin).
      unfold player_rows in Hin. apply in_concat in Hin.
      destruct Hin as (l & Hl & Hin). apply in_map_iff in Hl.
      destruct Hl as (W & <- & HW).
      apply window_frame_window in Hin. rewrite Hin. exact HW.
    + intros (W & <- & HW). apply in_seq in HW.
      destruct (@rows_of_qualifying SV data p W Hp) as (table & Ht & Hrows);
        [lia |].
      rewrite Ht. cbn [table_rows].
      assert (Hlen : length (rows_of p W table)
                     = (length (player_events p data) - W)%nat).
      { rewrite Hrows, dropna_pass_length by lia.
        unfold timeline. rewrite (Permutation_length (sort_values_perm _)).
        unfold get_pa_outcomes. rewrite length_map. reflexivity. }
      destruct (rows_of p W table) as [| r rs] eqn:Hr.
      * simpl in Hlen. unfold default_max_window in HW. lia.
      * assert (Hin : In r (rows_of p W table))
          by (rewrite Hr; left; reflexivity).
        unfold rows_of in Hin. apply filter_In in Hin.
        destruct Hin as [Hin Hc]. apply andb_true_iff in Hc.
        destruct Hc as [_ Hc]. apply Nat.eqb_eq in Hc.
        exists r. split; [congruence | exact Hin].
Qed.

(** X9. When some player has at least 260 events, the reducer applied to
    the table of the aggregator returns exactly 250 rows, for the window
    sizes 1, 2, ..., 250 in this order. *)
Theorem X9_pipeline_windows {SV : SortValues} (data : list Event) :
  (exists p, (260 <= length (player_events p data))%nat) ->
  map window (compute_correlations (table_rows (process_all_players data))) =
  map Z.of_nat (seq 1 250).
Proof.
  intros Hp. rewrite correlation_windows. apply (table_windows data Hp).
Qed.

Local Open Scope float_scope.


Local Close Scope float_scope.
Local Open Scope Z_scope.

(** A table in ascending window order splits at a threshold into the rows
    up to it followed by the rows above it. *)
Lemma split_sorted_windows (c : Z) (df : list CorrelationRow) :
  StronglySorted Z.lt (map window df) ->
  filter (fun r => window r <=? c) df ++ filter (fun r => window r >=? c + 1) df
  = df.
Proof.
  induction df as [| r df IH]; intros Hs; [reflexivity |].
  simpl in Hs. inversion Hs as [| ? ? Hs' Hall]; subst.
  cbn [filter].
  destruct (Z.leb_spec (window r) c) as [Hle | Hgt].
  - replace (window r >=? c + 1) with false
      by (symmetry; rewrite Z.geb_leb; apply Z.leb_gt; lia).
    simpl. rewrite (IH Hs'). reflexivity.
  - replace (window r >=? c + 1) with true
      by (symmetry; rewrite Z.geb_leb; apply Z.leb_le; lia).
    rewrite (@filter_none _ (fun r0 => window r0 <=? c) df).
    + rewrite (@filter_all _ (fun r0 => window r0 >=? c + 1) df);
        [reflexivity |].
      intros r' Hr'. rewrite Forall_forall in Hall.
      specialize (Hall (window r') (in_map window df r' Hr')).
      rewrite Z.geb_leb. apply Z.leb_le. lia.
    + intros r' Hr'. rewrite Forall_forall in Hall.
      specialize (Hall (window r') (in_map window df r' Hr')).
      apply Z.leb_gt. lia.
Qed.

Lemma plot_table_with_rows (df : list CorrelationRow) :
  df <> [] ->
  plot_correlation_graphs df =
  inr [ make_plot df (1, 250)%Z
          "Correlation vs Rolling Window (1–250)" "correlation_1_250.png";
        make_plot (filter (fun r => (window r <=? 10)%Z) df) (1, 10)%Z
          "Correlation vs Rolling Window (1–10)" "correlation_1_10.png";
        make_plot (filter (fun r => (window r >=? 11)%Z) df) (11, 250)%Z
          "Correlation vs Rolling Window (11–250)" "correlation_11_250.png" ].
Proof. destruct df; [contradiction | reflexivity]. Qed.

(** X11. What [plot_correlation_graphs] does with a correlation table made
    by the reducer.  From a table without rows the reducer makes a frame
    without columns, and plotting ends in [KeyError: 'window'] with nothing
    saved.  From a table with rows it saves three plots: the whole table,
    and the two sub-range plots, which split it: the rows of window size up
    to 10 followed by the rows of window size from 11 are the rows of the
    table, in its order.  The rows of either sub-range plot lie within
    1..10, respectively from 11 on. *)
Theorem X11_plots_split_table (table : list Row) :
  (table = [] ->
   plot_correlation_graphs (compute_correlations table) =
   inl (KeyError "window"))
  /\ (table <> [] ->
      exists plots low high,
        plot_correlation_graphs (compute_correlations table) = inr plots
        /\ map plot_rows plots = [compute_correlations table; low; high]
        /\ low ++ high = compute_correlations table
        /\ Forall (fun r => window r <= 10) low
        /\ Forall (fun r => 11 <= window r) high).
Proof.
  split.
  - intros ->. reflexivity.
  - intros Hne.
    set (df := compute_correlations table).
    assert (Hdf : df <> []).
    { intros Hdf. apply Hne. apply (f_equal (map window)) in Hdf.
      unfold df in Hdf. rewrite correlation_windows in Hdf. cbn [map] in Hdf.
      destruct table as [| r table]; [reflexivity |]. exfalso.
      assert (Hin : In (Z.of_nat (rolling_window r))
                       (group_keys (map (fun r => Z.of_nat (rolling_window r))
                                        (r :: table)))).
      { apply group_keys_In. left. reflexivity. }
      rewrite Hdf in Hin. exact Hin. }
    eexists. exists (filter (fun r => window r <=? 10) df),
           (filter (fun r => window r >=? 11) df).
    split; [apply plot_table_with_rows; exact Hdf |].
    split; [reflexivity |]. split; [| split].
    + apply (split_sorted_windows 10). unfold df.
      rewrite correlation_windows. apply group_keys_sorted.
    + apply Forall_forall. intros r Hr. apply filter_In in Hr.
      destruct Hr as [_ Hr]. apply Z.leb_le. exact Hr.
    + apply Forall_forall. intros r Hr. apply filter_In in Hr.
      destruct Hr as [_ Hr]. rewrite Z.geb_leb in Hr. apply Z.leb_le. exact Hr.
Qed.

End MoreReducerFacts.

(** ** Acquisition *)

Section FetchFacts.

Variable statcast : date -> date -> nat -> response.
Variable max_retries : nat.

Local Open Scope nat_scope.

Lemma settled_returns (c : date * date) (n a : nat) (df : option (list Event)) :
  statcast (fst c) (snd c) a = Returns df ->
  settled statcast c (S n) a = Some a.
Proof. intros H. unfold settled. simpl. rewrite H. reflexivity. Qed.

Lemma settled_raises (c : date * date) (n a : nat) :
  statcast (fst c) (snd c) a = Raises ->
  settled statcast c (S n) a = settled statcast c n (S a).
Proof. intros H. unfold settled. simpl. rewrite H. reflexivity. Qed.

Lemma settled_range (c : date * date) (n a i : nat) :
  settled statcast c n a = Some i -> a <= i < a + n.
Proof.
  unfold settled. intros H. apply find_some in H. destruct H as [H _].
  apply in_seq in H. exact H.
Qed.

Lemma calls_from_raises (c : date * date) (n a : nat) :
  statcast (fst c) (snd c) a = Raises ->
  calls_from statcast c (S n) a = S (calls_from statcast c n (S a)).
Proof.
  intros H. unfold calls_from. rewrite (settled_raises c n a H).
  destruct (settled statcast c n (S a)) as [i |] eqn:Hs; [| reflexivity].
  apply settled_range in Hs. lia.
Qed.

Lemma calls_from_bounds (c : date * date) (n a : nat) :
  calls_from statcast c n a <= n /\ (1 <= n -> 1 <= calls_from statcast c n a).
Proof.
  unfold calls_from.
  destruct (settled statcast c n a) as [i |] eqn:Hs; [| lia].
  apply settled_range in Hs. lia.
Qed.

Lemma written_log (st : fetch_state) (fs : list (list Event)) (a : action) :
  is_write a = false -> written st fs -> written (log a st) fs.
Proof.
  intros Ha (Hh & Hf & Hw). unfold written, log; simpl.
  rewrite filter_app; simpl. rewrite Ha, app_nil_r. auto.
Qed.

Lemma written_to_csv (st : fetch_state) (fs : list (list Event))
    (rows : list Event) :
  written st fs ->
  written (set_header_written
             (to_csv rows (header_written st) (negb (header_written st)) st))
          (fs ++ [rows]).
Proof.
  intros (Hh & Hf & Hw). unfold written, set_header_written, to_csv; simpl.
  rewrite filter_app, Hw, Hh, Hf; simpl.
  destruct fs as [| f fs]; simpl.
  - rewrite app_nil_r. auto.
  - rewrite map_app, concat_app; simpl. rewrite app_nil_r, app_assoc. auto.
Qed.

(** One range: the frame of the first attempt that returns is written, when
    it has rows. *)
Lemma attempt_loop_written (c : date * date) (n : nat) :
  forall a st fs,
    written st fs ->
    written (attempt_loop statcast max_retries (fst c) (snd c) n a st)
            (fs ++ keep (frame_from statcast c n a)).
Proof.
  induction n as [| n IH]; intros a st fs Hw.
  - unfold frame_from, settled, keep; simpl. rewrite app_nil_r. exact Hw.
  - cbn [attempt_loop].
    assert (Hw1 : written (log (Statcast (fst c) (snd c)) st) fs)
      by (apply written_log; [reflexivity | exact Hw]).
    destruct (statcast (fst c) (snd c) a) as [| df] eqn:Hr.
    + unfold frame_from. rewrite (settled_raises c n a Hr).
      apply IH. destruct (a <? max_retries); [| exact Hw1].
      apply written_log; [reflexivity | exact Hw1].
    + unfold frame_from. rewrite (settled_returns c n a df Hr), Hr.
      destruct df as [[| r rows] |]; unfold keep; cbn [nonempty];
        rewrite ?app_nil_r; try exact Hw1.
      apply (written_to_csv _ _ (r :: rows) Hw1).
Qed.

Lemma attempt_loop_calls (c : date * date) (n : nat) :
  forall a st,
    filter is_call
      (trace (attempt_loop statcast max_retries (fst c) (snd c) n a st)) =
    filter is_call (trace st)
    ++ repeat (Statcast (fst c) (snd c)) (calls_from statcast c n a).
Proof.
  induction n as [| n IH]; intros a st.
  - unfold calls_from, settled; simpl. rewrite app_nil_r. reflexivity.
  - cbn [attempt_loop].
    destruct (statcast (fst c) (snd c) a) as [| df] eqn:Hr.
    + rewrite IH, (calls_from_raises c n a Hr).
      destruct (a <? max_retries); simpl; rewrite !filter_app; simpl;
        rewrite ?app_nil_r, <- app_assoc; reflexivity.
    + unfold calls_from. rewrite (settled_returns c n a df Hr).
      replace (a + 1 - a) with 1 by lia.
      destruct df as [[| r rows] |]; simpl; rewrite !filter_app; simpl;
        rewrite ?app_nil_r; reflexivity.
Qed.

Lemma attempt_loop_sleeps (c : date * date) (n : nat) :
  forall a st,
    a + n = max_retries + 1 ->
    filter is_sleep
      (trace (attempt_loop statcast max_retries (fst c) (snd c) n a st)) =
    filter is_sleep (trace st) ++ repeat (Sleep 5) (calls_from statcast c n a - 1).
Proof.
  induction n as [| n IH]; intros a st Ha.
  - unfold calls_from, settled; simpl. rewrite app_nil_r. reflexivity.
  - cbn [attempt_loop].
    destruct (statcast (fst c) (snd c) a) as [| df] eqn:Hr.
    + rewrite IH by lia. rewrite (calls_from_raises c n a Hr).
      destruct (Nat.ltb_spec a max_retries) as [Hlt | Hge].
      * destruct (calls_from_bounds c n (S a)) as [_ Hpos].
        specialize (Hpos ltac:(lia)).
        replace (S (calls_from statcast c n (S a)) - 1)
          with (S (calls_from statcast c n (S a) - 1)) by lia.
        cbn [log trace repeat]. rewrite !filter_app. cbn [filter is_sleep].
        rewrite app_nil_r, <- app_assoc. reflexivity.
      * destruct (calls_from_bounds c n (S a)) as [Hle _].
        assert (n = 0) by lia. subst n.
        replace (calls_from statcast c 0 (S a)) with 0 by lia.
        cbn [log trace repeat Nat.sub]. rewrite !filter_app.
        cbn [filter is_sleep]. rewrite !app_nil_r. reflexivity.
    + unfold calls_from. rewrite (settled_returns c n a df Hr).
      replace (a + 1 - a - 1) with 0 by lia.
      destruct df as [[| r rows] |]; simpl; rewrite !filter_app; simpl;
        rewrite ?app_nil_r; reflexivity.
Qed.

(** A loop whose body adds to a projection of the state. *)
Lemma fold_left_adds (S C B : Type) (step : S -> C -> S) (proj : S -> list B)
    (g : C -> list B) :
  (forall st c, proj (step st c) = proj st ++ g c) ->
  forall cs st, proj (fold_left step cs st) = proj st ++ flat_map g cs.
Proof.
  intros Hstep. induction cs as [| c cs IH]; intros st; simpl.
  - rewrite app_nil_r. reflexivity.
  - rewrite IH, Hstep, app_assoc. reflexivity.
Qed.

Lemma fold_left_written (C : Type) (step : fetch_state -> C -> fetch_state)
    (g : C -> list (list Event)) :
  (forall st fs c, written st fs -> written (step st c) (fs ++ g c)) ->
  forall cs st fs,
    written st fs -> written (fold_left step cs st) (fs ++ flat_map g cs).
Proof.
  intros Hstep. induction cs as [| c cs IH]; intros st fs Hw; simpl.
  - rewrite app_nil_r. exact Hw.
  - rewrite app_assoc. apply IH. apply Hstep. exact Hw.
Qed.

Lemma flat_map_chunks (B : Type) (g : date * date -> list B)
    (start_year end_year : Z) :
  flat_map (fun year =>
              flat_map (fun month =>
                          g ((year, month, 1%Z), (year, month, 28%Z)))
                       (zrange 3 11))
           (zrange start_year (end_year + 1)) =
  flat_map g (chunks start_year end_year).
Proof.
  unfold chunks. induction (zrange start_year (end_year + 1)) as [| y ys IH];
    [reflexivity |].
  cbn [flat_map]. rewrite flat_map_app, IH. reflexivity.
Qed.

Lemma chunk_frame_from (c : date * date) :
  frame_from statcast c max_retries 1 = chunk_frame statcast max_retries c.
Proof. reflexivity. Qed.

Lemma chunk_calls_from (c : date * date) :
  calls_from statcast c max_retries 1 = chunk_calls statcast max_retries c.
Proof.
  unfold calls_from, chunk_calls.
  destruct (settled statcast c max_retries 1); lia.
Qed.

Lemma fetched_written (start_year end_year : Z) :
  written (fetched statcast max_retries start_year end_year)
          (flat_map (fun c => keep (chunk_frame statcast max_retries c))
                    (chunks start_year end_year)).
Proof.
  unfold fetched. rewrite <- flat_map_chunks.
  refine (fold_left_written _
            (fetch_year statcast max_retries)
            (fun year => flat_map (fun month =>
               keep (chunk_frame statcast max_retries
                       ((year, month, 1%Z), (year, month, 28%Z))))
               (zrange 3 11))
            _
            (zrange start_year (end_year + 1))
            (mkFetchState false None []) [] _).
  - intros st fs year Hw. unfold fetch_year.
    apply (fold_left_written _ (fetch_month statcast max_retries year)
             (fun month => keep (chunk_frame statcast max_retries
                      ((year, month, 1%Z), (year, month, 28%Z))))).
    + intros st' fs' month Hw'. unfold fetch_month.
      apply (attempt_loop_written
               ((year, month, 1%Z), (year, month, 28%Z)) max_retries 1
               st' fs' Hw').
    + exact Hw.
  - repeat split.
Qed.

Lemma fetched_calls (start_year end_year : Z) :
  filter is_call (trace (fetched statcast max_retries start_year end_year)) =
  flat_map (fun c => repeat (Statcast (fst c) (snd c))
                            (chunk_calls statcast max_retries c))
           (chunks start_year end_year).
Proof.
  unfold fetched. rewrite <- flat_map_chunks.
  rewrite (fold_left_adds _ _ _ (fetch_year statcast max_retries)
             (fun st => filter is_call (trace st))
             (fun year => flat_map (fun month =>
                repeat (Statcast (year, month, 1%Z) (year, month, 28%Z))
                  (chunk_calls statcast max_retries
                     ((year, month, 1%Z), (year, month, 28%Z))))
                (zrange 3 11))); [reflexivity |].
  intros st year. unfold fetch_year.
  apply (fold_left_adds _ _ _ (fetch_month statcast max_retries year)
           (fun st => filter is_call (trace st))).
  intros st' month. unfold fetch_month.
  pose proof (attempt_loop_calls
                ((year, month, 1%Z), (year, month, 28%Z)) max_retries 1 st')
    as H.
  cbn [fst snd] in H. rewrite H, chunk_calls_from. reflexivity.
Qed.

Lemma fetched_sleeps (start_year end_year : Z) :
  filter is_sleep (trace (fetched statcast max_retries start_year end_year)) =
  flat_map (fun c => repeat (Sleep 5)
                            (chunk_calls statcast max_retries c - 1))
           (chunks start_year end_year).
Proof.
  unfold fetched. rewrite <- flat_map_chunks.
  rewrite (fold_left_adds _ _ _ (fetch_year statcast max_retries)
             (fun st => filter is_sleep (trace st))
             (fun year => flat_map (fun month =>
                repeat (Sleep 5)
                  (chunk_calls statcast max_retries
                     ((year, month, 1%Z), (year, month, 28%Z)) - 1))
                (zrange 3 11))); [reflexivity |].
  intros st year. unfold fetch_year.
  apply (fold_left_adds _ _ _ (fetch_month statcast max_retries year)
           (fun st => filter is_sleep (trace st))).
  intros st' month. unfold fetch_month.
  pose proof (attempt_loop_sleeps
                ((year, month, 1%Z), (year, month, 28%Z)) max_retries 1 st'
                ltac:(lia)) as H.
  cbn [fst snd] in H. rewrite H, chunk_calls_from. reflexivity.
Qed.

Lemma attempts_pattern_S (c : date * date) (k : nat) :
  1 <= k ->
  Statcast (fst c) (snd c) :: Sleep 5 :: attempts_pattern c k =
  attempts_pattern c (S k).
Proof.
  intros Hk. destruct k as [| k]; [lia |]. reflexivity.
Qed.

(** One range: requests and sleeps alternate, beginning and ending with a
    request. *)
Lemma attempt_loop_pattern (c : date * date) (n : nat) :
  forall a st,
    a + n = max_retries + 1 ->
    filter is_call_or_sleep
      (trace (attempt_loop statcast max_retries (fst c) (snd c) n a st)) =
    filter is_call_or_sleep (trace st)
    ++ attempts_pattern c (calls_from statcast c n a).
Proof.
  induction n as [| n IH]; intros a st Ha.
  - unfold calls_from, settled; simpl. rewrite app_nil_r. reflexivity.
  - cbn [attempt_loop].
    destruct (statcast (fst c) (snd c) a) as [| df] eqn:Hr.
    + rewrite IH by lia. rewrite (calls_from_raises c n a Hr).
      destruct (Nat.ltb_spec a max_retries) as [Hlt | Hge].
      * destruct (calls_from_bounds c n (S a)) as [_ Hpos].
        specialize (Hpos ltac:(lia)).
        rewrite <- (attempts_pattern_S c _ Hpos).
        cbn [log trace]. rewrite !filter_app.
        cbn [filter is_call_or_sleep is_call is_sleep orb].
        rewrite <- !app_assoc. reflexivity.
      * destruct (calls_from_bounds c n (S a)) as [Hle _].
        assert (n = 0) by lia. subst n.
        replace (calls_from statcast c 0 (S a)) with 0 by lia.
        cbn [log trace attempts_pattern]. rewrite !filter_app.
        cbn [filter is_call_or_sleep is_call is_sleep orb].
        rewrite !app_nil_r. reflexivity.
    + unfold calls_from. rewrite (settled_returns c n a df Hr).
      replace (a + 1 - a) with 1 by lia.
      destruct df as [[| r rows] |]; simpl; rewrite !filter_app; simpl;
        rewrite ?app_nil_r; reflexivity.
Qed.

Lemma fetched_pattern (start_year end_year : Z) :
  filter is_call_or_sleep
         (trace (fetched statcast max_retries start_year end_year)) =
  flat_map (fun c => attempts_pattern c (chunk_calls statcast max_retries c))
           (chunks start_year end_year).
Proof.
  unfold fetched. rewrite <- flat_map_chunks.
  rewrite (fold_left_adds _ _ _ (fetch_year statcast max_retries)
             (fun st => filter is_call_or_sleep (trace st))
             (fun year => flat_map (fun month =>
                attempts_pattern ((year, month, 1%Z), (year, month, 28%Z))
                  (chunk_calls statcast max_retries
                     ((year, month, 1%Z), (year, month, 28%Z))))
                (zrange 3 11))); [reflexivity |].
  intros st year. unfold fetch_year.
  apply (fold_left_adds _ _ _ (fetch_month statcast max_retries year)
           (fun st => filter is_call_or_sleep (trace st))).
  intros st' month. unfold fetch_month.
  pose proof (attempt_loop_pattern
                ((year, month, 1%Z), (year, month, 28%Z)) max_retries 1 st'
                ltac:(lia)) as H.
  cbn [fst snd] in H. rewrite H, chunk_calls_from. reflexivity.
Qed.

Lemma concat_keep (B : Type) (f : B -> list Event) (cs : list B) :
  concat (flat_map (fun c => keep (f c)) cs) = concat (map f cs).
Proof.
  induction cs as [| c cs IH]; simpl; [reflexivity |].
  rewrite concat_app, IH. unfold keep.
  destruct (f c); simpl; rewrite ?app_nil_r; reflexivity.
Qed.

Lemma nonempty_keep (B : Type) (f : B -> list Event) (cs : list B) :
  nonempty (flat_map (fun c => keep (f c)) cs) = nonempty (concat (map f cs)).
Proof.
  induction cs as [| c cs IH]; simpl; [reflexivity |].
  unfold keep at 1. destruct (f c); simpl; [exact IH | reflexivity].
Qed.

Lemma fetch_from_scratch (start_year end_year : Z) :
  fetch_statcast_data statcast max_retries start_year end_year None =
  (if negb (header_written (fetched statcast max_retries start_year end_year))
   then inl (RuntimeError "No data was fetched. Exiting.")
   else read_csv (output_file (fetched statcast max_retries start_year end_year)),
   fetched statcast max_retries start_year end_year).
Proof.
  unfold fetch_statcast_data, fetched.
  destruct (negb (header_written _)); reflexivity.
Qed.

(** X12. Started without the output file, the function returns the rows
    the ranges contribute, range after range in chronological order, each
    range contributing the frame of its first attempt that does not raise
    (nothing when all [max_retries] attempts raise or the frame is [None]
    or empty); the file then holds exactly these rows.  When no range
    contributes a row it raises [RuntimeError] and creates no file. *)
Theorem X12_fetch_result (start_year end_year : Z) :
  let data := concat (map (chunk_frame statcast max_retries)
                          (chunks start_year end_year)) in
  let run := fetch_statcast_data statcast max_retries start_year end_year None in
  match data with
  | [] => fst run = inl (RuntimeError "No data was fetched. Exiting.")
          /\ output_file (snd run) = None
  | _ :: _ => fst run = inr data /\ output_file (snd run) = Some data
  end.
Proof.
  cbv zeta. rewrite fetch_from_scratch. cbn [fst snd].
  destruct (fetched_written start_year end_year) as (Hh & Hf & _).
  rewrite nonempty_keep in Hh, Hf. rewrite concat_keep in Hf.
  rewrite Hh, Hf.
  destruct (concat (map (chunk_frame statcast max_retries)
                        (chunks start_year end_year))); simpl; auto.
Qed.

Lemma zrange_length (a b : Z) : length (zrange a b) = Z.to_nat (b - a).
Proof. unfold zrange. rewrite length_map, length_seq. reflexivity. Qed.

Lemma zrange_In (a b x : Z) : In x (zrange a b) <-> (a <= x < b)%Z.
Proof.
  unfold zrange. rewrite in_map_iff. split.
  - intros (i & <- & Hi). apply in_seq in Hi. lia.
  - intros Hx. exists (Z.to_nat (x - a)). split; [lia |].
    apply in_seq. lia.
Qed.

Lemma length_flat_map_uniform (B C : Type) (f : C -> list B) (k : nat)
    (cs : list C) :
  (forall c, length (f c) = k) -> length (flat_map f cs) = k * length cs.
Proof.
  intros Hf. induction cs as [| c cs IH]; simpl; [lia |].
  rewrite length_app, Hf, IH. lia.
Qed.

Lemma chunks_length (start_year end_year : Z) :
  length (chunks start_year end_year) =
  8 * Z.to_nat (end_year + 1 - start_year).
Proof.
  unfold chunks. rewrite (length_flat_map_uniform _ _ _ 8).
  - rewrite zrange_length. reflexivity.
  - intros y. rewrite length_map, zrange_length. reflexivity.
Qed.

Lemma settled_earlier_raise (c : date * date) (n : nat) :
  forall a i,
    settled statcast c n a = Some i ->
    forall j, a <= j < i -> statcast (fst c) (snd c) j = Raises.
Proof.
  induction n as [| n IH]; intros a i Hs j Hj; [discriminate |].
  destruct (statcast (fst c) (snd c) a) as [| df] eqn:Hr.
  - rewrite (settled_raises c n a Hr) in Hs.
    destruct (Nat.eq_dec j a) as [-> | Hne]; [exact Hr |].
    apply (IH (S a) i Hs). lia.
  - rewrite (settled_returns c n a df Hr) in Hs. injection Hs as <-. lia.
Qed.

Lemma chunks_In (start_year end_year : Z) (c : date * date) :
  In c (chunks start_year end_year) <->
  exists year month,
    c = ((year, month, 1%Z), (year, month, 28%Z))
    /\ (start_year <= year <= end_year)%Z /\ (3 <= month <= 10)%Z.
Proof.
  unfold chunks. rewrite in_flat_map. split.
  - intros (y & Hy & Hc). apply in_map_iff in Hc.
    destruct Hc as (m & <- & Hm). apply zrange_In in Hy, Hm.
    exists y, m. repeat split; lia.
  - intros (y & m & -> & Hy & Hm). exists y. split.
    + apply zrange_In. lia.
    + apply in_map_iff. exists m. split; [reflexivity |].
      apply zrange_In. lia.
Qed.

Lemma chunk_calls_le (c : date * date) :
  chunk_calls statcast max_retries c <= max_retries.
Proof.
  rewrite <- chunk_calls_from.
  destruct (calls_from_bounds c max_retries 1) as [H _]. exact H.
Qed.

Lemma length_flat_map_repeat (B C : Type) (f : C -> B) (k : C -> nat)
    (m : nat) (cs : list C) :
  (forall c, k c <= m) ->
  length (flat_map (fun c => repeat (f c) (k c)) cs) <= m * length cs.
Proof.
  intros Hk. induction cs as [| c cs IH]; simpl; [lia |].
  rewrite length_app, repeat_length. specialize (Hk c). lia.
Qed.

(** X13. The requests to the service, started without the output file:
    the ranges are the days 1 to 28 of every month from March to October of
    every year from [start_year] to [end_year], in chronological order; a
    range is requested again only after a request for it raised, at most
    [max_retries] times in all, and then never again.  With the output file
    present there is no request at all. *)
Theorem X13_fetch_requests (start_year end_year : Z)
    (content : list Event) :
  let run := fetch_statcast_data statcast max_retries start_year end_year None in
  let cached :=
    fetch_statcast_data statcast max_retries start_year end_year (Some content)
  in
  filter is_call (trace (snd run)) =
    flat_map (fun c => repeat (Statcast (fst c) (snd c))
                              (chunk_calls statcast max_retries c))
             (chunks start_year end_year)
  /\ (forall c, chunk_calls statcast max_retries c <= max_retries)
  /\ (forall c i,
        settled statcast c max_retries 1 = Some i ->
        chunk_calls statcast max_retries c = i
        /\ returns (statcast (fst c) (snd c) i) = true
        /\ forall j, 1 <= j < i -> statcast (fst c) (snd c) j = Raises)
  /\ (forall c, In c (chunks start_year end_year) <->
                exists year month,
                  c = ((year, month, 1%Z), (year, month, 28%Z))
                  /\ (start_year <= year <= end_year)%Z
                  /\ (3 <= month <= 10)%Z)
  /\ length (filter is_call (trace (snd run))) <=
     max_retries * (8 * Z.to_nat (end_year + 1 - start_year))
  /\ trace (snd cached) = [] /\ fst cached = inr content.
Proof.
  cbv zeta. rewrite fetch_from_scratch. cbn [snd].
  rewrite fetched_calls.
  split; [reflexivity |]. split; [exact chunk_calls_le |].
  split; [| split; [apply chunks_In | split; [| split; reflexivity]]].
  - intros c i Hs. unfold chunk_calls. rewrite Hs.
    split; [reflexivity |].
    split.
    + unfold settled in Hs. apply find_some in Hs. tauto.
    + intros j Hj. apply (settled_earlier_raise c max_retries 1 i Hs j Hj).
  - rewrite <- chunks_length.
    apply length_flat_map_repeat. exact chunk_calls_le.
Qed.

(** X14. The function sleeps only between two attempts for the same
    range: in the trace, the requests and sleeps for a range requested [k]
    times are [k] requests with exactly one sleep of 5 seconds between each
    two consecutive ones, none before the first request and none after the
    last, and the ranges follow one another without a sleep in between.  So
    a range requested [k] times costs [k - 1] sleeps. *)
Theorem X14_fetch_sleeps (start_year end_year : Z) :
  let run := fetch_statcast_data statcast max_retries start_year end_year None in
  filter is_call_or_sleep (trace (snd run)) =
    flat_map (fun c => attempts_pattern c (chunk_calls statcast max_retries c))
             (chunks start_year end_year)
  /\ filter is_sleep (trace (snd run)) =
    flat_map (fun c => repeat (Sleep 5)
                              (chunk_calls statcast max_retries c - 1))
             (chunks start_year end_year)
  /\ length (filter is_sleep (trace (snd run))) <=
     (max_retries - 1) * (8 * Z.to_nat (end_year + 1 - start_year)).
Proof.
  cbv zeta. rewrite fetch_from_scratch. cbn [snd].
  rewrite fetched_pattern, fetched_sleeps.
  split; [reflexivity |]. split; [reflexivity |].
  rewrite <- chunks_length. apply length_flat_map_repeat.
  intros c. pose proof (chunk_calls_le c). lia.
Qed.

Lemma keep_filter (B : Type) (f : B -> list Event) (cs : list B) :
  flat_map (fun c => keep (f c)) cs = filter (@nonempty Event) (map f cs).
Proof.
  induction cs as [| c cs IH]; simpl; [reflexivity |].
  rewrite IH. unfold keep. destruct (nonempty (f c)); reflexivity.
Qed.

(** X15. Whatever the service answers and whether or not the output file
    exists, a frame the function returns is the content of the output file
    when it returns, and reading the file never fails.  Started without the
    file, it writes the frames that have rows and no other, in the order of
    the ranges: the first write creates the file with the header, all later
    ones append without header. *)
Theorem X15_fetch_file (start_year end_year : Z)
    (file : option (list Event)) :
  let run := fetch_statcast_data statcast max_retries start_year end_year file in
  (forall data, fst run = inr data -> output_file (snd run) = Some data)
  /\ fst run <> inl FileNotFoundError
  /\ (file = None ->
      filter is_write (trace (snd run)) =
      write_actions
        (filter (@nonempty Event)
                (map (chunk_frame statcast max_retries)
                     (chunks start_year end_year)))).
Proof.
  cbv zeta. destruct file as [content |].
  - cbn [fetch_statcast_data read_csv fst snd output_file].
    split; [| split]; [intros data [= <-]; reflexivity | discriminate
                      | discriminate].
  - rewrite fetch_from_scratch. cbn [fst snd].
    destruct (fetched_written start_year end_year) as (Hh & Hf & Hw).
    rewrite keep_filter in Hw. rewrite Hh, Hf.
    destruct (nonempty (flat_map _ _)); cbn [negb read_csv].
    + split; [| split]; [intros data [= <-]; reflexivity | discriminate
                        | intros _; exact Hw].
    + split; [| split]; [discriminate | discriminate | intros _; exact Hw].
Qed.

End FetchFacts.

(** ** The pipeline *)

Section MainFacts.

Context {SV : SortValues}.

Local Open Scope nat_scope.

Lemma process_no_player (data : list Event) :
  (forall p, length (player_events p data) < 260) ->
  process_all_players data = inl (ValueError "No objects to concatenate").
Proof.
  intros Hshort. rewrite process_all_players_spec, qualifying_groups.
  rewrite filter_none; [reflexivity |].
  intros k _. apply Nat.leb_gt. apply Hshort.
Qed.

Lemma windows_filter (P : Z -> bool) (df : list CorrelationRow) :
  map window (filter (fun r => P (window r)) df) = filter P (map window df).
Proof. symmetry. apply filter_map_swap. Qed.

(** X16. How a run of [main] ends.  When acquisition raises, so does
    [main], with that error.  When the data has no player with 260 events,
    [main] ends in the [ValueError] of the aggregator and saves no plot.
    Otherwise it saves three plots, for the window sizes 1..250, 1..10 and
    11..250 in this order, each within the limits of its x axis.  Nothing
    after acquisition touches the service or the data file. *)
Theorem X16_main_outcomes (statcast : date -> date -> nat -> response)
    (file : option (list Event)) :
  let run := fetch_statcast_data statcast 3 2013 2023 file in
  snd (main statcast file) = snd run
  /\ match fst run with
     | inl e => fst (main statcast file) = inl (FetchFailed e)
     | inr data =>
         ((forall p, length (player_events p data) < 260) ->
          fst (main statcast file) =
          inl (ProcessFailed (ValueError "No objects to concatenate")))
         /\ ((exists p, 260 <= length (player_events p data)) ->
             exists plots,
               fst (main statcast file) = inr plots
               /\ map (fun p => map window (plot_rows p)) plots =
                  [map Z.of_nat (seq 1 250); map Z.of_nat (seq 1 10);
                   map Z.of_nat (seq 11 240)]
               /\ map filename plots =
                  ["correlation_1_250.png"; "correlation_1_10.png";
                   "correlation_11_250.png"]%string
               /\ Forall within_xlim plots)
     end.
Proof.
  cbv zeta. unfold main.
  destruct (fetch_statcast_data statcast 3 2013 2023 file) as [res st].
  cbn [fst snd]. destruct res as [e | data].
  - split; reflexivity.
  - split;
      [destruct (process_all_players data) as [e | rolling_df];
       [reflexivity
       | destruct (plot_correlation_graphs (compute_correlations rolling_df));
         reflexivity] |].
    split.
    + intros Hshort. rewrite (process_no_player data Hshort). reflexivity.
    + intros Hp.
      pose proof (table_windows data Hp) as Hw.
      destruct Hp as (p & Hp).
      destruct (@rows_of_qualifying SV data p 1 Hp) as (table & Ht & _);
        [unfold default_max_window; lia |].
      rewrite Ht in Hw |- *. cbn [table_rows fst] in Hw |- *.
      rewrite <- correlation_windows in Hw.
      set (df := compute_correlations table) in *.
      assert (Hdf : df <> []) by (intros E; rewrite E in Hw; discriminate Hw).
      rewrite (plot_table_with_rows df Hdf). cbn [fst].
      eexists. split; [reflexivity |].
      unfold make_plot.
      cbn [map plot_rows filename].
      rewrite (windows_filter (fun w => (w <=? 10)%Z) df).
      rewrite (windows_filter (fun w => (w >=? 11)%Z) df).
      rewrite Hw. split; [| split; [reflexivity |]].
      * vm_compute. reflexivity.
      * assert (Hall : forall r, In r df -> (1 <= window r <= 250)%Z).
        { intros r Hr. apply (in_map window) in Hr. rewrite Hw in Hr.
          apply in_map_iff in Hr. destruct Hr as (k & <- & Hk).
          apply in_seq in Hk. unfold default_max_window in Hk. lia. }
        repeat constructor; unfold within_xlim; cbn [plot_rows xlim fst snd];
          apply Forall_forall; intros r Hr.
        -- apply Hall. exact Hr.
        -- apply filter_In in Hr. destruct Hr as [Hr Hc].
           apply Z.leb_le in Hc. specialize (Hall r Hr). lia.
        -- apply filter_In in Hr. destruct Hr as [Hr Hc].
           rewrite Z.geb_leb in Hc. apply Z.leb_le in Hc.
           specialize (Hall r Hr). lia.
Qed.

End MainFacts.

(** ** Content and order of the unified table *)

Section TableContentFacts.

Context {SV : SortValues}.

Local Open Scope nat_scope.

Lemma combine_app_same (A B : Type) (a1 a2 : list A) (b1 b2 : list B) :
  length a1 = length b1 ->
  combine (a1 ++ a2) (b1 ++ b2) = combine a1 b1 ++ combine a2 b2.
Proof.
  revert b1. induction a1 as [| x a1 IH]; intros [| y b1] Hl;
    try discriminate Hl; [reflexivity |].
  simpl. rewrite IH by (simpl in Hl; lia). reflexivity.
Qed.

Lemma filter_indexed_all (A : Type) (P : nat -> bool) (l : list A) (s : nat)
    (v : bool) :
  (forall i, s <= i < s + length l -> P i = v) ->
  filter (fun c => P (fst c)) (combine (seq s (length l)) l) =
  if v then combine (seq s (length l)) l else [].
Proof.
  intros HP. destruct v.
  - apply filter_all. intros [i x] Hin. apply in_combine_l in Hin.
    apply in_seq in Hin. apply HP. exact Hin.
  - apply filter_none. intros [i x] Hin. apply in_combine_l in Hin.
    apply in_seq in Hin. apply HP. exact Hin.
Qed.

Lemma filter_indexed_three (A : Type) (l1 l2 l3 : list A) :
  filter (fun c => (length l1 <=? fst c)
                   && (fst c <? length l1 + length l2))
         (combine (seq 0 (length (l1 ++ l2 ++ l3))) (l1 ++ l2 ++ l3)) =
  combine (seq (length l1) (length l2)) l2.
Proof.
  set (P := fun i => (length l1 <=? i) && (i <? length l1 + length l2)).
  change (fun c : nat * A =>
            (length l1 <=? fst c) && (fst c <? length l1 + length l2))
    with (fun c : nat * A => P (fst c)).
  rewrite !length_app, !seq_app.
  rewrite !combine_app_same by (rewrite ?length_seq; reflexivity).
  rewrite !filter_app. cbn [Nat.add].
  rewrite (filter_indexed_all _ P l1 0 false).
  - rewrite (filter_indexed_all _ P l2 (length l1) true).
    + rewrite (filter_indexed_all _ P l3 (length l1 + length l2) false).
      * rewrite app_nil_r. reflexivity.
      * intros i Hi. apply andb_false_iff. right. apply Nat.ltb_ge. lia.
    + intros i Hi. apply andb_true_iff. split.
      * apply Nat.leb_le. lia.
      * apply Nat.ltb_lt. lia.
  - intros i Hi. apply andb_false_iff. left. apply Nat.leb_gt. lia.
Qed.

(** The positions [a .. b - 1] of an indexed list. *)
Lemma filter_indexed_interval (A : Type) (l : list A) (a b : nat) :
  a <= b <= length l ->
  filter (fun c => (a <=? fst c) && (fst c <? b))
         (combine (seq 0 (length l)) l) =
  combine (seq a (b - a)) (slice l a b).
Proof.
  intros Hab.
  assert (Hl : slice l 0 a ++ slice l a b ++ slice l b (length l) = l).
  { rewrite <- (slice_split l (a := a) (b := b) (c := length l)) by lia.
    rewrite <- (slice_split l (a := 0) (b := a) (c := length l)) by lia.
    unfold slice. rewrite Nat.sub_0_r. simpl. apply firstn_all. }
  assert (H1 : length (slice l 0 a) = a)
    by (rewrite slice_length by lia; lia).
  assert (H2 : length (slice l a b) = b - a) by (apply slice_length; lia).
  pose proof (filter_indexed_three _ (slice l 0 a) (slice l a b)
                (slice l b (length l))) as H.
  rewrite Hl, H1, H2 in H.
  rewrite (filter_ext _ (fun c => (a <=? fst c) && (fst c <? a + (b - a)))).
  - exact H.
  - intros c. replace (a + (b - a)) with b by lia. reflexivity.
Qed.

(** The complete rows of a pass: positions [W - 1 .. L - 2]. *)
Lemma dropna_pass (tl : list Labeled) (W : nat) :
  1 <= W <= length tl ->
  dropna (window_frame tl W) =
  map (fun c => expected_row tl W (fst c) (snd c))
      (combine (seq (W - 1) (length tl - W))
               (slice tl (W - 1) (length tl - 1))).
Proof.
  intros HW. unfold dropna.
  rewrite (@window_frame_indexed tl W) by lia.
  rewrite filter_map_swap. f_equal.
  rewrite (filter_ext _ (fun c => (W - 1 <=? fst c)
                                  && (fst c <? length tl - 1))).
  - rewrite (filter_indexed_interval _ tl (W - 1) (length tl - 1)) by lia.
    replace (length tl - 1 - (W - 1)) with (length tl - W) by lia.
    reflexivity.
  - intros [i e]. unfold complete_row, expected_row; simpl.
    destruct (W - 1 <=? i); simpl; [| reflexivity].
    destruct (Nat.ltb_spec (i + 1) (length tl));
      destruct (Nat.ltb_spec i (length tl - 1)); try reflexivity; lia.
Qed.

(** X17. The part of the unified table that belongs to a player with
    [L >= 260] events and to a window size [W] of [1 .. 250]: one row for
    each position [W - 1 .. L - 2] of the player's timeline, in timeline
    order, holding the event's player and date, the trailing means over the
    [W] positions that end there and the signals of the next position. *)
Theorem X17_table_content (data : list Event) (p : Z) (W : nat) :
  260 <= length (player_events p data) -> 1 <= W <= 250 ->
  let tl := timeline (get_pa_outcomes (player_events p data)) in
  let L := length (player_events p data) in
  exists table,
    process_all_players data = inr table
    /\ rows_of p W table =
       map (fun c => expected_row tl W (fst c) (snd c))
           (combine (seq (W - 1) (L - W)) (slice tl (W - 1) (L - 1))).
Proof.
  intros Hp HW. cbv zeta.
  destruct (@rows_of_qualifying SV data p W Hp HW) as (table & Ht & Hrows).
  exists table. split; [exact Ht |].
  assert (HL : length (timeline (get_pa_outcomes (player_events p data)))
               = length (player_events p data)).
  { unfold timeline. rewrite (Permutation_length (sort_values_perm _)).
    unfold get_pa_outcomes. apply length_map. }
  rewrite Hrows, dropna_pass by lia. rewrite HL. reflexivity.
Qed.

Lemma strongly_sorted_app (l1 l2 : list Z) :
  StronglySorted Z.le l1 -> StronglySorted Z.le l2 ->
  (forall x y, In x l1 -> In y l2 -> (x <= y)%Z) ->
  StronglySorted Z.le (l1 ++ l2).
Proof.
  induction 1 as [| x l1 Hs IH Hall]; intros H2 Hle; simpl; [exact H2 |].
  constructor.
  - apply IH; [exact H2 |]. intros a b Ha Hb. apply Hle; [right |]; assumption.
  - apply Forall_app. split; [exact Hall |].
    apply Forall_forall. intros y Hy. apply Hle; [left; reflexivity | exact Hy].
Qed.

Lemma strongly_sorted_constant (k : Z) (l : list Z) :
  (forall x, In x l -> x = k) -> StronglySorted Z.le l.
Proof.
  induction l as [| x l IH]; intros H; constructor.
  - apply IH. intros y Hy. apply H. right. exact Hy.
  - apply Forall_forall. intros y Hy.
    rewrite (H x (or_introl eq_refl)), (H y (or_intror Hy)). lia.
Qed.

Lemma strongly_sorted_filter (A : Type) (key : A -> Z) (f : A -> bool)
    (l : list A) :
  StronglySorted Z.le (map key l) ->
  StronglySorted Z.le (map key (filter f l)).
Proof.
  induction l as [| x l IH]; simpl; intros Hs; [constructor |].
  inversion Hs as [| ? ? Hs' Hall]; subst.
  destruct (f x); simpl; [| apply IH; exact Hs'].
  constructor; [apply IH; exact Hs' |].
  apply Forall_forall. intros y Hy. apply in_map_iff in Hy.
  destruct Hy as (r & <- & Hr). apply filter_In in Hr.
  rewrite Forall_forall in Hall. apply Hall. apply in_map. tauto.
Qed.

(** Blocks of rows, block [k] carrying the key [k], for ascending [k]. *)
Lemma blocks_sorted (A : Type) (key : A -> Z) (block : Z -> list A)
    (ks : list Z) :
  StronglySorted Z.lt ks ->
  (forall k r, In k ks -> In r (block k) -> key r = k) ->
  StronglySorted Z.le (map key (concat (map block ks))).
Proof.
  induction 1 as [| k ks Hs IH Hall]; intros Hkey; [constructor |].
  cbn [map concat]. rewrite map_app. apply strongly_sorted_app.
  - apply (strongly_sorted_constant k). intros x Hx.
    apply in_map_iff in Hx. destruct Hx as (r & <- & Hr).
    apply (Hkey k r); [left; reflexivity | exact Hr].
  - apply IH. intros k' r Hk' Hr. apply Hkey; [right |]; assumption.
  - intros x y Hx Hy.
    apply in_map_iff in Hx. destruct Hx as (r & <- & Hr).
    apply in_map_iff in Hy. destruct Hy as (r' & <- & Hr').
    apply in_concat in Hr'. destruct Hr' as (l & Hl & Hr').
    apply in_map_iff in Hl. destruct Hl as (k' & <- & Hk').
    rewrite (Hkey k r (or_introl eq_refl) Hr).
    rewrite (Hkey k' r' (or_intror Hk') Hr').
    rewrite Forall_forall in Hall. specialize (Hall k' Hk'). lia.
Qed.

(** X18. The unified table lists the players in ascending order of their
    identifier, all rows of a player together; the rows of a player for one
    window size are in ascending date order. *)
Theorem X18_table_order (data : list Event) :
  StronglySorted Z.le
    (map player_id (table_rows (process_all_players data)))
  /\ forall p W,
       StronglySorted Z.le
         (map row_game_date
              (rows_of p W (table_rows (process_all_players data)))).
Proof.
  assert (Hids : StronglySorted Z.le
                   (map player_id (table_rows (process_all_players data)))).
  { rewrite process_all_players_spec, qualifying_groups.
    set (ps := filter _ (group_keys (map batter data))).
    assert (Hps : StronglySorted Z.lt ps)
      by (apply filter_sorted, group_keys_sorted).
    assert (Hs : StronglySorted Z.le
              (map player_id
                 (dropna (concat
                    (map (fun g => player_rows (snd g))
                       (map (fun k => (k, get_pa_outcomes (player_events k data)))
                            ps)))))).
    { unfold dropna. apply strongly_sorted_filter. rewrite map_map.
      cbn [snd]. apply blocks_sorted; [exact Hps |].
      intros k r Hk Hr.
      apply (@player_rows_player SV data k
               (get_pa_outcomes (player_events k data)) r); [| exact Hr].
      apply groupby_player. split; [| reflexivity].
      apply filter_In in Hk. destruct Hk as [_ Hk]. apply Nat.leb_le in Hk.
      intros Hnil. rewrite Hnil in Hk. simpl in Hk. lia. }
    destruct ps as [| p0 ps0]; [constructor | exact Hs]. }
  split; [exact Hids |].
  intros p W.
  destruct (Nat.le_gt_cases 260 (length (player_events p data))) as [Hp | Hp].
  - destruct (Nat.le_gt_cases 1 W) as [H1 | H1];
      [destruct (Nat.le_gt_cases W default_max_window) as [H2 | H2] |].
    + destruct (@rows_of_qualifying SV data p W Hp (conj H1 H2))
        as (table & Ht & Hrows).
      rewrite Ht. cbn [table_rows]. rewrite Hrows.
      unfold dropna. apply strongly_sorted_filter.
      destruct (@window_frame_dates
                  (timeline (get_pa_outcomes (player_events p data))) W H1)
        as [Hd _].
      rewrite Hd. apply Sorted_StronglySorted; [intros a b c; lia |].
      apply sorted_dates. apply sort_values_sorted.
    + unfold rows_of.
      rewrite (@filter_none _ _ (table_rows (process_all_players data)));
        [constructor |].
      intros r Hr. apply table_row_origin in Hr.
      destruct Hr as (_ & g & _ & _ & Hin).
      unfold player_rows in Hin. apply in_concat in Hin.
      destruct Hin as (l & Hl & Hin). apply in_map_iff in Hl.
      destruct Hl as (w & <- & Hw). apply in_seq in Hw.
      apply window_frame_window in Hin.
      apply andb_false_iff. right. apply Nat.eqb_neq. lia.
    + unfold rows_of.
      rewrite (@filter_none _ _ (table_rows (process_all_players data)));
        [constructor |].
      intros r Hr. apply table_row_origin in Hr.
      destruct Hr as (_ & g & _ & _ & Hin).
      unfold player_rows in Hin. apply in_concat in Hin.
      destruct Hin as (l & Hl & Hin). apply in_map_iff in Hl.
      destruct Hl as (w & <- & Hw). apply in_seq in Hw.
      apply window_frame_window in Hin.
      apply andb_false_iff. right. apply Nat.eqb_neq. lia.
  - unfold rows_of.
    rewrite (@filter_none _ _ (table_rows (process_all_players data)));
      [constructor |].
    intros r Hr. apply table_row_origin in Hr.
    destruct Hr as (_ & g & Hlen & _).
    apply andb_false_iff. left. apply Z.eqb_neq. intros E.
    rewrite E in Hlen. lia.
Qed.

End TableContentFacts.

(** ** The further properties on sample data *)

Section MoreSamples.

Local Open Scope nat_scope.

(** One year of the sample service: three requests and two sleeps for
    March, one write, one request for April, three requests and two sleeps
    for May, one request for each later month. *)
Example fetch_sample :
  fetch_statcast_data sample_service 3 2013 2013 None =
  (inr sample_events,
   mkFetchState true (Some sample_events)
     ([Statcast (2013, 3, 1) (2013, 3, 28); Sleep 5;
       Statcast (2013, 3, 1) (2013, 3, 28); Sleep 5;
       Statcast (2013, 3, 1) (2013, 3, 28);
       ToCsv false true sample_events;
       Statcast (2013, 4, 1) (2013, 4, 28);
       Statcast (2013, 5, 1) (2013, 5, 28); Sleep 5;
       Statcast (2013, 5, 1) (2013, 5, 28); Sleep 5;
       Statcast (2013, 5, 1) (2013, 5, 28)]
      ++ map (fun m => Statcast (2013, m, 1) (2013, m, 28))
             [6; 7; 8; 9; 10])%Z).
Proof. vm_compute. reflexivity. Qed.

Example fetch_nothing_sample :
  fst (fetch_statcast_data (fun _ _ _ => Raises) 3 2013 2023 None) =
  inl (RuntimeError "No data was fetched. Exiting.").
Proof. vm_compute. reflexivity. Qed.

Lemma X3_window_too_long_witness :
  rolling_mean 8 (map is_hit sample_timeline) = repeat None 7.
Proof.
  apply (X3_window_too_long 8 (map is_hit sample_timeline)).
  vm_compute. lia.
Defined.

Lemma X4_generator_shape_witness :
  exists rows,
    @compute_rolling_stats stable_sort sample_timeline 3 = inr rows
    /\ length rows = 3 * length sample_timeline
    /\ map rolling_window rows =
       flat_map (fun W => repeat W (length sample_timeline)) (seq 1 3)
    /\ forall W, 1 <= W <= 3 ->
         map row_game_date (pass_rows W rows) =
           map (fun r => game_date (ev r)) (@timeline stable_sort sample_timeline)
         /\ map player_id (pass_rows W rows) =
           map (fun r => batter (ev r)) (@timeline stable_sort sample_timeline)
         /\ Sorted Z.le (map row_game_date (pass_rows W rows)).
Proof.
  apply (proj2 (@X4_generator_shape stable_sort sample_timeline 3)). lia.
Defined.

Lemma X5_sort_kind_irrelevant_witness :
  (forall p, @timeline stable_sort (get_pa_outcomes (player_events p sample_events)) =
             @timeline quicksort
               (get_pa_outcomes (player_events p sample_events)))
  /\ @process_all_players stable_sort sample_events =
     @process_all_players quicksort sample_events.
Proof.
  apply (X5_sort_kind_irrelevant stable_sort quicksort sample_events).
  repeat (constructor; [simpl; intuition congruence |]). constructor.
Defined.

Lemma X9_pipeline_windows_witness :
  map window
      (compute_correlations
         (table_rows (@process_all_players stable_sort (season 260)))) =
  map Z.of_nat (seq 1 250).
Proof.
  apply (@X9_pipeline_windows stable_sort (season 260)).
  exists 12%Z. vm_compute. lia.
Defined.

Lemma X17_table_content_witness :
  let tl := @timeline stable_sort (get_pa_outcomes (player_events 12 (season 260))) in
  let L := length (player_events 12 (season 260)) in
  exists table,
    @process_all_players stable_sort (season 260) = inr table
    /\ rows_of 12 3 table =
       map (fun c => expected_row tl 3 (fst c) (snd c))
           (combine (seq (3 - 1) (L - 3)) (slice tl (3 - 1) (L - 1))).
Proof.
  apply (@X17_table_content stable_sort (season 260) 12%Z 3).
  - vm_compute. lia.
  - lia.
Defined.

Lemma X16_main_outcomes_witness :
  exists plots,
    fst (@main stable_sort sample_service (Some (season 260))) = inr plots
    /\ map (fun p => map window (plot_rows p)) plots =
       [map Z.of_nat (seq 1 250); map Z.of_nat (seq 1 10);
        map Z.of_nat (seq 11 240)]
    /\ map filename plots =
       ["correlation_1_250.png"; "correlation_1_10.png";
        "correlation_11_250.png"]%string
    /\ Forall within_xlim plots.
Proof.
  pose proof (@X16_main_outcomes stable_sort sample_service
                (Some (season 260))) as H.
  cbv zeta in H. destruct H as [_ H].
  cbn [fetch_statcast_data read_csv fst] in H.
  destruct H as [_ H]. apply H.
  exists 12%Z. vm_compute. lia.
Defined.

Lemma X11_plots_split_table_witness :
  plot_correlation_graphs (compute_correlations []) = inl (KeyError "window")
  /\ exists plots low high,
       plot_correlation_graphs (compute_correlations streak_rows) = inr plots
       /\ map plot_rows plots = [compute_correlations streak_rows; low; high]
       /\ low ++ high = compute_correlations streak_rows
       /\ Forall (fun r => (window r <= 10)%Z) low
       /\ Forall (fun r => (11 <= window r)%Z) high.
Proof.
  split.
  - apply (proj1 (X11_plots_split_table [])). reflexivity.
  - apply (proj2 (X11_plots_split_table streak_rows)). discriminate.
Defined.


Lemma X15_fetch_file_witness :
  output_file (snd (fetch_statcast_data sample_service 3 2013 2013 None))
  = Some sample_events
  /\ filter is_write
       (trace (snd (fetch_statcast_data sample_service 3 2013 2013 None))) =
     write_actions
       (filter (@nonempty Event)
               (map (chunk_frame sample_service 3) (chunks 2013 2013))).
Proof.
  destruct (X15_fetch_file sample_service 3 2013 2013 None) as (Hd & _ & Hw).
  split.
  - apply Hd. vm_compute. reflexivity.
  - apply Hw. reflexivity.
Defined.

End MoreSamples.
